(** * noodlog: the log-record composition pipeline of [logger.go]

    A shallow embedding of [logger.go] (package [noodlog]) and of the parts
    of the Go standard library it calls, followed by the properties of the
    level filter, the message composer, the redactor and the record
    renderer.

    Go strings are byte sequences: they are modelled by [string], whose
    characters are the 256 byte values.  Go [int] is modelled by [Z]; the
    code does no arithmetic on it besides comparison and [len(msg)-1]. *)

From Stdlib Require Import ZArith String Ascii List Bool Lia DecimalString.
From stdpp Require Import gmap strings.
Import ListNotations.

Open Scope string_scope.
Open Scope Z_scope.

Set Warnings "-register-all".

(** ** Bytes and strings *)

Module Bytes.

(** The double quote and the line feed have no literal form here. *)
Definition dquote : ascii := "034"%char.
Definition newline : ascii := "010"%char.
Definition Q : string := String dquote "".

Definition code (c : ascii) : N := N_of_ascii c.
Definition byte (n : N) : ascii := ascii_of_N n.

Definition in_range (lo hi : N) (c : ascii) : bool :=
  ((lo <=? code c) && (code c <=? hi))%N.

Definition is_digit (c : ascii) : bool := in_range 48 57 c.

Fixpoint smem (c : ascii) (s : string) : bool :=
  match s with
  | "" => false
  | String d s' => Ascii.eqb c d || smem c s'
  end.

Fixpoint sdrop (n : nat) (s : string) : string :=
  match n, s with
  | O, _ => s
  | S k, String _ s' => sdrop k s'
  | S _, "" => ""
  end.

Fixpoint stake (n : nat) (s : string) : string :=
  match n, s with
  | S k, String c s' => String c (stake k s')
  | _, _ => ""
  end.

Fixpoint srepeat (c : ascii) (n : nat) : string :=
  match n with
  | O => ""
  | S k => String c (srepeat c k)
  end.

(** [msg[:len(msg)-1]] for a non-empty [msg]. *)
Fixpoint drop_last (s : string) : string :=
  match s with
  | "" => ""
  | String c "" => ""
  | String c s' => String c (drop_last s')
  end.

Fixpoint sjoin (sep : string) (l : list string) : string :=
  match l with
  | [] => ""
  | [x] => x
  | x :: l' => x +:+ sep +:+ sjoin sep l'
  end.

Definition sconcat (l : list string) : string := fold_right append "" l.

End Bytes.
Import Bytes.

(** ** Package [strings] *)

Module strings.

(** [strings.HasPrefix(s, p)]. *)
Fixpoint HasPrefix (s p : string) {struct p} : bool :=
  match p, s with
  | "", _ => true
  | String a p', String b s' => Ascii.eqb a b && HasPrefix s' p'
  | String _ _, "" => false
  end.

(** [strings.Contains(s, sub)]. *)
Fixpoint Contains (s sub : string) : bool :=
  HasPrefix s sub ||
  match s with
  | "" => false
  | String _ s' => Contains s' sub
  end.

(** [strings.Index(s, sub)]: where [sub] first occurs in [s], or -1. *)
Fixpoint Index (s sub : string) : Z :=
  if HasPrefix s sub then 0
  else
    match s with
    | "" => -1
    | String _ s' => let r := Index s' sub in if r <? 0 then -1 else r + 1
    end.

(** [strings.Split(s, sep)] for a non-empty [sep]: the pieces between the
    successive, non-overlapping occurrences of [sep], found from the left.
    [skip] counts the bytes of an occurrence still to be stepped over and
    [cur] is the piece read so far. *)
Fixpoint split_loop (sep : string) (skip : nat) (cur : string) (s : string)
  : list string :=
  match s with
  | "" => [cur]
  | String c s' =>
      match skip with
      | S k => split_loop sep k cur s'
      | O =>
          if HasPrefix s sep
          then cur :: split_loop sep (String.length sep - 1) "" s'
          else split_loop sep 0 (cur +:+ String c "") s'
      end
  end.

Definition Split (s sep : string) : list string := split_loop sep 0 "" s.

End strings.

(** ** Package [unicode/utf8] *)

Module utf8.

(** What [utf8.DecodeRuneInString] finds at the head of a string: the
    number of bytes it consumes and whether they encode a rune.  An
    invalid or truncated encoding consumes one byte and stands for
    U+FFFD. *)
Record decoded := { rune_ok : bool; rune_size : nat }.

Definition cont (c : ascii) : bool := in_range 128 191 c.

(** Size and accepted range of the second byte, by first byte. *)
Definition first (c : ascii) : option (nat * N * N) :=
  let n := code c in
  if (n <? 194)%N then None
  else if (n <=? 223)%N then Some (2%nat, 128, 191)%N
  else if (n =? 224)%N then Some (3%nat, 160, 191)%N
  else if (n <=? 236)%N then Some (3%nat, 128, 191)%N
  else if (n =? 237)%N then Some (3%nat, 128, 159)%N
  else if (n <=? 239)%N then Some (3%nat, 128, 191)%N
  else if (n =? 240)%N then Some (4%nat, 144, 191)%N
  else if (n <=? 243)%N then Some (4%nat, 128, 191)%N
  else if (n =? 244)%N then Some (4%nat, 128, 143)%N
  else None.

Definition DecodeRuneInString (s : string) : decoded :=
  let bad := {| rune_ok := false; rune_size := 1 |} in
  match s with
  | "" => {| rune_ok := false; rune_size := 0 |}
  | String s0 t =>
      if (code s0 <? 128)%N then {| rune_ok := true; rune_size := 1 |}
      else
        match first s0 with
        | None => bad
        | Some (sz, lo, hi) =>
            match t with
            | String s1 t1 =>
                if negb (in_range lo hi s1) then bad
                else if (sz <=? 2)%nat
                then {| rune_ok := true; rune_size := 2 |}
                else
                  match t1 with
                  | String s2 t2 =>
                      if negb (cont s2) then bad
                      else if (sz <=? 3)%nat
                      then {| rune_ok := true; rune_size := 3 |}
                      else
                        match t2 with
                        | String s3 _ =>
                            if negb (cont s3) then bad
                            else {| rune_ok := true; rune_size := 4 |}
                        | "" => bad
                        end
                  | "" => bad
                  end
            | "" => bad
            end
        end
  end.

(** The UTF-8 encoding of U+FFFD, the replacement character. *)
Definition RuneError : string :=
  String (byte 239) (String (byte 191) (String (byte 189) "")).

(** The bytes [utf8.EncodeRune] writes for the rune decoded at the head
    of [s]: the bytes read when they are an encoding, U+FFFD otherwise. *)
Definition reencode (s : string) : string :=
  let d := DecodeRuneInString s in
  if rune_ok d then stake (rune_size d) s else RuneError.

(** [utf8.EncodeRune] of a code point given by number (surrogates and
    values above U+10FFFF become U+FFFD). *)
Definition EncodeRune (r : N) : string :=
  if (r <? 128)%N then String (byte r) ""
  else if (r <? 2048)%N then
    String (byte (192 + r / 64)) (String (byte (128 + r mod 64)) "")
  else if ((55296 <=? r) && (r <=? 57343))%N then RuneError
  else if (r <? 65536)%N then
    String (byte (224 + r / 4096))
      (String (byte (128 + (r / 64) mod 64))
         (String (byte (128 + r mod 64)) ""))
  else if (r <=? 1114111)%N then
    String (byte (240 + r / 262144))
      (String (byte (128 + (r / 4096) mod 64))
         (String (byte (128 + (r / 64) mod 64))
            (String (byte (128 + r mod 64)) "")))
  else RuneError.

End utf8.

(** ** Go values

    The arguments of a log call are [interface{}] values.  [float64] is
    kept abstract: the code never computes with one, it only lets the
    standard library read and print them. *)

Class Float64 := {
  float64 : Type;
  (** [strconv.ParseFloat(s, 64)] on a JSON number literal; [None] is the
      range error. *)
  ParseFloat : string -> option float64;
  (** The [%v] text of a [float64]. *)
  fmtFloat : float64 -> string;
  (** The JSON text of a [float64]; [None] for NaN and the infinities,
      which [encoding/json] refuses. *)
  jsonFloat : float64 -> option string
}.

(** Any Go value outside the constructors of [value] below (a struct, a
    pointer, an error, a channel ...), kept by what the code can observe of
    it: its [%v] text and what [json.Marshal] returns for it. *)
Record other := { other_text : string; other_json : option string }.

Section Values.
Context `{Float64}.

Inductive value : Type :=
| VNil                                  (* the nil interface *)
| VBool (b : bool)
| VInt (n : Z)                          (* int *)
| VFloat (x : float64)
| VString (s : string)
| VSlice (l : list value)               (* []interface{} *)
| VMap (m : list (string * value))      (* map[string]interface{} *)
| VOther (o : other).

(** A [VMap] lists the entries of the map by ascending key, the order in
    which [fmt] and [encoding/json] visit a map.  [map_set] is the
    assignment [m[k] = v]. *)
Fixpoint map_set (k : string) (v : value) (m : list (string * value))
  : list (string * value) :=
  match m with
  | [] => [(k, v)]
  | (k', v') :: m' =>
      match String.compare k k' with
      | Lt => (k, v) :: m
      | Eq => (k, v) :: m'
      | Gt => (k', v') :: map_set k v m'
      end
  end.

Definition is_nil (v : value) : bool :=
  match v with VNil => true | _ => false end.

End Values.

(** ** Panics

    A Go function either returns or panics; [result] is the error monad
    that threads a panic through the callers. *)

Inductive panic_value :=
| RuntimeError (msg : string)     (* a run-time panic of the Go runtime *)
| PanicString (s : string).       (* [panic(s)] with a string *)

Inductive result (A : Type) :=
| Ok (a : A)
| Raise (p : panic_value).
Arguments Ok {A} a.
Arguments Raise {A} p.

Definition bind {A B} (r : result A) (f : A -> result B) : result B :=
  match r with
  | Ok a => f a
  | Raise p => Raise p
  end.

Notation "x <- r ;; k" := (bind r (fun x => k))
  (at level 100, r at next level, right associativity).

Definition returns {A} (r : result A) : bool :=
  match r with Ok _ => true | Raise _ => false end.

(** ** Package [fmt] *)

Module fmt.

Definition itoa (n : Z) : string := NilZero.string_of_int (Z.to_int n).

Section Verb_v.
Context `{Float64}.

(** The text [%v] prints for a value. *)
Fixpoint fmtV (v : value) : string :=
  match v with
  | VNil => "<nil>"
  | VBool b => if b then "true" else "false"
  | VInt n => itoa n
  | VFloat x => fmtFloat x
  | VString s => s
  | VSlice l => "[" +:+ sjoin " " (map fmtV l) +:+ "]"
  | VMap m =>
      "map[" +:+ sjoin " " (map (fun kv => fst kv +:+ ":" +:+ fmtV (snd kv)) m)
             +:+ "]"
  | VOther o => other_text o
  end.
End Verb_v.

(** *** [Fprintf] with a format and no operand

    [doPrintf] walks the format; with no operand every verb but [%%]
    prints an error marker.  The verb parser below follows [doPrintf]
    step by step on the text after a percent sign and returns what is
    printed together with the number of bytes read. *)

Definition percentBangString := "%!".
Definition missingString := "(MISSING)".
Definition badIndexString := "(BADINDEX)".
Definition noVerbString := "%!(NOVERB)".
Definition badWidthString := "%!(BADWIDTH)".
Definition badPrecString := "%!(BADPREC)".

Definition is_flag (c : ascii) : bool := smem c "#0+- ".

Fixpoint flags (s : string) : nat :=
  match s with
  | String c s' => if is_flag c then S (flags s') else O
  | "" => O
  end.

Definition digit (c : ascii) : Z := Z.of_N (code c) - 48.

(** [parsenum(s, start, end)] on the text [s[start:end]]: whether a number
    was read and how far the index moved.  A number above 10^6 stops the
    scan at [end]. *)
Fixpoint parsenum_from (num : Z) (isnum : bool) (s : string) : bool * nat :=
  match s with
  | String c s' =>
      if is_digit c then
        if 1000000 <? num then (false, String.length s)
        else
          let r := parsenum_from (num * 10 + digit c) true s' in
          (fst r, S (snd r))
      else (isnum, O)
  | "" => (isnum, O)
  end.

Definition parsenum (s : string) : bool * nat := parsenum_from 0 false s.

(** Index of the first closing bracket. *)
Fixpoint find_close (s : string) : option nat :=
  match s with
  | "" => None
  | String c s' =>
      if Ascii.eqb c "]" then Some O
      else option_map S (find_close s')
  end.

(** [parseArgNumber(format)] on a text that starts with an opening
    bracket: the width of the bracketed index and whether it is a
    number. *)
Definition parseArgNumber (s : string) : nat * bool :=
  if (String.length s <? 3)%nat then (1%nat, false)
  else
    match find_close (sdrop 1 s) with
    | Some j =>
        let r := parsenum (stake j (sdrop 1 s)) in
        if negb (fst r) || negb (snd r =? j)%nat
        then (S (S j), false)
        else (S (S j), true)
    | None => (1%nat, false)
    end.

(** The state of [doPrintf] while it reads one verb: the text still to
    read, the bytes read so far, [p.goodArgNum], [afterIndex], and the
    markers already written. *)
Record verb_state := {
  rest : string;
  used : nat;
  goodArgNum : bool;
  afterIndex : bool;
  written : string
}.

Definition advance (n : nat) (st : verb_state) : verb_state :=
  {| rest := sdrop n (rest st); used := (used st + n)%nat;
     goodArgNum := goodArgNum st; afterIndex := afterIndex st;
     written := written st |}.

Definition starts_with (c : ascii) (s : string) : bool :=
  match s with
  | String d _ => Ascii.eqb c d
  | "" => false
  end.

(** [p.argNumber] when there is no operand: a bracketed index is never
    in range, so it always clears [goodArgNum]. *)
Definition argNumber (st : verb_state) : verb_state :=
  if starts_with "[" (rest st) then
    let r := parseArgNumber (rest st) in
    {| rest := sdrop (fst r) (rest st); used := (used st + fst r)%nat;
       goodArgNum := false; afterIndex := snd r;
       written := written st |}
  else
    {| rest := rest st; used := used st; goodArgNum := goodArgNum st;
       afterIndex := false; written := written st |}.

Definition set_after (b : bool) (st : verb_state) : verb_state :=
  {| rest := rest st; used := used st; goodArgNum := goodArgNum st;
     afterIndex := b; written := written st |}.

Definition set_bad (st : verb_state) : verb_state :=
  {| rest := rest st; used := used st; goodArgNum := false;
     afterIndex := afterIndex st; written := written st |}.

Definition write (w : string) (st : verb_state) : verb_state :=
  {| rest := rest st; used := used st; goodArgNum := goodArgNum st;
     afterIndex := afterIndex st; written := written st +:+ w |}.

(** Width: a star asks for an operand that is missing; otherwise digits. *)
Definition width (st : verb_state) : verb_state :=
  if starts_with "*" (rest st) then
    set_after false (write badWidthString (advance 1 st))
  else
    let r := parsenum (rest st) in
    let st' := advance (snd r) st in
    if afterIndex st && fst r then set_bad st' else st'.

Definition precision (st : verb_state) : verb_state :=
  if starts_with "." (rest st) then
    let st1 := advance 1 st in
    let st2 := if afterIndex st1 then set_bad st1 else st1 in
    let st3 := argNumber st2 in
    if starts_with "*" (rest st3) then
      set_after false (write badPrecString (advance 1 st3))
    else advance (snd (parsenum (rest st3))) st3
  else st.

Definition lastIndex (st : verb_state) : verb_state :=
  if afterIndex st then st else argNumber st.

(** The verb itself, and what is printed for it. *)
Definition verb (st : verb_state) : string * nat :=
  match rest st with
  | "" => (written st +:+ noVerbString, used st)
  | String c _ =>
      let size := utf8.rune_size (utf8.DecodeRuneInString (rest st)) in
      let n := (used st + size)%nat in
      if Ascii.eqb c "%" then (written st +:+ "%", n)
      else if negb (goodArgNum st) then
        (written st +:+ percentBangString +:+ utf8.reencode (rest st)
                    +:+ badIndexString, n)
      else
        (written st +:+ percentBangString +:+ utf8.reencode (rest st)
                    +:+ missingString, n)
  end.

(** One verb: [t] is the format after the percent sign. *)
Definition verb0 (t : string) : string * nat :=
  let st0 := {| rest := t; used := O; goodArgNum := true;
                afterIndex := false; written := "" |} in
  let st1 := advance (flags t) st0 in
  verb (lastIndex (precision (width (argNumber st1)))).

(** The format loop.  [skip] counts the bytes of the current verb that
    are still to be stepped over. *)
Fixpoint doPrintf0 (skip : nat) (format : string) : string :=
  match format with
  | "" => ""
  | String c t =>
      match skip with
      | S k => doPrintf0 k t
      | O =>
          if Ascii.eqb c "%"
          then fst (verb0 t) +:+ doPrintf0 (snd (verb0 t)) t
          else String c (doPrintf0 O t)
      end
  end.

(** [fmt.Sprintf(format)] with no operand. *)
Definition Sprintf0 (format : string) : string := doPrintf0 O format.

End fmt.

(** [fmt.Sprintf] with at least one operand is a parameter of the
    development: printing an operand under an arbitrary verb is the whole
    of package [fmt]. *)
Class Printf `{Float64} := {
  Sprintf : string -> list value -> string
}.

(** ** Package [encoding/json] *)

Module json.

Definition tab : ascii := "009"%char.
Definition cr : ascii := "013"%char.
Definition backslash : ascii := "\"%char.

Definition is_space (c : ascii) : bool :=
  Ascii.eqb c " " || Ascii.eqb c tab || Ascii.eqb c cr || Ascii.eqb c newline.

Fixpoint skip_space (s : string) : string :=
  match s with
  | String c s' => if is_space c then skip_space s' else s
  | "" => ""
  end.

(** *** String literals *)

Definition hex_val (c : ascii) : option N :=
  if in_range 48 57 c then Some (code c - 48)%N
  else if in_range 97 102 c then Some (code c - 87)%N
  else if in_range 65 70 c then Some (code c - 55)%N
  else None.

(** [getu4]: the number written by a [\uXXXX] escape at the head. *)
Definition getu4 (s : string) : option N :=
  match s with
  | String b (String u (String h1 (String h2 (String h3 (String h4 _))))) =>
      if Ascii.eqb b backslash && Ascii.eqb u "u" then
        match hex_val h1, hex_val h2, hex_val h3, hex_val h4 with
        | Some a, Some b, Some c, Some d =>
            Some (((a * 16 + b) * 16 + c) * 16 + d)%N
        | _, _, _, _ => None
        end
      else None
  | _ => None
  end.

Definition is_surrogate (r : N) : bool := ((55296 <=? r) && (r <? 57344))%N.

(** [utf16.DecodeRune]: [None] stands for U+FFFD. *)
Definition utf16_DecodeRune (r1 r2 : N) : option N :=
  if ((55296 <=? r1) && (r1 <? 56320) && (56320 <=? r2) && (r2 <? 57344))%N
  then Some ((r1 - 55296) * 1024 + (r2 - 56320) + 65536)%N
  else None.

(** What a [\u] escape at the head of [s] decodes to, and its length in
    bytes (6, or 12 for a surrogate pair). *)
Definition unescape_u (s : string) : option (string * nat) :=
  match getu4 s with
  | None => None
  | Some rr =>
      if is_surrogate rr then
        match getu4 (sdrop 6 s) with
        | Some rr1 =>
            match utf16_DecodeRune rr rr1 with
            | Some dec => Some (utf8.EncodeRune dec, 12%nat)
            | None => Some (utf8.RuneError, 6%nat)
            end
        | None => Some (utf8.RuneError, 6%nat)
        end
      else Some (utf8.EncodeRune rr, 6%nat)
  end.

Definition simple_escape (c : ascii) : option ascii :=
  if Ascii.eqb c dquote then Some dquote
  else if Ascii.eqb c backslash then Some backslash
  else if Ascii.eqb c "/" then Some "/"%char
  else if Ascii.eqb c "b" then Some "008"%char
  else if Ascii.eqb c "f" then Some "012"%char
  else if Ascii.eqb c "n" then Some newline
  else if Ascii.eqb c "r" then Some cr
  else if Ascii.eqb c "t" then Some tab
  else None.

(** A string literal after its opening quote: the string it denotes (as
    [unquote] builds it, coerced to well-formed UTF-8) and the text after
    the closing quote.  [None] when the scanner rejects the literal.
    [skip] counts bytes of the current escape or rune already accounted
    for. *)
Fixpoint string_body (skip : nat) (s : string) : option (string * string) :=
  match s with
  | "" => None
  | String c t =>
      match skip with
      | S k => string_body k t
      | O =>
          if Ascii.eqb c dquote then Some ("", t)
          else if (code c <? 32)%N then None
          else if Ascii.eqb c backslash then
            match t with
            | String e _ =>
                match simple_escape e with
                | Some d =>
                    r ← string_body 1 t;
                    Some (String d (fst r), snd r)
                | None =>
                    match unescape_u s with
                    | Some (out, n) =>
                        r ← string_body (n - 1) t;
                        Some (out +:+ fst r, snd r)
                    | None => None
                    end
                end
            | "" => None
            end
          else if (code c <? 128)%N then
            r ← string_body 0 t;
            Some (String c (fst r), snd r)
          else
            r ← string_body (utf8.rune_size (utf8.DecodeRuneInString s) - 1) t;
            Some (utf8.reencode s +:+ fst r, snd r)
      end
  end.

(** *** Numbers *)

Fixpoint digits (s : string) : nat :=
  match s with
  | String c s' => if is_digit c then S (digits s') else O
  | "" => O
  end.

(** Length of the number literal at the head of [s], if there is one. *)
Definition number_len (s : string) : option nat :=
  let sign := if fmt.starts_with "-" s then 1%nat else O in
  let s1 := sdrop sign s in
  let int_len :=
    match s1 with
    | String c s' =>
        if Ascii.eqb c "0" then Some 1%nat
        else if is_digit c then Some (S (digits s'))
        else None
    | "" => None
    end in
  n_int ← int_len;
  let s2 := sdrop n_int s1 in
  n_frac ←
    (if fmt.starts_with "." s2 then
       let d := digits (sdrop 1 s2) in
       if (d =? 0)%nat then None else Some (S d)
     else Some O);
  let s3 := sdrop n_frac s2 in
  n_exp ←
    (match s3 with
     | String c s' =>
         if Ascii.eqb c "e" || Ascii.eqb c "E" then
           let sg := if fmt.starts_with "+" s' || fmt.starts_with "-" s'
                     then 1%nat else O in
           let d := digits (sdrop sg s') in
           if (d =? 0)%nat then None else Some (S (sg + d))
         else Some O
     | "" => Some O
     end);
  Some (sign + n_int + n_frac + n_exp)%nat.

(** The scanner gives up beyond this nesting depth. *)
Definition maxNestingDepth : nat := Z.to_nat 10000.

Section Decode.
Context `{Float64}.

(** [convertNumber]: a literal out of the range of [float64] is
    recorded as an error and decodes to nil. *)
Definition convertNumber (lit : string) : value :=
  match ParseFloat lit with
  | Some x => VFloat x
  | None => VNil
  end.

(** The value at the head of [s], decoded into an [interface{}], and
    the text after it.  [depth] is the nesting still allowed. *)
Fixpoint value_p (fuel depth : nat) (s : string) {struct fuel}
  : option (value * string) :=
  match fuel with
  | O => None
  | S f =>
      match s with
      | "" => None
      | String c t =>
          if Ascii.eqb c "{" then
            match depth with
            | O => None
            | S d =>
                let t' := skip_space t in
                if fmt.starts_with "}" t' then Some (VMap [], sdrop 1 t')
                else
                  r ← members_p f d [] t';
                  Some (VMap (fst r), snd r)
            end
          else if Ascii.eqb c "[" then
            match depth with
            | O => None
            | S d =>
                let t' := skip_space t in
                if fmt.starts_with "]" t' then Some (VSlice [], sdrop 1 t')
                else
                  r ← elems_p f d [] t';
                  Some (VSlice (fst r), snd r)
            end
          else if Ascii.eqb c dquote then
            r ← string_body 0 t;
            Some (VString (fst r), snd r)
          else if strings.HasPrefix s "true" then Some (VBool true, sdrop 4 s)
          else if strings.HasPrefix s "false" then Some (VBool false, sdrop 5 s)
          else if strings.HasPrefix s "null" then Some (VNil, sdrop 4 s)
          else
            n ← number_len s;
            Some (convertNumber (stake n s), sdrop n s)
      end
  end

(** The elements of an array, [s] standing at the head of an element. *)
with elems_p (fuel depth : nat) (acc : list value) (s : string)
       {struct fuel} : option (list value * string) :=
  match fuel with
  | O => None
  | S f =>
      r ← value_p f depth s;
      match skip_space (snd r) with
      | String c t =>
          if Ascii.eqb c "," then
            elems_p f depth (acc ++ [fst r])%list (skip_space t)
          else if Ascii.eqb c "]" then Some ((acc ++ [fst r])%list, t)
          else None
      | "" => None
      end
  end

(** The members of an object, [s] standing at the head of a key. *)
with members_p (fuel depth : nat) (acc : list (string * value)) (s : string)
       {struct fuel} : option (list (string * value) * string) :=
  match fuel with
  | O => None
  | S f =>
      match s with
      | String q t =>
          if Ascii.eqb q dquote then
            k ← string_body 0 t;
            match skip_space (snd k) with
            | String c t1 =>
                if Ascii.eqb c ":" then
                  r ← value_p f depth (skip_space t1);
                  let acc' := map_set (fst k) (fst r) acc in
                  match skip_space (snd r) with
                  | String c' t2 =>
                      if Ascii.eqb c' "," then
                        members_p f depth acc' (skip_space t2)
                      else if Ascii.eqb c' "}" then Some (acc', t2)
                      else None
                  | "" => None
                  end
                else None
            | "" => None
            end
          else None
      | "" => None
      end
  end.

(** A whole document: one value between optional white space. *)
Definition parse (s : string) : option value :=
  r ← value_p (2 * String.length s + 2) maxNestingDepth (skip_space s);
  match skip_space (snd r) with
  | "" => Some (fst r)
  | _ => None
  end.

(** [json.Valid(data)]. *)
Definition Valid (data : string) : bool :=
  match parse data with Some _ => true | None => false end.

(** [json.Unmarshal(data, &obj)] with [obj] a fresh [interface{}]: the
    value left in [obj]; it stays nil when the text is rejected. *)
Definition Unmarshal (data : string) : value :=
  match parse data with Some v => v | None => VNil end.

End Decode.

(** *** Encoding *)

Definition hex (n : N) : ascii :=
  match String.get (N.to_nat n) "0123456789abcdef" with
  | Some c => c
  | None => "0"%char
  end.

(** Bytes below 0x80 that [encodeState.string] copies as they are when
    HTML escaping is on, as it is in [Marshal]. *)
Definition htmlSafe (c : ascii) : bool :=
  in_range 32 127 c &&
  negb (Ascii.eqb c dquote || Ascii.eqb c backslash ||
        Ascii.eqb c "<" || Ascii.eqb c ">" || Ascii.eqb c "&").

(** The three-byte encodings of U+2028 and U+2029. *)
Definition line_sep (s : string) : option ascii :=
  match s with
  | String a (String b (String c _)) =>
      if Ascii.eqb a (byte 226) && Ascii.eqb b (byte 128) then
        if Ascii.eqb c (byte 168) then Some "8"%char
        else if Ascii.eqb c (byte 169) then Some "9"%char
        else None
      else None
  | _ => None
  end.

Fixpoint quote_loop (skip : nat) (s : string) : string :=
  match s with
  | "" => ""
  | String c t =>
      match skip with
      | S k => quote_loop k t
      | O =>
          if (code c <? 128)%N then
            if htmlSafe c then String c (quote_loop 0 t)
            else if Ascii.eqb c backslash || Ascii.eqb c dquote
            then String backslash (String c (quote_loop 0 t))
            else if Ascii.eqb c newline then "\n" +:+ quote_loop 0 t
            else if Ascii.eqb c cr then "\r" +:+ quote_loop 0 t
            else if Ascii.eqb c tab then "\t" +:+ quote_loop 0 t
            else "\u00" +:+ String (hex (code c / 16))
                              (String (hex (code c mod 16)) (quote_loop 0 t))
          else
            let d := utf8.DecodeRuneInString s in
            if negb (utf8.rune_ok d) then "\ufffd" +:+ quote_loop 0 t
            else
              match line_sep s with
              | Some h => "\u202" +:+ String h (quote_loop 2 t)
              | None =>
                  stake (utf8.rune_size d) s
                    +:+ quote_loop (utf8.rune_size d - 1) t
              end
      end
  end.

(** The JSON string literal for a Go string. *)
Definition quote (s : string) : string := Q +:+ quote_loop 0 s +:+ Q.

Section Encode.
Context `{Float64}.

(** [json.Marshal(v)] for an [interface{}]; [None] is an error. *)
Fixpoint Marshal (v : value) : option string :=
  match v with
  | VNil => Some "null"
  | VBool b => Some (if b then "true" else "false")
  | VInt n => Some (fmt.itoa n)
  | VFloat x => jsonFloat x
  | VString s => Some (quote s)
  | VSlice l =>
      let fix items (l : list value) : option (list string) :=
        match l with
        | [] => Some []
        | x :: l' => a ← Marshal x; r ← items l'; Some (a :: r)
        end in
      r ← items l;
      Some ("[" +:+ sjoin "," r +:+ "]")
  | VMap m =>
      let fix members (m : list (string * value)) : option (list string) :=
        match m with
        | [] => Some []
        | kv :: m' =>
            a ← Marshal (snd kv); r ← members m';
            Some ((quote (fst kv) +:+ ":" +:+ a) :: r)
        end in
      r ← members m;
      Some ("{" +:+ sjoin "," r +:+ "}")
  | VOther o => other_json o
  end.
End Encode.

(** *** Indentation

    [json.Indent] on a compact document: a line break and one more level
    after an opening bracket, a line break after a comma, a space after a
    colon, a line break and one level less before a closing bracket;
    empty objects and arrays stay closed; the text of string literals is
    copied. *)

Definition appendNewline (indent : string) (depth : nat) : string :=
  String newline (sconcat (List.repeat indent depth)).

Fixpoint indent_loop (indent : string) (instr esc needIndent : bool)
  (depth : nat) (s : string) : string :=
  match s with
  | "" => ""
  | String c t =>
      if instr then
        String c
          (if esc then indent_loop indent true false needIndent depth t
           else if Ascii.eqb c backslash
           then indent_loop indent true true needIndent depth t
           else if Ascii.eqb c dquote
           then indent_loop indent false false needIndent depth t
           else indent_loop indent true false needIndent depth t)
      else if is_space c then
        indent_loop indent false false needIndent depth t
      else
        let closing := Ascii.eqb c "}" || Ascii.eqb c "]" in
        let opened := needIndent && negb closing in
        let depth1 := if opened then S depth else depth in
        let need1 := needIndent && closing in
        (if opened then appendNewline indent depth1 else "") +:+
        (if Ascii.eqb c "{" || Ascii.eqb c "[" then
           String c (indent_loop indent false false true depth1 t)
         else if Ascii.eqb c "," then
           String c (appendNewline indent depth1
                       +:+ indent_loop indent false false need1 depth1 t)
         else if Ascii.eqb c ":" then
           String c (String " " (indent_loop indent false false need1 depth1 t))
         else if closing then
           if need1
           then String c (indent_loop indent false false false depth1 t)
           else appendNewline indent (depth1 - 1)
                  +:+ String c (indent_loop indent false false false (depth1 - 1) t)
         else
           String c (indent_loop indent (Ascii.eqb c dquote) false need1 depth1 t))
  end.

(** [json.Indent] with an empty prefix. *)
Definition Indent (indent : string) (src : string) : string :=
  indent_loop indent false false false 0 src.

End json.

(** ** Package [regexp]

    [obscureParam] compiles two patterns of one shape: literal text, a lazy
    [.*?], a quote, a lazy [(.*?)] and a closing literal.  This fragment of
    the syntax is modelled: a pattern is a sequence of literals and lazy
    stars, matched with the leftmost-first (backtracking) preference of the
    package.  The capture group changes nothing, since the replacement
    text does not refer to it. *)

Module regexp.

Inductive item :=
| Lit (s : string)      (* literal text *)
| LazyAny.              (* [.*?]: as few bytes as possible, none a line feed *)

Definition Regexp := list item.

(** The length of the match of [re] that starts at the head of the text,
    the first one in backtracking order. *)
Fixpoint match_here (re : Regexp) : string -> option nat :=
  match re with
  | [] => fun _ => Some O
  | Lit l :: re' => fun s =>
      if strings.HasPrefix s l
      then option_map (Nat.add (String.length l))
             (match_here re' (sdrop (String.length l) s))
      else None
  | LazyAny :: re' =>
      fix lazy (s : string) : option nat :=
        match match_here re' s with
        | Some n => Some n
        | None =>
            match s with
            | String c s' =>
                if Ascii.eqb c newline then None else option_map S (lazy s')
            | "" => None
            end
        end
  end.

(** [re.ReplaceAllString(src, repl)] for a pattern whose matches are not
    empty and a replacement without [$]: every match, found from the
    left and not overlapping the one before, is replaced. *)
Fixpoint replace_loop (re : Regexp) (repl : string) (skip : nat) (src : string)
  : string :=
  match src with
  | "" => ""
  | String c t =>
      match skip with
      | S k => replace_loop re repl k t
      | O =>
          match match_here re src with
          | Some (S n) => repl +:+ replace_loop re repl n t
          | _ => String c (replace_loop re repl O t)
          end
      end
  end.

Definition ReplaceAllString (re : Regexp) (src repl : string) : string :=
  replace_loop re repl O src.

(** Bytes that stand for themselves in a pattern and in a replacement:
    ASCII other than the metacharacters of the syntax. *)
Definition plain_byte (c : ascii) : bool :=
  (code c <? 128)%N && negb (smem c "\.+*?()|[]{}^$").

Fixpoint plain (s : string) : bool :=
  match s with
  | "" => true
  | String c s' => plain_byte c && plain s'
  end.

End regexp.

(** ** Package [time] *)

Module time.

(** A [time.Time]: the wall clock in its location and the monotonic clock
    reading that [time.Now] attaches (in nanoseconds since process
    start). *)
Record Time := {
  year : Z; month : Z; day : Z;
  hour : Z; minute : Z; second : Z;
  nanosecond : Z;
  zoneOffset : Z;            (* seconds east of UTC *)
  zoneName : string;         (* abbreviation, may be empty *)
  monotonic : option Z
}.

(** [appendInt(b, x, width)]: decimal, zero-padded to [width]. *)
Definition appendInt (x : Z) (width : nat) : string :=
  let d := fmt.itoa (Z.abs x) in
  (if x <? 0 then "-" else "")
    +:+ srepeat "0" (width - String.length d) +:+ d.

(** Removes the trailing zeros. *)
Fixpoint trim_zeros (s : string) : string :=
  match s with
  | "" => ""
  | String c t =>
      match trim_zeros t with
      | "" => if Ascii.eqb c "0" then "" else String c ""
      | r => String c r
      end
  end.

(** The [.999999999] element of a layout. *)
Definition appendNano (nanosec : Z) : string :=
  if nanosec =? 0 then "" else "." +:+ trim_zeros (appendInt nanosec 9).

(** The [-0700] element of a layout. *)
Definition appendZone (offset : Z) : string :=
  let zone := Z.quot offset 60 in
  (if zone <? 0 then "-" else "+")
    +:+ appendInt (Z.quot (Z.abs zone) 60) 2
    +:+ appendInt (Z.rem (Z.abs zone) 60) 2.

(** [t.Format("2006-01-02 15:04:05.999999999 -0700 MST")]. *)
Definition Format (t : Time) : string :=
  appendInt (year t) 4 +:+ "-" +:+ appendInt (month t) 2 +:+ "-"
    +:+ appendInt (day t) 2 +:+ " "
    +:+ appendInt (hour t) 2 +:+ ":" +:+ appendInt (minute t) 2 +:+ ":"
    +:+ appendInt (second t) 2 +:+ appendNano (nanosecond t) +:+ " "
    +:+ appendZone (zoneOffset t) +:+ " "
    +:+ (if String.eqb (zoneName t) "" then appendZone (zoneOffset t)
         else zoneName t).

(** The monotonic clock reading, [ m=±ddd.nnnnnnnnn]. *)
Definition appendMonotonic (ext : Z) : string :=
  let m := Z.abs ext in
  let m2 := m mod 1000000000 in
  let m1 := (m / 1000000000) mod 1000000000 in
  let m0 := m / 1000000000 / 1000000000 in
  " m=" +:+ (if ext <? 0 then "-" else "+")
    +:+ (if m0 =? 0 then appendInt m1 0
         else appendInt m0 0 +:+ appendInt m1 9)
    +:+ "." +:+ appendInt m2 9.

(** [t.String()]. *)
Definition String_ (t : Time) : string :=
  Format t +:+
  match monotonic t with
  | Some ext => appendMonotonic ext
  | None => ""
  end.

End time.

(** ** Package [noodlog]: [logger.go] *)

(** The constants that [logger.go] uses and that the package declares in
    its other files: the rank of each level and the escape sequence that
    ends a colour. *)
Class Decls := {
  traceLevel : Z;
  debugLevel : Z;
  infoLevel : Z;
  warnLevel : Z;
  errorLevel : Z;
  panicLevel : Z;
  fatalLevel : Z;
  colorReset : string
}.

(** Modelled from the spec: the level labels are declared outside
    [logger.go]; they are the seven level names of the spec. *)
Definition traceLabel : string := "trace".
Definition debugLabel : string := "debug".
Definition infoLabel : string := "info".
Definition warnLabel : string := "warn".
Definition errorLabel : string := "error".
Definition panicLabel : string := "panic".
Definition fatalLabel : string := "fatal".

Section Logger.
Context `{Float64} `{!Printf} `{Decls}.

(** Modelled from the spec: the [record] struct is declared outside
    [logger.go]; the envelope has the keys [level], [message], [time] and,
    when the caller is traced, [file] and [function]. *)
Record record := {
  Level : string;
  Message : value;
  Time : string;
  File : option string;
  Function : option string
}.

(** [json.Marshal] of a [record]. *)
Definition Marshal_record (r : record) : option string :=
  m ← json.Marshal (Message r);
  Some ("{" +:+ json.quote "level" +:+ ":" +:+ json.quote (Level r)
        +:+ "," +:+ json.quote "message" +:+ ":" +:+ m
        +:+ "," +:+ json.quote "time" +:+ ":" +:+ json.quote (Time r)
        +:+ match File r with
            | Some f => "," +:+ json.quote "file" +:+ ":" +:+ json.quote f
            | None => ""
            end
        +:+ match Function r with
            | Some f => "," +:+ json.quote "function" +:+ ":" +:+ json.quote f
            | None => ""
            end
        +:+ "}").

(** The package variables, the bytes the sink has received (one item for
    each write), and what a call reads from its environment: the clock and
    the caller that [traceCaller] reports. *)
Record state := {
  logLevel : Z;
  logWriter : list string;
  JSONPrettyPrint : bool;
  obscureSensitiveDataEnabled : bool;
  sensitiveParams : list string;
  traceCallerEnabled : bool;
  colorEnabled : bool;
  colorMap : gmap string string;
  now : time.Time;
  traceCaller : string * string
}.

Definition set_logLevel (l : Z) (st : state) : state :=
  {| logLevel := l; logWriter := logWriter st;
     JSONPrettyPrint := JSONPrettyPrint st;
     obscureSensitiveDataEnabled := obscureSensitiveDataEnabled st;
     sensitiveParams := sensitiveParams st;
     traceCallerEnabled := traceCallerEnabled st;
     colorEnabled := colorEnabled st; colorMap := colorMap st;
     now := now st; traceCaller := traceCaller st |}.

Definition set_logWriter (w : list string) (st : state) : state :=
  {| logLevel := logLevel st; logWriter := w;
     JSONPrettyPrint := JSONPrettyPrint st;
     obscureSensitiveDataEnabled := obscureSensitiveDataEnabled st;
     sensitiveParams := sensitiveParams st;
     traceCallerEnabled := traceCallerEnabled st;
     colorEnabled := colorEnabled st; colorMap := colorMap st;
     now := now st; traceCaller := traceCaller st |}.

Definition set_JSONPrettyPrint (b : bool) (st : state) : state :=
  {| logLevel := logLevel st; logWriter := logWriter st;
     JSONPrettyPrint := b;
     obscureSensitiveDataEnabled := obscureSensitiveDataEnabled st;
     sensitiveParams := sensitiveParams st;
     traceCallerEnabled := traceCallerEnabled st;
     colorEnabled := colorEnabled st; colorMap := colorMap st;
     now := now st; traceCaller := traceCaller st |}.

Definition set_obscure (b : bool) (st : state) : state :=
  {| logLevel := logLevel st; logWriter := logWriter st;
     JSONPrettyPrint := JSONPrettyPrint st;
     obscureSensitiveDataEnabled := b;
     sensitiveParams := sensitiveParams st;
     traceCallerEnabled := traceCallerEnabled st;
     colorEnabled := colorEnabled st; colorMap := colorMap st;
     now := now st; traceCaller := traceCaller st |}.

Definition set_sensitiveParams (ps : list string) (st : state) : state :=
  {| logLevel := logLevel st; logWriter := logWriter st;
     JSONPrettyPrint := JSONPrettyPrint st;
     obscureSensitiveDataEnabled := obscureSensitiveDataEnabled st;
     sensitiveParams := ps;
     traceCallerEnabled := traceCallerEnabled st;
     colorEnabled := colorEnabled st; colorMap := colorMap st;
     now := now st; traceCaller := traceCaller st |}.

Definition logLevels : gmap string Z :=
  <[traceLabel := traceLevel]>
    (<[debugLabel := debugLevel]>
       (<[infoLabel := infoLevel]>
          (<[warnLabel := warnLevel]>
             (<[errorLabel := errorLevel]>
                (<[panicLabel := panicLevel]>
                   (<[fatalLabel := fatalLevel]> ∅)))))).

(** [m[k]] on a Go map: the zero value when the key is absent. *)
Definition index_int (m : gmap string Z) (k : string) : Z := default 0 (m !! k).
Definition index_string (m : gmap string string) (k : string) : string :=
  default "" (m !! k).

(** [LogLevel]. *)
Definition LogLevel (level : string) (st : state) : state :=
  let l := index_int logLevels level in
  set_logLevel (if l =? 0 then infoLevel else l) st.

(** [LogWriter]; the new writer comes with what it already holds. *)
Definition LogWriter (w : list string) (st : state) : state :=
  set_logWriter w st.

Definition EnableJSONPrettyPrint (st : state) : state :=
  set_JSONPrettyPrint true st.

Definition DisableJSONPrettyPrint (st : state) : state :=
  set_JSONPrettyPrint false st.

Definition SetSensitiveParams (params : list string) (st : state) : state :=
  set_sensitiveParams params st.

Definition EnableObscureSensitiveData (params : list string) (st : state)
  : state :=
  SetSensitiveParams params (set_obscure true st).

Definition DisableObscureSensitiveData (st : state) : state :=
  set_obscure false st.

(** [obscureParam].  The field name is taken as literal text, which is
    what the two patterns make of a name free of metacharacters
    ([regexp.plain]). *)
Definition obscureParam (jsn : string) (param : string) : string :=
  let rWithSlash :=
    [regexp.Lit ("\" +:+ Q +:+ param +:+ "\" +:+ Q +:+ ":"); regexp.LazyAny;
     regexp.Lit Q; regexp.LazyAny; regexp.Lit ("\" +:+ Q)] in
  let jsn :=
    regexp.ReplaceAllString rWithSlash jsn
      ("\" +:+ Q +:+ param +:+ "\" +:+ Q +:+ ": \" +:+ Q +:+ "**********\" +:+ Q) in
  let rWithoutSlash :=
    [regexp.Lit (Q +:+ param +:+ Q +:+ ":"); regexp.LazyAny;
     regexp.Lit Q; regexp.LazyAny; regexp.Lit Q] in
  regexp.ReplaceAllString rWithoutSlash jsn
    (Q +:+ param +:+ Q +:+ ": " +:+ Q +:+ "**********" +:+ Q).

(** [obscureSensitiveData]. *)
Definition obscureSensitiveData (st : state) (jsn : string) : string :=
  fold_left obscureParam (sensitiveParams st) jsn.

(** [strToObj]. *)
Definition strToObj (strMsg : string) : value :=
  if json.Valid strMsg then json.Unmarshal strMsg else VString strMsg.

(** [adaptMessage].  An error of [json.Marshal] is dropped and leaves the
    empty text. *)
Definition adaptMessage (st : state) (message : value) : value :=
  match message with
  | VString strMsg =>
      if obscureSensitiveDataEnabled st
         && negb (length (sensitiveParams st) =? 0)%nat
      then strToObj (obscureSensitiveData st strMsg)
      else strToObj strMsg
  | _ =>
      if obscureSensitiveDataEnabled st
         && negb (length (sensitiveParams st) =? 0)%nat
      then
        let jsn := default "" (json.Marshal message) in
        let strMsg := obscureSensitiveData st jsn in
        strToObj strMsg
      else message
  end.

(** [stringify].  The slice [msg[:len(msg)-1]] of an empty [msg] is out of
    range and panics. *)
Definition stringify (message : list value) : result string :=
  let b :=
    fold_left
      (fun b m => if is_nil m then b else b +:+ fmt.fmtV m +:+ " ")
      message "" in
  let msg := b in
  if (String.length msg =? 0)%nat
  then Raise (RuntimeError "slice bounds out of range [:-1]")
  else Ok (drop_last msg).

(** [composeMessage]. *)
Definition composeMessage (st : state) (message : list value) : result value :=
  match message with
  | [] => Ok (VString "")
  | [m] => Ok (adaptMessage st m)
  | m0 :: rest =>
      match m0 with
      | VString msg0 =>
          if strings.Contains msg0 "%"
          then Ok (VString (Sprintf msg0 rest))
          else msg <- stringify message ;; Ok (VString msg)
      | _ => msg <- stringify message ;; Ok (VString msg)
      end
  end.

(** [composeLog].  An error of [json.Marshal] is dropped and leaves the
    empty text; [fmt.Sprintf("%s%s%s", ...)] of three strings is their
    concatenation. *)
Definition composeLog (st : state) (level : string) (message : list value)
  : result string :=
  m <- composeMessage st message ;;
  let logMsg :=
    {| Level := level;
       Message := m;
       Time := hd "" (strings.Split (time.String_ (now st)) "m");
       File := if traceCallerEnabled st then Some (fst (traceCaller st)) else None;
       Function :=
         if traceCallerEnabled st then Some (snd (traceCaller st)) else None |} in
  let jsn :=
    if JSONPrettyPrint st
    then default "" (json.Indent "   " <$> Marshal_record logMsg)
    else default "" (Marshal_record logMsg) in
  let logRecord := jsn in
  let logRecord :=
    if colorEnabled st
    then index_string (colorMap st) level +:+ logRecord +:+ colorReset
    else logRecord in
  Ok logRecord.

(** [fmt.Fprintf(logWriter, format)]: one write of the formatted text. *)
Definition Fprintf (st : state) (format : string) : state :=
  set_logWriter (logWriter st ++ [fmt.Sprintf0 format])%list st.

(** [printLog]. *)
Definition printLog (label : string) (message : list value) (st : state)
  : result state :=
  if index_int logLevels label >=? logLevel st
  then r <- composeLog st label message ;; Ok (Fprintf st r)
  else Ok st.

(** How a call of an entry point ends. *)
Inductive outcome :=
| Returned (st : state)
| Panicked (p : panic_value) (st : state)
| Exited (code : Z) (st : state).

Definition run (st : state) (r : result state) : outcome :=
  match r with
  | Ok st' => Returned st'
  | Raise p => Panicked p st
  end.

Definition Trace (message : list value) (st : state) : outcome :=
  run st (printLog traceLabel message st).

Definition Debug (message : list value) (st : state) : outcome :=
  run st (printLog debugLabel message st).

Definition Info (message : list value) (st : state) : outcome :=
  run st (printLog infoLabel message st).

Definition Warn (message : list value) (st : state) : outcome :=
  run st (printLog warnLabel message st).

Definition Error (message : list value) (st : state) : outcome :=
  run st (printLog errorLabel message st).

(** [Panic]: [panic(composeLog(panicLabel, message))]. *)
Definition Panic (message : list value) (st : state) : outcome :=
  match composeLog st panicLabel message with
  | Ok r => Panicked (PanicString r) st
  | Raise p => Panicked p st
  end.

(** [Fatal]: [printLog] and then [os.Exit(1)]. *)
Definition Fatal (message : list value) (st : state) : outcome :=
  match printLog fatalLabel message st with
  | Ok st' => Exited 1 st'
  | Raise p => Panicked p st
  end.

End Logger.

(** ** [SetConfigs]

    The configuration object and three of the setters that [SetConfigs]
    calls are declared in the package's other files. *)

(** The setters of the other files: each acts on the package variables. *)
Class Settings := {
  CustomColors : Type;
  EnableSinglePointTracing : state -> state;
  DisableSinglePointTracing : state -> state;
  setCustomColors : CustomColors -> state -> state
}.

(** Modelled from the spec: the configuration object, every field of which
    is optional.  [SetConfigs] tests each field against nil and reads it
    through a pointer; [SensitiveParams] is a slice, handed to
    [SetSensitiveParams] as it is.  [None] is nil. *)
Module Configs.

Record t `{Settings} := {
  LogLevel : option string;
  JSONPrettyPrint : option bool;
  TraceCaller : option bool;
  SinglePointTracing : option bool;
  Colors : option bool;
  CustomColors : option CustomColors;
  ObscureSensitiveData : option bool;
  SensitiveParams : option (list string)
}.

End Configs.

Section Configuration.
Context `{Float64} `{!Printf} `{Decls} `{Settings}.

Definition set_traceCallerEnabled (b : bool) (st : state) : state :=
  {| logLevel := logLevel st; logWriter := logWriter st;
     JSONPrettyPrint := JSONPrettyPrint st;
     obscureSensitiveDataEnabled := obscureSensitiveDataEnabled st;
     sensitiveParams := sensitiveParams st;
     traceCallerEnabled := b;
     colorEnabled := colorEnabled st; colorMap := colorMap st;
     now := now st; traceCaller := traceCaller st |}.

Definition set_colorEnabled (b : bool) (st : state) : state :=
  {| logLevel := logLevel st; logWriter := logWriter st;
     JSONPrettyPrint := JSONPrettyPrint st;
     obscureSensitiveDataEnabled := obscureSensitiveDataEnabled st;
     sensitiveParams := sensitiveParams st;
     traceCallerEnabled := traceCallerEnabled st;
     colorEnabled := b; colorMap := colorMap st;
     now := now st; traceCaller := traceCaller st |}.

(** [SetConfigs]. *)
Definition SetConfigs (configs : Configs.t) (st : state) : state :=
  let st :=
    match Configs.LogLevel configs with
    | Some level => LogLevel level st
    | None => st
    end in
  let st :=
    match Configs.JSONPrettyPrint configs with
    | Some b => set_JSONPrettyPrint b st
    | None => st
    end in
  let st :=
    match Configs.TraceCaller configs with
    | Some b => set_traceCallerEnabled b st
    | None => st
    end in
  let st :=
    match Configs.SinglePointTracing configs with
    | Some true => EnableSinglePointTracing st
    | Some false => DisableSinglePointTracing st
    | None => st
    end in
  let st :=
    match Configs.Colors configs with
    | Some b => set_colorEnabled b st
    | None => st
    end in
  let st :=
    match Configs.CustomColors configs with
    | Some c => setCustomColors c st
    | None => st
    end in
  let st :=
    match Configs.ObscureSensitiveData configs with
    | Some b => set_obscure b st
    | None => st
    end in
  match Configs.SensitiveParams configs with
  | Some params => SetSensitiveParams params st
  | None => st
  end.

End Configuration.

(** ** Vocabulary of the statements *)

Section Vocabulary.
Context `{Float64} `{!Printf} `{Decls}.

(** The level names and their ranks, as [logLevels] lists them. *)
Definition level_table : list (string * Z) :=
  [(traceLabel, traceLevel); (debugLabel, debugLevel); (infoLabel, infoLevel);
   (warnLabel, warnLevel); (errorLabel, errorLevel); (panicLabel, panicLevel);
   (fatalLabel, fatalLevel)].

(** No rank is the zero value that [LogLevel] reads as an unknown name. *)
Definition ranks_nonzero : Prop :=
  Forall (fun lr : string * Z => snd lr <> 0) level_table.

(** Modelled from the spec: the ranks increase strictly in the order of
    the level names. *)
Definition ranks_increasing : Prop :=
  0 < traceLevel /\ traceLevel < debugLevel /\ debugLevel < infoLevel
  /\ infoLevel < warnLevel /\ warnLevel < errorLevel
  /\ errorLevel < panicLevel /\ panicLevel < fatalLevel.

(** The entry points that go through [printLog]. *)
Inductive entry := ETrace | EDebug | EInfo | EWarn | EError | EFatal.

Definition label_of (e : entry) : string :=
  match e with
  | ETrace => traceLabel
  | EDebug => debugLabel
  | EInfo => infoLabel
  | EWarn => warnLabel
  | EError => errorLabel
  | EFatal => fatalLabel
  end.

Definition call (e : entry) : list value -> state -> outcome :=
  match e with
  | ETrace => Trace
  | EDebug => Debug
  | EInfo => Info
  | EWarn => Warn
  | EError => Error
  | EFatal => Fatal
  end.

Definition rank (e : entry) : Z := index_int logLevels (label_of e).

Definition final (o : outcome) : state :=
  match o with
  | Returned st => st
  | Panicked _ st => st
  | Exited _ st => st
  end.

(** What a call added to the sink. *)
Definition writes (e : entry) (message : list value) (st : state)
  (text : string) : Prop :=
  logWriter (final (call e message st)) = (logWriter st ++ [text])%list.

Definition silent (e : entry) (message : list value) (st : state) : Prop :=
  logWriter (final (call e message st)) = logWriter st.

(** Whether redaction runs on a single argument. *)
Definition redacting (st : state) : bool :=
  obscureSensitiveDataEnabled st && negb (length (sensitiveParams st) =? 0)%nat.

(** The text that [strToObj] receives for a single string argument. *)
Definition redacted (st : state) (s : string) : string :=
  if redacting st then obscureSensitiveData st s else s.

(** The field names for which [obscureParam] is modelled. *)
Definition plain_params (st : state) : bool :=
  forallb regexp.plain (sensitiveParams st).

(** The envelope of a call, given its message. *)
Definition envelope (st : state) (level : string) (m : value) : record :=
  {| Level := level;
     Message := m;
     Time := hd "" (strings.Split (time.String_ (now st)) "m");
     File := if traceCallerEnabled st then Some (fst (traceCaller st)) else None;
     Function :=
       if traceCallerEnabled st then Some (snd (traceCaller st)) else None |}.

(** The record text for an envelope: serialized, indented and coloured as
    the state asks. *)
Definition render (st : state) (r : record) : string :=
  let jsn :=
    if JSONPrettyPrint st
    then default "" (json.Indent "   " <$> Marshal_record r)
    else default "" (Marshal_record r) in
  if colorEnabled st
  then index_string (colorMap st) (Level r) +:+ jsn +:+ colorReset
  else jsn.

(** The compact text of an envelope around the text [m] of its message. *)
Definition compact (level m tm : string) : string :=
  "{" +:+ json.quote "level" +:+ ":" +:+ json.quote level
      +:+ "," +:+ json.quote "message" +:+ ":" +:+ m
      +:+ "," +:+ json.quote "time" +:+ ":" +:+ json.quote tm +:+ "}".

(** The text of a key in a JSON document, and what [obscureParam] puts in
    the place of a key and its value. *)
Definition key_text (f : string) : string := Q +:+ f +:+ Q +:+ ":".

Definition mask : string := "**********".

Definition masked (f : string) : string :=
  Q +:+ f +:+ Q +:+ ": " +:+ Q +:+ mask +:+ Q.

(** A text in which a key is followed by a gap and a quoted value. *)
Definition around (f pre gap v post : string) : string :=
  pre +:+ key_text f +:+ gap +:+ Q +:+ v +:+ Q +:+ post.

(** Flat objects: a JSON object written without white space whose keys
    are names and whose values are strings of printable ASCII without a
    quote or a backslash. *)
Definition name_byte (c : ascii) : bool :=
  in_range 48 57 c || in_range 65 90 c || in_range 97 122 c
  || Ascii.eqb c "_" || Ascii.eqb c "-".

Definition value_byte (c : ascii) : bool :=
  in_range 32 126 c && negb (Ascii.eqb c dquote)
  && negb (Ascii.eqb c json.backslash).

Fixpoint all_bytes (p : ascii -> bool) (s : string) : bool :=
  match s with
  | "" => true
  | String c s' => p c && all_bytes p s'
  end.

Definition flat (kvs : list (string * string)) : bool :=
  forallb (fun kv => all_bytes name_byte (fst kv) && all_bytes value_byte (snd kv))
    kvs.

Definition flat_member (kv : string * string) : string :=
  Q +:+ fst kv +:+ Q +:+ ":" +:+ Q +:+ snd kv +:+ Q.

Definition flat_object (kvs : list (string * string)) : string :=
  "{" +:+ sjoin "," (map flat_member kvs) +:+ "}".

(** The object that a list of fields denotes: later fields win. *)
Definition object_of (kvs : list (string * string)) : value :=
  VMap (fold_left (fun m kv => map_set (fst kv) (VString (snd kv)) m) kvs []).

(** The same fields as a Go map of strings. *)
Definition fields (kvs : list (string * string)) : list (string * value) :=
  map (fun kv => (fst kv, VString (snd kv))) kvs.

(** The values that [json.Marshal] writes as they are. *)
Definition marshal_safe (kvs : list (string * string)) : bool :=
  forallb (fun kv => all_bytes json.htmlSafe (snd kv)) kvs.


(** The wall clock of a time stamp down to the second, and its zone. *)
Definition seconds_text (t : time.Time) : string :=
  time.appendInt (time.year t) 4 +:+ "-" +:+ time.appendInt (time.month t) 2
    +:+ "-" +:+ time.appendInt (time.day t) 2 +:+ " "
    +:+ time.appendInt (time.hour t) 2 +:+ ":"
    +:+ time.appendInt (time.minute t) 2 +:+ ":"
    +:+ time.appendInt (time.second t) 2.

Definition zone_text (t : time.Time) : string :=
  time.appendZone (time.zoneOffset t) +:+ " "
    +:+ (if String.eqb (time.zoneName t) "" then time.appendZone (time.zoneOffset t)
         else time.zoneName t).

(** The arguments of a call that are not nil. *)
Definition non_nil (message : list value) : list value :=
  List.filter (fun m => negb (is_nil m)) message.

End Vocabulary.

(** ** Object texts

    An object whose values are strings, as a text may write it: white
    space before a member, spaces between the colon and the value, white
    space before the closing brace. *)

Record member := {
  m_lead : string;      (* white space before the key *)
  m_key : string;
  m_gap : nat;          (* spaces between the colon and the value *)
  m_val : string
}.

Section Documents.
Context `{Float64} `{!Printf} `{Decls}.

Definition member_text (m : member) : string :=
  m_lead m +:+ Q +:+ m_key m +:+ Q +:+ ":" +:+ srepeat " " (m_gap m)
    +:+ Q +:+ m_val m +:+ Q.

Definition object_text (ms : list member) (trail : string) : string :=
  "{" +:+ sjoin "," (map member_text ms) +:+ trail +:+ "}".

(** Keys that are names, values of printable ASCII without a quote or a
    backslash. *)
Definition plain_member (m : member) : bool :=
  all_bytes json.is_space (m_lead m) && all_bytes name_byte (m_key m)
  && all_bytes value_byte (m_val m).

Definition member_field (m : member) : string * string := (m_key m, m_val m).

(** A member written without white space. *)
Definition tight (kv : string * string) : member :=
  {| m_lead := ""; m_key := fst kv; m_gap := 0; m_val := snd kv |}.

(** A member as [json.Indent] writes it at the first level. *)
Definition indented (indent : string) (kv : string * string) : member :=
  {| m_lead := String newline indent; m_key := fst kv; m_gap := 1;
     m_val := snd kv |}.

(** Whether a key is one of the sensitive field names, and a member with
    its value masked when it is. *)
Definition sensitive (ps : list string) (k : string) : bool :=
  existsb (String.eqb k) ps.

Definition mask_member (ps : list string) (m : member) : member :=
  if sensitive ps (m_key m)
  then {| m_lead := m_lead m; m_key := m_key m; m_gap := 1; m_val := mask |}
  else m.

Definition names (ps : list string) : bool := forallb (all_bytes name_byte) ps.

(** Bytes that a JSON string literal, [json.Marshal] and [Fprintf] all
    copy as they are, and bytes that the first two do. *)
Definition safe_byte (c : ascii) : bool := value_byte c && json.htmlSafe c.

Definition text_byte (c : ascii) : bool :=
  safe_byte c && negb (Ascii.eqb c "%").

Definition letter (c : ascii) : bool := in_range 65 90 c || in_range 97 122 c.

(** A member that can sit in a JSON string: spaces and safe bytes. *)
Definition embeddable (m : member) : bool :=
  all_bytes (Ascii.eqb " ") (m_lead m) && all_bytes name_byte (m_key m)
  && all_bytes safe_byte (m_val m).

(** The fields of the record of a call whose message is the string [s]. *)
Definition record_fields (st : state) (level s : string)
  : list (string * string) :=
  [("level", level); ("message", s);
   ("time", Time (envelope st level (VString s)))]
  ++ (if traceCallerEnabled st
      then [("file", fst (traceCaller st)); ("function", snd (traceCaller st))]
      else []).

(** The other fields of such a record hold text bytes. *)
Definition plain_envelope (st : state) (level : string) : bool :=
  all_bytes text_byte level
  && all_bytes text_byte (time.zoneName (now st))
  && (negb (traceCallerEnabled st)
      || all_bytes text_byte (fst (traceCaller st))
         && all_bytes text_byte (snd (traceCaller st))).

(** Two or more arguments, all nil. *)
Definition nils (message : list value) : bool :=
  (2 <=? length message)%nat && forallb is_nil message.

End Documents.

(** ** Maps of strings *)

Section More_vocabulary.
Context `{Float64} `{!Printf} `{Decls}.

(** A field with its value masked when its name is sensitive. *)
Definition mask_fields (ps : list string) (kv : string * string)
  : string * string :=
  (fst kv, if sensitive ps (fst kv) then mask else snd kv).

(** The keys of a Go map as [fmt] and [encoding/json] visit them: in
    ascending order, each once. *)
Fixpoint ascending (kvs : list (string * string)) : bool :=
  match kvs with
  | [] => true
  | kv :: rest =>
      forallb (fun kv' => match String.compare (fst kv) (fst kv') with
                          | Lt => true
                          | _ => false
                          end) rest
      && ascending rest
  end.

End More_vocabulary.

(** ** Configurations

    The vocabulary of the statements about [SetConfigs]. *)

Section Configurations.
Context `{Float64} `{!Printf} `{Decls} `{Settings}.

(** The configuration that sets nothing, and two configurations given one
    after the other: the later one wins where it sets a field. *)
Definition no_configs : Configs.t :=
  {| Configs.LogLevel := None; Configs.JSONPrettyPrint := None;
     Configs.TraceCaller := None; Configs.SinglePointTracing := None;
     Configs.Colors := None; Configs.CustomColors := None;
     Configs.ObscureSensitiveData := None; Configs.SensitiveParams := None |}.

Definition later {A} (a b : option A) : option A :=
  match b with Some _ => b | None => a end.

Definition then_configs (c1 c2 : Configs.t) : Configs.t :=
  {| Configs.LogLevel := later (Configs.LogLevel c1) (Configs.LogLevel c2);
     Configs.JSONPrettyPrint :=
       later (Configs.JSONPrettyPrint c1) (Configs.JSONPrettyPrint c2);
     Configs.TraceCaller := later (Configs.TraceCaller c1) (Configs.TraceCaller c2);
     Configs.SinglePointTracing :=
       later (Configs.SinglePointTracing c1) (Configs.SinglePointTracing c2);
     Configs.Colors := later (Configs.Colors c1) (Configs.Colors c2);
     Configs.CustomColors :=
       later (Configs.CustomColors c1) (Configs.CustomColors c2);
     Configs.ObscureSensitiveData :=
       later (Configs.ObscureSensitiveData c1) (Configs.ObscureSensitiveData c2);
     Configs.SensitiveParams :=
       later (Configs.SensitiveParams c1) (Configs.SensitiveParams c2) |}.

(** A configuration that leaves the setters of the other files alone. *)
Definition local_configs (c : Configs.t) : Prop :=
  Configs.SinglePointTracing c = None /\ Configs.CustomColors c = None.
End Configurations.

(** ** An instance to run the model

    Ranks 1 to 7, floats kept as the literal they were read from, and a
    [Sprintf] for the verbs of the examples: [%v], [%d] and [%s] print the
    default text of their operand (what [fmt] prints when [%d] meets an
    int and [%s] a string), and any other verb is printed as if no operand
    was left. *)

Module Demo.

#[export] Instance floats : Float64 :=
  {| float64 := string; ParseFloat := Some; fmtFloat := id;
     jsonFloat := Some |}.

Fixpoint simple_printf (skip : nat) (format : string) (a : list value) : string :=
  match format with
  | "" => ""
  | String c t =>
      match skip with
      | S k => simple_printf k t a
      | O =>
          if Ascii.eqb c "%" then
            match t with
            | String v _ =>
                if smem v "vds" then
                  match a with
                  | x :: a' => fmt.fmtV x +:+ simple_printf 1 t a'
                  | [] =>
                      fst (fmt.verb0 t) +:+ simple_printf (snd (fmt.verb0 t)) t a
                  end
                else fst (fmt.verb0 t) +:+ simple_printf (snd (fmt.verb0 t)) t a
            | "" => fmt.noVerbString
            end
          else String c (simple_printf 0 t a)
      end
  end.

#[export] Instance printf : Printf := {| Sprintf := simple_printf 0 |}.

#[export] Instance decls : Decls :=
  {| traceLevel := 1; debugLevel := 2; infoLevel := 3; warnLevel := 4;
     errorLevel := 5; panicLevel := 6; fatalLevel := 7;
     colorReset := String (byte 27) "[0m" |}.

(** 2021-02-03 04:05:06.7890123 +0100 CET, 12345 ns after process start. *)
Definition clock : time.Time :=
  {| time.year := 2021; time.month := 2; time.day := 3;
     time.hour := 4; time.minute := 5; time.second := 6;
     time.nanosecond := 789012300; time.zoneOffset := 3600;
     time.zoneName := "CET"; time.monotonic := Some 12345 |}.

(** The package as it starts: threshold [info], every option off. *)
Definition start : state :=
  {| logLevel := infoLevel; logWriter := [];
     JSONPrettyPrint := false; obscureSensitiveDataEnabled := false;
     sensitiveParams := []; traceCallerEnabled := false;
     colorEnabled := false; colorMap := ∅;
     now := clock; traceCaller := ("main.go", "main.main") |}.

(** After [EnableObscureSensitiveData([]string{password})]. *)
Definition redact_password : state :=
  EnableObscureSensitiveData ["password"] start.

(** The payload of the redaction example of the spec. *)
Definition payload : string :=
  "{" +:+ Q +:+ "u" +:+ Q +:+ ":" +:+ Q +:+ "x" +:+ Q +:+ ","
      +:+ Q +:+ "password" +:+ Q +:+ ":" +:+ Q +:+ "secret" +:+ Q +:+ "}".


(** The fields of the payload. *)
Definition payload_fields : list (string * string) :=
  [("u", "x"); ("password", "secret")].

(** The text of the payload before the key of the password. *)
Definition before_password : string :=
  "{" +:+ Q +:+ "u" +:+ Q +:+ ":" +:+ Q +:+ "x" +:+ Q +:+ ",".


(** The time field of a record composed at [clock]. *)
Definition clock_text : string := "2021-02-03 04:05:06.7890123 +0100 CET ".

(** The record of [Info(hello)] at [start]. *)
Definition hello_record : string :=
  compact "info" (json.quote "hello") clock_text.

(** The record of [Info(100% sure)] at [start]. *)
Definition percent_record : string :=
  compact "info" (json.quote "100% sure") clock_text.

(** The setters of the other files, for the runs below: a colour table
    replaces the one in place, and single-point tracing changes the caller
    that is reported. *)
#[export] Instance settings : Settings :=
  {| CustomColors := gmap string string;
     EnableSinglePointTracing := fun st =>
       {| logLevel := logLevel st; logWriter := logWriter st;
          JSONPrettyPrint := JSONPrettyPrint st;
          obscureSensitiveDataEnabled := obscureSensitiveDataEnabled st;
          sensitiveParams := sensitiveParams st;
          traceCallerEnabled := traceCallerEnabled st;
          colorEnabled := colorEnabled st; colorMap := colorMap st;
          now := now st; traceCaller := ("app.go", "app.run") |};
     DisableSinglePointTracing := fun st => st;
     setCustomColors := fun cm st =>
       {| logLevel := logLevel st; logWriter := logWriter st;
          JSONPrettyPrint := JSONPrettyPrint st;
          obscureSensitiveDataEnabled := obscureSensitiveDataEnabled st;
          sensitiveParams := sensitiveParams st;
          traceCallerEnabled := traceCallerEnabled st;
          colorEnabled := colorEnabled st; colorMap := cm;
          now := now st; traceCaller := traceCaller st |} |}.

(** The object of the README, with a space after each colon and comma, and
    the names to redact in it. *)
Definition readme_members : list member :=
  [{| m_lead := ""; m_key := "username"; m_gap := 1; m_val := "gyozatech" |};
   {| m_lead := " "; m_key := "password"; m_gap := 1; m_val := "Gy0zApAssw0rd" |}].

Definition redact_two : state :=
  EnableObscureSensitiveData ["password"; "token"] start.

(** A value that [json.Marshal] refuses: a channel. *)
Definition channel : value :=
  VOther {| other_text := "0xc000012345"; other_json := None |}.

(** Two configurations: one raises the threshold and indents the records,
    the other lowers the threshold and turns redaction on. *)
Definition warn_indented : Configs.t :=
  {| Configs.LogLevel := Some "warn"; Configs.JSONPrettyPrint := Some true;
     Configs.TraceCaller := None; Configs.SinglePointTracing := None;
     Configs.Colors := None; Configs.CustomColors := None;
     Configs.ObscureSensitiveData := None; Configs.SensitiveParams := None |}.

Definition debug_redacting : Configs.t :=
  {| Configs.LogLevel := Some "debug"; Configs.JSONPrettyPrint := None;
     Configs.TraceCaller := None; Configs.SinglePointTracing := None;
     Configs.Colors := None; Configs.CustomColors := None;
     Configs.ObscureSensitiveData := Some true;
     Configs.SensitiveParams := Some ["password"] |}.

(** The record of [Error(hello)] at [start]. *)
Definition error_record : string :=
  compact "error" (json.quote "hello") clock_text.

End Demo.

(** ** Vocabulary of the proofs *)

Definition no_pct (s : string) : Prop := smem "%" s = false.

(** Every percent sign is followed by an exclamation mark or ends the text. *)
Fixpoint pct_bang (x : string) : bool :=
  match x with
  | "" => true
  | String c t =>
      (if Ascii.eqb c "%"
       then match t with "" => true | String d _ => Ascii.eqb d "!" end
       else true) && pct_bang t
  end.

(** While [verb0] reads a verb, the text still to read is the text after
    the bytes read so far. *)
Definition inv (t : string) (st : fmt.verb_state) : Prop :=
  fmt.rest st = sdrop (fmt.used st) t /\ (fmt.used st <= String.length t)%nat.

(** The state in which [verb0] reads the verb. *)
Definition at_verb (t : string) : fmt.verb_state :=
  fmt.lastIndex (fmt.precision (fmt.width (fmt.argNumber
    (fmt.advance (fmt.flags t)
       {| fmt.rest := t; fmt.used := O; fmt.goodArgNum := true;
          fmt.afterIndex := false; fmt.written := "" |})))).

Definition no_m (s : string) : Prop := smem "m" s = false.

(** The second pattern of [obscureParam] for the field [f], and what it
    makes of a member of a flat object. *)
Definition re2 (f : string) : regexp.Regexp :=
  [regexp.Lit (key_text f); regexp.LazyAny; regexp.Lit Q; regexp.LazyAny;
   regexp.Lit Q].



Definition add_field `{Float64} (m : list (string * value))
  (kv : string * string) : list (string * value) :=
  map_set (fst kv) (VString (snd kv)) m.

(** What may follow a value in an object text: a comma, the closing brace,
    or white space. *)
Definition closes (rest : string) : bool :=
  match rest with
  | "" => true
  | String c _ => Ascii.eqb c "," || Ascii.eqb c "}" || json.is_space c
  end.

(** A member without the white space before it. *)
Definition member_core (m : member) : string :=
  Q +:+ m_key m +:+ Q +:+ ":" +:+ srepeat " " (m_gap m) +:+ Q +:+ m_val m +:+ Q.

(** A text of printable ASCII as a JSON string literal holds it: a
    backslash before each quote. *)
Fixpoint escape (s : string) : string :=
  match s with
  | "" => ""
  | String c s' =>
      if Ascii.eqb c dquote then String "\" (String c (escape s'))
      else String c (escape s')
  end.

Definition quotable (c : ascii) : bool := safe_byte c || Ascii.eqb c dquote.

(** The first pattern of [obscureParam] for the field [f], and what it
    puts in the place of a match. *)
Definition ekey_text (f : string) : string := "\" +:+ Q +:+ f +:+ "\" +:+ Q +:+ ":".

Definition re1 (f : string) : regexp.Regexp :=
  [regexp.Lit (ekey_text f); regexp.LazyAny; regexp.Lit Q; regexp.LazyAny;
   regexp.Lit ("\" +:+ Q)].

Definition emasked (f : string) : string :=
  "\" +:+ Q +:+ f +:+ "\" +:+ Q +:+ ": \" +:+ Q +:+ "**********\" +:+ Q.

(** An object text in a string field of an object. *)
Definition wrapped (b : string) (ms : list member) (trail : string) : string :=
  "{" +:+ Q +:+ b +:+ Q +:+ ":" +:+ Q +:+ escape (object_text ms trail) +:+ Q +:+ "}".

(** * Properties *)

(** ** Strings *)

#[local] Arguments String.append !s1 s2 : simpl nomatch.

Lemma append_nil_r (s : string) : s +:+ "" = s.
Proof. induction s as [|c s IH]; [reflexivity|]. cbn. by rewrite IH. Qed.

Lemma append_assoc (a b c : string) : (a +:+ b) +:+ c = a +:+ (b +:+ c).
Proof. induction a as [|x a IH]; [reflexivity|]. cbn. by rewrite IH. Qed.

Lemma append_cons (x : ascii) (a b : string) :
  String x a +:+ b = String x (a +:+ b).
Proof. reflexivity. Qed.

Lemma length_append (a b : string) :
  String.length (a +:+ b) = (String.length a + String.length b)%nat.
Proof. induction a as [|x a IH]; [reflexivity|]. cbn. by rewrite IH. Qed.

Lemma snoc_neq {A} (l : list A) (x : A) : (l ++ [x])%list <> l.
Proof.
  intros E. apply (f_equal (@length A)) in E.
  rewrite length_app in E. cbn in E. lia.
Qed.

(** ** The level registry *)

Section Levels.
Context `{Float64} `{!Printf} `{Decls}.

Lemma logLevels_known (l : string) (r : Z) :
  In (l, r) level_table -> logLevels !! l = Some r.
Proof.
  cbn. intros [E|[E|[E|[E|[E|[E|[E|[]]]]]]]]; inversion E; subst; reflexivity.
Qed.

Lemma logLevels_unknown (name : string) :
  ~ In name (map fst level_table) -> logLevels !! name = None.
Proof.
  cbn. intros N. unfold logLevels.
  rewrite !lookup_insert_ne by (intros E; apply N; rewrite <- E; tauto).
  apply lookup_empty.
Qed.

(** C9.  [LogLevel] sets the threshold to the rank of a recognized level
    name and to the rank of info for every other name; it is a total
    function of the name and the state, so it never fails.  The ranks are
    constants declared outside [logger.go] and are assumed not to be zero. *)
Theorem C9_LogLevel_sets_rank_or_info (st : state) :
  ranks_nonzero ->
  (forall l r, In (l, r) level_table -> logLevel (LogLevel l st) = r)
  /\ (forall name, ~ In name (map fst level_table) ->
        logLevel (LogLevel name st) = infoLevel).
Proof.
  intros NZ. split.
  - intros l r I. unfold LogLevel, index_int.
    rewrite (logLevels_known l r I). cbn.
    unfold ranks_nonzero in NZ. rewrite Forall_forall in NZ.
    specialize (NZ (l, r)). cbn in NZ.
    destruct (Z.eqb_spec r 0) as [E|E]; [|reflexivity].
    exfalso. apply NZ; [|exact E]. apply list_elem_of_In. exact I.
  - intros name N. unfold LogLevel, index_int.
    rewrite (logLevels_unknown name N). reflexivity.
Qed.

End Levels.

(** ** The message composer: chaining and formatting *)

Lemma drop_last_app (a b : string) :
  b <> "" -> drop_last (a +:+ b) = a +:+ drop_last b.
Proof.
  intros N. induction a as [|x a IH]; [reflexivity|].
  cbn. rewrite IH. destruct (a +:+ b) eqn:E; [|reflexivity].
  destruct a; [cbn in E; congruence | discriminate].
Qed.

Lemma drop_last_sep (xs : list string) :
  xs <> [] ->
  drop_last (sconcat (map (fun x => x +:+ " ") xs)) = sjoin " " xs.
Proof.
  induction xs as [|x xs IH]; [congruence|]. intros _.
  destruct xs as [|y xs].
  - cbn. rewrite append_nil_r. rewrite drop_last_app by discriminate.
    cbn. apply append_nil_r.
  - change (sconcat (map (fun x => x +:+ " ") (x :: y :: xs)))
      with ((x +:+ " ") +:+ sconcat (map (fun x => x +:+ " ") (y :: xs))).
    rewrite drop_last_app.
    + rewrite IH by discriminate. rewrite append_assoc. reflexivity.
    + cbn. destruct y; discriminate.
Qed.

Section Composer.
Context `{Float64} `{!Printf} `{Decls}.

Lemma stringify_builder (message : list value) (b : string) :
  fold_left (fun b m => if is_nil m then b else b +:+ fmt.fmtV m +:+ " ")
    message b
  = b +:+ sconcat (map (fun x => x +:+ " ") (map fmt.fmtV (non_nil message))).
Proof.
  revert b. induction message as [|m message IH]; intros b.
  - cbn. symmetry. apply append_nil_r.
  - cbn [fold_left]. rewrite IH. unfold non_nil. cbn [List.filter].
    destruct (is_nil m) eqn:E; cbn [negb]; [reflexivity|].
    cbn [map sconcat fold_right]. rewrite !append_assoc. reflexivity.
Qed.

(** What [stringify] returns when some argument is not nil: the default
    texts of the arguments that are not nil, separated by one space. *)
Lemma stringify_join (message : list value) :
  non_nil message <> [] ->
  stringify message = Ok (sjoin " " (map fmt.fmtV (non_nil message))).
Proof.
  intros N. unfold stringify. rewrite stringify_builder. cbn [append].
  assert (M : map fmt.fmtV (non_nil message) <> [])
    by (destruct (non_nil message); [congruence | discriminate]).
  destruct (sconcat _) eqn:E.
  - exfalso. destruct (map fmt.fmtV (non_nil message)) as [|x xs]; [congruence|].
    cbn in E. destruct x; discriminate.
  - cbn [String.length Nat.eqb]. rewrite <- E. f_equal.
    apply drop_last_sep. exact M.
Qed.

(** What [stringify] does when every argument is nil. *)
Lemma stringify_all_nil (message : list value) :
  non_nil message = [] ->
  stringify message = Raise (RuntimeError "slice bounds out of range [:-1]").
Proof.
  intros N. unfold stringify. rewrite stringify_builder, N. reflexivity.
Qed.

(** [stringify] on every argument list: the default texts of the
    arguments that are not nil, separated by one space and with nothing
    after the last one; the run-time error of the slice when there is no
    such argument. *)
Theorem stringify_texts (message : list value) :
  stringify message
  = match non_nil message with
    | [] => Raise (RuntimeError "slice bounds out of range [:-1]")
    | l => Ok (sjoin " " (map fmt.fmtV l))
    end.
Proof.
  destruct (non_nil message) as [|x l] eqn:N.
  - apply stringify_all_nil, N.
  - rewrite stringify_join by (rewrite N; discriminate). rewrite N. reflexivity.
Qed.

(** Two or more nil arguments: [stringify] slices an empty text. *)
Lemma composeMessage_all_nil (st : state) (k : nat) :
  composeMessage st (VNil :: VNil :: List.repeat VNil k)
  = Raise (RuntimeError "slice bounds out of range [:-1]").
Proof.
  cbn [composeMessage]. rewrite stringify_all_nil; [reflexivity|].
  unfold non_nil. cbn. induction k as [|k IH]; [reflexivity|]. exact IH.
Qed.

(** C6.  With two or more arguments, the first of which is not a string
    holding a percent sign, the message is the default texts of the
    arguments that are not nil, separated by one space -- when one of them
    is not nil; when all are nil the call panics. *)
Theorem C6_chaining (st : state) (m0 m1 : value) (rest : list value) :
  (forall msg0, m0 = VString msg0 -> strings.Contains msg0 "%" = false) ->
  composeMessage st (m0 :: m1 :: rest)
  = match non_nil (m0 :: m1 :: rest) with
    | [] => Raise (RuntimeError "slice bounds out of range [:-1]")
    | l => Ok (VString (sjoin " " (map fmt.fmtV l)))
    end
  /\ composeMessage st [VString "a"; VInt 1; VString "b"] = Ok (VString "a 1 b").
Proof.
  intros F. split; [|reflexivity].
  assert (E : composeMessage st (m0 :: m1 :: rest)
              = (msg <- stringify (m0 :: m1 :: rest) ;; Ok (VString msg))).
  { cbn [composeMessage]. destruct m0; try reflexivity.
    rewrite (F s eq_refl). reflexivity. }
  rewrite E. destruct (non_nil (m0 :: m1 :: rest)) as [|x l] eqn:N.
  - rewrite stringify_all_nil by exact N. reflexivity.
  - rewrite stringify_join by (rewrite N; discriminate). rewrite N. reflexivity.
Qed.

(** C5.  With two or more arguments, the first of which is a string
    holding a percent sign, the message is the string that [Sprintf]
    builds from the other arguments, whatever the state says about
    redaction and whether or not that string is JSON; it is encoded as a
    JSON string. *)
Theorem C5_format_is_final_text
  (st : state) (msg0 : string) (a : value) (rest : list value) :
  strings.Contains msg0 "%" = true ->
  composeMessage st (VString msg0 :: a :: rest)
    = Ok (VString (Sprintf msg0 (a :: rest)))
  /\ json.Marshal (VString (Sprintf msg0 (a :: rest)))
     = Some (json.quote (Sprintf msg0 (a :: rest)))
  /\ (Sprintf "%d left" [VInt 2] = "2 left" ->
      composeMessage st [VString "%d left"; VInt 2] = Ok (VString "2 left")).
Proof.
  intros C. cbn [composeMessage]. rewrite C. repeat split.
  intros E. cbn. rewrite E. reflexivity.
Qed.

End Composer.

(** ** [Sprintf] without operands *)

Section Printf_noargs.
Import fmt.

Lemma sdrop_nil (n : nat) : sdrop n "" = "".
Proof. destruct n; reflexivity. Qed.

Lemma sdrop_sdrop (n m : nat) (t : string) :
  sdrop n (sdrop m t) = sdrop (m + n) t.
Proof.
  revert t. induction m as [|m IH]; intros t; [reflexivity|].
  destruct t; cbn; [apply sdrop_nil | apply IH].
Qed.

Lemma length_sdrop (n : nat) (t : string) :
  String.length (sdrop n t) = (String.length t - n)%nat.
Proof.
  revert t. induction n as [|n IH]; intros t; cbn; [lia|].
  destruct t; cbn; [reflexivity | apply IH].
Qed.

Lemma stake_sdrop (n : nat) (t : string) : stake n t +:+ sdrop n t = t.
Proof.
  revert t. induction n as [|n IH]; intros t; [reflexivity|].
  destruct t; cbn; [reflexivity | by rewrite IH].
Qed.

Lemma stake_nonempty (n : nat) (t : string) :
  (1 <= n)%nat -> t <> "" -> stake n t <> "".
Proof. intros Hn Ht. destruct n; [lia|]. destruct t; [congruence | discriminate]. Qed.

Lemma sdrop_all (n : nat) (t : string) :
  sdrop n t = "" -> (n <= String.length t)%nat -> n = String.length t.
Proof.
  intros E L. pose proof (length_sdrop n t) as D. rewrite E in D. cbn in D. lia.
Qed.

(** Two ways to cut one string. *)
Lemma append_eq_append (a b c d : string) :
  a +:+ b = c +:+ d ->
  (exists e, c = a +:+ e /\ b = e +:+ d)
  \/ (exists e, e <> "" /\ a = c +:+ e /\ d = e +:+ b).
Proof.
  revert c. induction a as [|x a IH]; intros c E.
  - left. exists c. split; [reflexivity | exact E].
  - destruct c as [|y c].
    + right. exists (String x a). cbn in E. subst d.
      split; [discriminate | split; reflexivity].
    + cbn in E. injection E as -> E. destruct (IH c E) as [[e [-> ->]]|[e [N [-> ->]]]].
      * left. exists e. split; reflexivity.
      * right. exists e. split; [exact N | split; reflexivity].
Qed.

Lemma pct_bang_split (x c z : string) :
  pct_bang x = true -> x = c +:+ String "%" z ->
  z = "" \/ exists z', z = String "!" z'.
Proof.
  revert x. induction c as [|y c IH]; intros x P E; subst x.
  - cbn in P. destruct z as [|d z]; [left; reflexivity|].
    right. apply andb_prop in P as [P _].
    apply Ascii.eqb_eq in P. subst d. exists z. reflexivity.
  - cbn [append pct_bang] in P. apply andb_prop in P as [_ P].
    exact (IH _ P eq_refl).
Qed.

Lemma pct_bang_no_pct (a b : string) :
  no_pct a -> pct_bang (a +:+ b) = pct_bang b.
Proof.
  unfold no_pct. induction a as [|x a IH]; [reflexivity|].
  cbn [smem append pct_bang]. intros N. apply orb_false_elim in N as [N1 N2].
  rewrite Ascii.eqb_sym in N1. rewrite N1. cbn. apply IH, N2.
Qed.

(** A text with a single percent sign, at its head, is cut before a
    percent sign in one way only. *)
Lemma single_pct_split (x' c z : string) :
  no_pct x' -> String "%" x' = c +:+ String "%" z -> c = "".
Proof.
  intros N E. destruct c as [|y c]; [reflexivity|].
  cbn in E. injection E as E1 E. subst y. exfalso.
  unfold no_pct in N. subst x'. clear -N. induction c as [|y' c IH].
  - cbn in N. discriminate.
  - cbn in N. apply orb_false_elim in N as [_ N]. exact (IH N).
Qed.

(** *** The verb parser *)

Lemma flags_le (t : string) : (flags t <= String.length t)%nat.
Proof.
  induction t as [|c t IH]; cbn [flags String.length]; [lia|].
  destruct (is_flag c); lia.
Qed.

Lemma parsenum_from_le (num : Z) (b : bool) (s : string) :
  (snd (parsenum_from num b s) <= String.length s)%nat.
Proof.
  revert num b. induction s as [|c s IH]; intros num b;
    cbn [parsenum_from String.length snd]; [lia|].
  destruct (is_digit c); cbn [snd]; [|lia].
  destruct (1000000 <? num); cbn [snd String.length]; [lia|].
  specialize (IH (num * 10 + digit c) true). lia.
Qed.

Lemma find_close_lt (s : string) (j : nat) :
  find_close s = Some j -> (j < String.length s)%nat.
Proof.
  revert j. induction s as [|c s IH]; intros j;
    cbn [find_close String.length]; [discriminate|].
  destruct (Ascii.eqb c "]").
  - intros [= <-]. lia.
  - destruct (find_close s) as [k|]; cbn [option_map]; [|discriminate].
    intros [= <-]. specialize (IH k eq_refl). lia.
Qed.

Lemma parseArgNumber_le (s : string) :
  s <> "" -> (fst (parseArgNumber s) <= String.length s)%nat.
Proof.
  intros N. unfold parseArgNumber.
  destruct (String.length s <? 3)%nat eqn:L.
  - cbn. destruct s; [congruence | cbn; lia].
  - destruct (find_close (sdrop 1 s)) as [j|] eqn:F.
    + apply find_close_lt in F. rewrite length_sdrop in F.
      destruct (negb _ || negb _); cbn; lia.
    + cbn. destruct s; [congruence | cbn; lia].
Qed.

Lemma inv_advance (t : string) (n : nat) (st : verb_state) :
  inv t st -> (n <= String.length (rest st))%nat -> inv t (advance n st).
Proof.
  intros [R U] L. unfold inv, advance; cbn. rewrite R in *.
  rewrite sdrop_sdrop. rewrite length_sdrop in L. split; [reflexivity | lia].
Qed.

Lemma starts_with_nonempty (c : ascii) (s : string) :
  starts_with c s = true -> s <> "" /\ (1 <= String.length s)%nat.
Proof. destruct s; cbn; [discriminate|]. intros _. split; [discriminate | lia]. Qed.

Lemma inv_argNumber (t : string) (st : verb_state) :
  inv t st -> inv t (argNumber st).
Proof.
  intros I. unfold argNumber. destruct (starts_with "[" (rest st)) eqn:S.
  - apply starts_with_nonempty in S as [N _].
    pose proof (parseArgNumber_le (rest st) N) as L.
    destruct I as [R U]. unfold inv; cbn. rewrite R in *.
    rewrite sdrop_sdrop. rewrite length_sdrop in L. split; [reflexivity | lia].
  - exact I.
Qed.

Lemma inv_width (t : string) (st : verb_state) : inv t st -> inv t (width st).
Proof.
  intros I. unfold width. destruct (starts_with "*" (rest st)) eqn:S.
  - apply starts_with_nonempty in S as [_ L].
    exact (inv_advance t 1 st I L).
  - pose proof (inv_advance t _ st I (parsenum_from_le 0 false (rest st))) as I'.
    unfold parsenum. destruct (afterIndex st && _); exact I'.
Qed.

Lemma inv_precision (t : string) (st : verb_state) :
  inv t st -> inv t (precision st).
Proof.
  intros I. unfold precision. destruct (starts_with "." (rest st)) eqn:S; [|exact I].
  apply starts_with_nonempty in S as [_ L].
  pose proof (inv_advance t 1 st I L) as I1.
  set (st2 := if afterIndex (advance 1 st) then set_bad (advance 1 st)
              else advance 1 st).
  assert (I2 : inv t st2) by (subst st2; destruct (afterIndex _); exact I1).
  pose proof (inv_argNumber t st2 I2) as I3.
  destruct (starts_with "*" (rest (argNumber st2))) eqn:S'.
  - apply starts_with_nonempty in S' as [_ L'].
    exact (inv_advance t 1 _ I3 L').
  - exact (inv_advance t _ _ I3 (parsenum_from_le 0 false _)).
Qed.

Lemma inv_lastIndex (t : string) (st : verb_state) :
  inv t st -> inv t (lastIndex st).
Proof.
  intros I. unfold lastIndex. destruct (afterIndex st); [exact I|].
  apply inv_argNumber, I.
Qed.

Lemma verb0_at_verb (t : string) : verb0 t = verb (at_verb t).
Proof. reflexivity. Qed.

Lemma inv_at_verb (t : string) : inv t (at_verb t).
Proof.
  unfold at_verb.
  apply inv_lastIndex, inv_precision, inv_width, inv_argNumber, inv_advance.
  - split; [reflexivity | cbn; lia].
  - apply flags_le.
Qed.

Lemma rune_size_bounds (s : string) :
  s <> "" ->
  (1 <= utf8.rune_size (utf8.DecodeRuneInString s) <= String.length s)%nat.
Proof.
  intros N. destruct s as [|s0 t]; [congruence|].
  unfold utf8.DecodeRuneInString.
  destruct (code s0 <? 128)%N; [cbn; lia|].
  destruct (utf8.first s0) as [[[sz lo] hi]|]; [|cbn; lia].
  destruct t as [|s1 t1]; [cbn; lia|].
  destruct (negb (in_range lo hi s1)); [cbn; lia|].
  destruct (sz <=? 2)%nat; [cbn; lia|].
  destruct t1 as [|s2 t2]; [cbn; lia|].
  destruct (negb (utf8.cont s2)); [cbn; lia|].
  destruct (sz <=? 3)%nat; [cbn; lia|].
  destruct t2 as [|s3 t3]; [cbn; lia|].
  destruct (negb (utf8.cont s3)); cbn; lia.
Qed.

Lemma verb0_used_le (t : string) : (snd (verb0 t) <= String.length t)%nat.
Proof.
  rewrite verb0_at_verb. destruct (inv_at_verb t) as [R U].
  assert (L : String.length (rest (at_verb t))
              = (String.length t - used (at_verb t))%nat)
    by (rewrite R; apply length_sdrop).
  unfold verb. destruct (rest (at_verb t)) as [|c r] eqn:E; [exact U|].
  assert (B : (utf8.rune_size (utf8.DecodeRuneInString (String c r))
               <= String.length (String c r))%nat)
    by (apply rune_size_bounds; discriminate).
  destruct (Ascii.eqb c "%"); [cbn [snd]; lia|].
  destruct (negb (goodArgNum (at_verb t))); cbn [snd]; lia.
Qed.

Lemma verb0_used_pos (t : string) : t <> "" -> (1 <= snd (verb0 t))%nat.
Proof.
  intros N. rewrite verb0_at_verb. destruct (inv_at_verb t) as [R U].
  unfold verb. destruct (rest (at_verb t)) as [|c r] eqn:E.
  - cbn. symmetry in R. rewrite (sdrop_all _ _ R U).
    destruct t; [congruence | cbn; lia].
  - assert (B : (1 <= utf8.rune_size (utf8.DecodeRuneInString (String c r)))%nat)
      by (apply rune_size_bounds; discriminate).
    destruct (Ascii.eqb c "%"); [cbn [snd]; lia|].
    destruct (negb (goodArgNum (at_verb t))); cbn [snd]; lia.
Qed.

End Printf_noargs.

Section Printf_markers.
Import fmt.

Lemma high_byte_not_pct (x : ascii) :
  (128 <= code x)%N -> Ascii.eqb "%" x = false.
Proof.
  intros L. apply Ascii.eqb_neq. intros <-. vm_compute in L. apply L. reflexivity.
Qed.

Lemma in_range_high (lo hi : N) (x : ascii) :
  (128 <= lo)%N -> in_range lo hi x = true -> Ascii.eqb "%" x = false.
Proof.
  intros L R. apply high_byte_not_pct. unfold in_range in R.
  apply andb_prop in R as [R _]. apply N.leb_le in R. lia.
Qed.

Lemma first_high (s0 : ascii) (sz : nat) (lo hi : N) :
  utf8.first s0 = Some (sz, lo, hi) -> (128 <= lo)%N.
Proof.
  unfold utf8.first.
  repeat match goal with
         | |- context [if ?b then _ else _] => destruct b
         end; intros [= <- <- <-]; lia || discriminate.
Qed.

Lemma no_pct_reencode (c : ascii) (r : string) :
  Ascii.eqb c "%" = false -> no_pct (utf8.reencode (String c r)).
Proof.
  intros N. unfold no_pct, utf8.reencode, utf8.DecodeRuneInString.
  assert (N' : Ascii.eqb "%" c = false) by (rewrite Ascii.eqb_sym; exact N).
  destruct (code c <? 128)%N eqn:A.
  { cbn -[Ascii.eqb]. rewrite N'. reflexivity. }
  apply N.ltb_ge in A.
  destruct (utf8.first c) as [[[sz lo] hi]|] eqn:F; [|reflexivity].
  pose proof (first_high _ _ _ _ F) as L.
  destruct r as [|s1 t1]; [reflexivity|].
  destruct (in_range lo hi s1) eqn:R1; [|reflexivity]. cbn [negb].
  pose proof (in_range_high _ _ _ L R1) as N1.
  destruct (sz <=? 2)%nat.
  { cbn -[Ascii.eqb]. rewrite N', N1. reflexivity. }
  destruct t1 as [|s2 t2]; [reflexivity|].
  destruct (utf8.cont s2) eqn:R2; [|reflexivity]. cbn [negb].
  assert (N2 : Ascii.eqb "%" s2 = false)
    by (apply (in_range_high 128 191); [lia | exact R2]).
  destruct (sz <=? 3)%nat.
  { cbn -[Ascii.eqb]. rewrite N', N1, N2. reflexivity. }
  destruct t2 as [|s3 t3]; [reflexivity|].
  destruct (utf8.cont s3) eqn:R3; [|reflexivity]. cbn [negb].
  assert (N3 : Ascii.eqb "%" s3 = false)
    by (apply (in_range_high 128 191); [lia | exact R3]).
  cbn -[Ascii.eqb]. rewrite N', N1, N2, N3. reflexivity.
Qed.

Lemma written_argNumber (st : verb_state) : written (argNumber st) = written st.
Proof. unfold argNumber. destruct (starts_with "[" (rest st)); reflexivity. Qed.

Lemma written_width (st : verb_state) :
  exists w, (w = "" \/ w = badWidthString) /\ written (width st) = written st +:+ w.
Proof.
  unfold width. destruct (starts_with "*" (rest st)).
  - exists badWidthString. split; [right|]; reflexivity.
  - exists "". split; [left; reflexivity|]. rewrite append_nil_r.
    destruct (afterIndex st && _); reflexivity.
Qed.

Lemma written_precision (st : verb_state) :
  exists w, (w = "" \/ w = badPrecString)
            /\ written (precision st) = written st +:+ w.
Proof.
  unfold precision. destruct (starts_with "." (rest st)).
  - match goal with
    | |- context [starts_with "*" ?s] => destruct (starts_with "*" s)
    end.
    + exists badPrecString. split; [right; reflexivity|].
      cbn [written set_after write advance]. rewrite written_argNumber.
      destruct (afterIndex (advance 1 st)); reflexivity.
    + exists "". split; [left; reflexivity|]. rewrite append_nil_r.
      cbn [written advance]. rewrite written_argNumber.
      destruct (afterIndex (advance 1 st)); reflexivity.
  - exists "". split; [left; reflexivity | by rewrite append_nil_r].
Qed.

Lemma written_lastIndex (st : verb_state) : written (lastIndex st) = written st.
Proof. unfold lastIndex. destruct (afterIndex st); [reflexivity|]. apply written_argNumber. Qed.

Lemma written_at_verb (t : string) :
  exists w1 w2, (w1 = "" \/ w1 = badWidthString)
                /\ (w2 = "" \/ w2 = badPrecString)
                /\ written (at_verb t) = w1 +:+ w2.
Proof.
  unfold at_verb. rewrite written_lastIndex.
  destruct (written_precision
              (width (argNumber (advance (flags t)
                 {| rest := t; used := O; goodArgNum := true;
                    afterIndex := false; written := "" |}))))
    as [w2 [M2 ->]].
  destruct (written_width
              (argNumber (advance (flags t)
                 {| rest := t; used := O; goodArgNum := true;
                    afterIndex := false; written := "" |})))
    as [w1 [M1 ->]].
  rewrite written_argNumber. exists w1, w2. repeat split; assumption.
Qed.

(** What one verb prints: at most the two markers of a missing width and
    precision, then the marker of a missing verb, a percent sign, or the
    marker of a missing operand around the verb. *)
Lemma verb0_shape (t : string) :
  exists w1 w2 V,
    fst (verb0 t) = w1 +:+ w2 +:+ V
    /\ (w1 = "" \/ w1 = badWidthString)
    /\ (w2 = "" \/ w2 = badPrecString)
    /\ (V = noVerbString \/ V = "%"
        \/ exists rune tail,
             no_pct rune /\ (tail = badIndexString \/ tail = missingString)
             /\ V = percentBangString +:+ rune +:+ tail).
Proof.
  rewrite verb0_at_verb. destruct (written_at_verb t) as [w1 [w2 [M1 [M2 W]]]].
  unfold verb. rewrite W. destruct (rest (at_verb t)) as [|c r].
  - exists w1, w2, noVerbString. cbn [fst]. rewrite append_assoc.
    repeat split; try assumption. left; reflexivity.
  - destruct (Ascii.eqb c "%") eqn:C.
    + exists w1, w2, "%". cbn [fst]. rewrite append_assoc.
      repeat split; try assumption. right; left; reflexivity.
    + pose proof (no_pct_reencode c r C) as NP.
      destruct (negb (goodArgNum (at_verb t))); cbn [fst].
      * exists w1, w2, (percentBangString +:+ utf8.reencode (String c r) +:+ badIndexString).
        rewrite !append_assoc. repeat split; try assumption.
        right; right. eexists _, _. repeat split; [exact NP | left; reflexivity].
      * exists w1, w2, (percentBangString +:+ utf8.reencode (String c r) +:+ missingString).
        rewrite !append_assoc. repeat split; try assumption.
        right; right. eexists _, _. repeat split; [exact NP | right; reflexivity].
Qed.

Lemma verb0_pct_bang (t : string) : pct_bang (fst (verb0 t)) = true.
Proof.
  destruct (verb0_shape t) as [w1 [w2 [V [-> [M1 [M2 HV]]]]]].
  assert (PV : pct_bang V = true).
  { destruct HV as [->|[->|[rune [tail [NP [T ->]]]]]]; [reflexivity..|].
    cbn. rewrite pct_bang_no_pct by exact NP.
    destruct T as [->| ->]; reflexivity. }
  destruct M1 as [->| ->]; destruct M2 as [->| ->]; cbn; exact PV.
Qed.

Lemma verb0_head (t : string) :
  fst (verb0 t) = "%" \/ exists o, fst (verb0 t) = percentBangString +:+ o.
Proof.
  destruct (verb0_shape t) as [w1 [w2 [V [-> [M1 [M2 HV]]]]]].
  destruct M1 as [->| ->]; [|right; eexists; reflexivity].
  destruct M2 as [->| ->]; [|right; eexists; reflexivity].
  cbn. destruct HV as [->|[->|[rune [tail [_ [_ ->]]]]]].
  - right. eexists; reflexivity.
  - left. reflexivity.
  - right. eexists; reflexivity.
Qed.

Lemma verb0_nil : verb0 "" = ("%!(NOVERB)", O).
Proof. reflexivity. Qed.

Lemma verb0_bang (t : string) : verb0 (String "!" t) = ("%!!(MISSING)", 1%nat).
Proof. reflexivity. Qed.

End Printf_markers.

Section Printf_changes.
Import fmt.

Lemma doPrintf0_skip (k : nat) (s : string) :
  doPrintf0 k s = doPrintf0 O (sdrop k s).
Proof.
  revert k. induction s as [|c s IH]; intros k.
  - rewrite sdrop_nil. destruct k; reflexivity.
  - destruct k; [reflexivity|]. cbn [doPrintf0 sdrop]. apply IH.
Qed.

Lemma doPrintf0_pct (t : string) :
  doPrintf0 O (String "%" t)
  = fst (verb0 t) +:+ doPrintf0 O (sdrop (snd (verb0 t)) t).
Proof. cbn [doPrintf0]. rewrite Ascii.eqb_refl, doPrintf0_skip. reflexivity. Qed.

Lemma doPrintf0_lit (c : ascii) (t : string) :
  Ascii.eqb c "%" = false -> doPrintf0 O (String c t) = String c (doPrintf0 O t).
Proof. intros N. cbn [doPrintf0]. rewrite N. reflexivity. Qed.

Lemma doPrintf0_no_pct (e r : string) :
  no_pct e -> doPrintf0 O (e +:+ r) = e +:+ doPrintf0 O r.
Proof.
  unfold no_pct. induction e as [|c e IH]; [reflexivity|].
  cbn [smem]. intros N. apply orb_false_elim in N as [N1 N2].
  cbn [append]. rewrite doPrintf0_lit by (rewrite Ascii.eqb_sym; exact N1).
  rewrite IH by exact N2. reflexivity.
Qed.

Lemma Contains_pct (s : string) : strings.Contains s "%" = smem "%" s.
Proof.
  induction s as [|c s IH]; [reflexivity|].
  cbn [strings.Contains strings.HasPrefix smem]. rewrite IH.
  destruct s; rewrite andb_true_r; reflexivity.
Qed.

(** A format without a percent sign is printed as it is. *)
Lemma Sprintf0_plain (s : string) :
  strings.Contains s "%" = false -> Sprintf0 s = s.
Proof.
  rewrite Contains_pct. intros N. unfold Sprintf0.
  rewrite <- (append_nil_r s) at 1. rewrite doPrintf0_no_pct by exact N.
  cbn. apply append_nil_r.
Qed.

(** The printed text is never the format with something put in front. *)
Lemma doPrintf0_not_shifted (n : nat) (r c : string) :
  (String.length r <= n)%nat -> c <> "" -> doPrintf0 O r <> c +:+ r.
Proof.
  revert r c. induction n as [|n IH]; intros r c L N E.
  - destruct r; [|cbn in L; lia]. cbn in E. rewrite append_nil_r in E. congruence.
  - destruct r as [|x t].
    { cbn in E. rewrite append_nil_r in E. congruence. }
    cbn [String.length] in L.
    destruct (Ascii.eqb x "%") eqn:X.
    + apply Ascii.eqb_eq in X. subst x. rewrite doPrintf0_pct in E.
      pose proof (verb0_used_le t) as U.
      set (out := fst (verb0 t)) in *. set (k := snd (verb0 t)) in *.
      assert (Lr : (String.length (sdrop k t) <= n)%nat)
        by (rewrite length_sdrop; lia).
      destruct (append_eq_append _ _ _ _ E) as [[e [-> E2]]|[e [Ne [Eo E2]]]].
      * apply (IH (sdrop k t) (e +:+ String "%" (stake k t)) Lr).
        { destruct e; discriminate. }
        rewrite E2. rewrite append_assoc. cbn [append].
        rewrite stake_sdrop. reflexivity.
      * destruct e as [|y e']; [congruence|]. cbn [append] in E2.
        injection E2 as <- E2.
        assert (T : t <> "" /\ forall t', t <> String "!" t').
        { split.
          - intros ->. subst out. rewrite verb0_nil in Eo. cbn [fst] in Eo.
            apply N. apply (single_pct_split "!(NOVERB)" c e'); [reflexivity | exact Eo].
          - intros t' ->. subst out. rewrite verb0_bang in Eo. cbn [fst] in Eo.
            apply N. apply (single_pct_split "!!(MISSING)" c e'); [reflexivity | exact Eo]. }
        destruct T as [Tn Tb].
        destruct (pct_bang_split out c e' (verb0_pct_bang t) Eo) as [->|[z ->]].
        -- cbn [append] in E2.
           apply (IH (sdrop k t) (stake k t) Lr).
           { apply stake_nonempty; [apply verb0_used_pos; exact Tn | exact Tn]. }
           rewrite stake_sdrop. symmetry. exact E2.
        -- cbn [append] in E2. exact (Tb _ E2).
    + rewrite doPrintf0_lit in E by exact X.
      destruct c as [|c0 c']; [congruence|]. cbn [append] in E.
      injection E as <- E.
      apply (IH t (c' +:+ String x "")); [lia | destruct c'; discriminate |].
      rewrite E, append_assoc. reflexivity.
Qed.

(** No text is a plain prefix followed by its own printed form. *)
Lemma doPrintf0_not_prefixed (n : nat) (r e : string) :
  (String.length r <= n)%nat -> e <> "" -> no_pct e -> r <> e +:+ doPrintf0 O r.
Proof.
  revert r. induction n as [|n IH]; intros r L N P E.
  - destruct r; [|cbn in L; lia]. destruct e; [congruence | discriminate].
  - apply (IH (doPrintf0 O r)); [|exact N|exact P|].
    + apply (f_equal String.length) in E. rewrite length_append in E.
      destruct e; [congruence|]. cbn in E. lia.
    + rewrite E at 1. apply doPrintf0_no_pct, P.
Qed.

Lemma doPrintf0_changes (n : nat) (s : string) :
  (String.length s <= n)%nat -> smem "%" s = true -> doPrintf0 O s <> s.
Proof.
  revert s. induction n as [|n IH]; intros s L C E.
  - destruct s; [discriminate | cbn in L; lia].
  - destruct s as [|x t]; [discriminate|]. cbn [String.length] in L.
    destruct (Ascii.eqb x "%") eqn:X.
    + apply Ascii.eqb_eq in X. subst x. rewrite doPrintf0_pct in E.
      pose proof (verb0_used_le t) as U. pose proof E as E0.
      destruct (verb0_head t) as [H|[o H]]; rewrite H in E.
      * clear E0. cbn [append] in E. injection E as E.
        assert (Tn : t <> "").
        { intros ->. rewrite verb0_nil in H. discriminate. }
        apply (doPrintf0_not_shifted (String.length t)
                 (sdrop (snd (verb0 t)) t) (stake (snd (verb0 t)) t)).
        -- rewrite length_sdrop. lia.
        -- apply stake_nonempty; [apply verb0_used_pos; exact Tn | exact Tn].
        -- rewrite stake_sdrop. exact E.
      * cbn [append percentBangString] in E. injection E as E.
        destruct t as [|y t']; [discriminate|]. cbn [append] in E.
        injection E as Ey _. subst y.
        rewrite verb0_bang in E0. cbn [fst snd sdrop append] in E0.
        assert (E1 : t' = "!(MISSING)" +:+ doPrintf0 O t')
          by (cbn [append]; congruence).
        revert E1. cbn [String.length] in L.
        apply (doPrintf0_not_prefixed (String.length t') t' "!(MISSING)");
          [lia | discriminate | reflexivity].
    + rewrite doPrintf0_lit in E by exact X. injection E as E.
      apply (IH t); [lia | | exact E].
      cbn [smem] in C. rewrite Ascii.eqb_sym, X in C. exact C.
Qed.

(** A format that holds a percent sign is never printed as it is. *)
Lemma Sprintf0_changes (s : string) :
  strings.Contains s "%" = true -> Sprintf0 s <> s.
Proof.
  rewrite Contains_pct. apply (doPrintf0_changes (String.length s)). lia.
Qed.

End Printf_changes.

(** ** Level dispatch *)

Section Dispatch.
Context `{Float64} `{!Printf} `{Decls}.

(** [composeLog] builds the envelope around the composed message and
    renders it. *)
Lemma composeLog_render (st : state) (level : string) (message : list value) :
  composeLog st level message
  = (m <- composeMessage st message ;; Ok (render st (envelope st level m))).
Proof. reflexivity. Qed.

(** [composeLog] does not read the threshold. *)
Lemma composeLog_threshold (t : Z) (st : state) (level : string)
  (message : list value) :
  composeLog (set_logLevel t st) level message = composeLog st level message.
Proof.
  unfold composeLog. destruct message as [|m0 [|m1 rest]]; try reflexivity.
Qed.

Lemma call_printLog (e : entry) (message : list value) (st : state) :
  final (call e message st)
  = match printLog (label_of e) message st with
    | Ok st' => st'
    | Raise _ => st
    end.
Proof.
  destruct e; cbn [call label_of];
    unfold Trace, Debug, Info, Warn, Error, Fatal, run;
    match goal with |- context [printLog ?l ?m ?s] => destruct (printLog l m s) end;
    reflexivity.
Qed.

Lemma call_logWriter (e : entry) (message : list value) (st : state) (r : string) :
  composeLog st (label_of e) message = Ok r ->
  logWriter (final (call e message st))
  = if rank e >=? logLevel st
    then (logWriter st ++ [fmt.Sprintf0 r])%list
    else logWriter st.
Proof.
  intros C. rewrite call_printLog. unfold printLog, rank.
  destruct (index_int logLevels (label_of e) >=? logLevel st); [|reflexivity].
  rewrite C. reflexivity.
Qed.


(** What [Panic] does when the record composes: whatever the threshold,
    it panics with the record text and the sink is left as it is. *)
Lemma Panic_renders (t : Z) (st : state) (message : list value) (r : string) :
  composeLog st panicLabel message = Ok r ->
  Panic message (set_logLevel t st)
  = Panicked (PanicString r) (set_logLevel t st).
Proof.
  intros C. unfold Panic. rewrite composeLog_threshold, C. reflexivity.
Qed.

(** C8.  On two or more nil arguments [Panic] does not get to render a
    record: the panic it raises carries the run-time error of
    [stringify], not a record text.  Nothing is written. *)
Theorem C8_Panic_on_nils_carries_runtime_error (st : state) (k : nat) :
  Panic (VNil :: VNil :: List.repeat VNil k) st
  = Panicked (RuntimeError "slice bounds out of range [:-1]") st.
Proof.
  unfold Panic. rewrite composeLog_render, composeMessage_all_nil. reflexivity.
Qed.

(** C4.  Message composition is not total: on two or more nil arguments
    [stringify] slices an empty text, and every entry point that reaches
    the composer panics with that run-time error instead of returning. *)
Theorem C4_nil_arguments_panic (e : entry) (st : state) (k : nat) :
  rank e >= logLevel st ->
  returns (composeMessage st (VNil :: VNil :: List.repeat VNil k)) = false
  /\ call e (VNil :: VNil :: List.repeat VNil k) st
     = Panicked (RuntimeError "slice bounds out of range [:-1]") st.
Proof.
  intros G. rewrite composeMessage_all_nil. split; [reflexivity|].
  assert (P : printLog (label_of e) (VNil :: VNil :: List.repeat VNil k) st
              = Raise (RuntimeError "slice bounds out of range [:-1]")).
  { unfold printLog. fold (rank e).
    destruct (Z.geb_spec (rank e) (logLevel st)); [|lia].
    rewrite composeLog_render, composeMessage_all_nil. reflexivity. }
  destruct e; cbn [call label_of] in *;
    unfold Trace, Debug, Info, Warn, Error, Fatal, run; rewrite P; reflexivity.
Qed.

(** C10.  An emitted record is handed to [Fprintf] as the format, with no
    operand: the sink receives the record printed as a format, which is
    the record itself when it holds no percent sign and differs from it
    when it holds one. *)
Theorem C10_record_is_used_as_format
  (e : entry) (message : list value) (st : state) (r : string) :
  composeLog st (label_of e) message = Ok r ->
  rank e >= logLevel st ->
  writes e message st (fmt.Sprintf0 r)
  /\ (strings.Contains r "%" = true -> fmt.Sprintf0 r <> r)
  /\ (strings.Contains r "%" = false -> fmt.Sprintf0 r = r).
Proof.
  intros C G. split; [|split].
  - unfold writes. rewrite (call_logWriter e message st r C).
    destruct (Z.geb_spec (rank e) (logLevel st)); [reflexivity | lia].
  - apply Sprintf0_changes.
  - apply Sprintf0_plain.
Qed.

End Dispatch.

(** ** The time stamp *)

Section Timestamp.

Lemma smem_append (c : ascii) (a b : string) :
  smem c (a +:+ b) = smem c a || smem c b.
Proof.
  induction a as [|x a IH]; [reflexivity|].
  cbn [append smem]. rewrite IH. apply orb_assoc.
Qed.

Lemma no_m_append (a b : string) : no_m a -> no_m b -> no_m (a +:+ b).
Proof. unfold no_m. intros A B. rewrite smem_append, A, B. reflexivity. Qed.

Lemma no_m_uint (d : Decimal.uint) : no_m (NilEmpty.string_of_uint d).
Proof. induction d; cbn; try reflexivity; exact IHd. Qed.

Lemma no_m_uint0 (d : Decimal.uint) : no_m (NilZero.string_of_uint d).
Proof.
  destruct d; [reflexivity|..];
    match goal with
    | |- no_m (NilZero.string_of_uint ?x) => exact (no_m_uint x)
    end.
Qed.

Lemma no_m_itoa (n : Z) : no_m (fmt.itoa n).
Proof.
  unfold fmt.itoa. destruct n as [|p|p]; cbn [Z.to_int NilZero.string_of_int].
  - reflexivity.
  - apply no_m_uint0.
  - apply (no_m_append "-"); [reflexivity | apply no_m_uint0].
Qed.

Lemma no_m_srepeat (n : nat) : no_m (srepeat "0" n).
Proof. induction n as [|n IH]; [reflexivity | exact IH]. Qed.

Lemma no_m_appendInt (x : Z) (w : nat) : no_m (time.appendInt x w).
Proof.
  unfold time.appendInt.
  apply no_m_append; [destruct (x <? 0); reflexivity|].
  apply no_m_append; [apply no_m_srepeat | apply no_m_itoa].
Qed.

Lemma no_m_trim_zeros (s : string) : no_m s -> no_m (time.trim_zeros s).
Proof.
  unfold no_m. induction s as [|c s IH]; [reflexivity|].
  cbn [smem time.trim_zeros]. intros N. apply orb_false_elim in N as [N1 N2].
  specialize (IH N2). destruct (time.trim_zeros s) as [|d r].
  - destruct (Ascii.eqb c "0"); [reflexivity|]. cbn [smem]. rewrite N1. reflexivity.
  - cbn [smem] in *. rewrite N1. exact IH.
Qed.

Lemma no_m_appendNano (n : Z) : no_m (time.appendNano n).
Proof.
  unfold time.appendNano. destruct (n =? 0); [reflexivity|].
  apply (no_m_append "."); [reflexivity|].
  apply no_m_trim_zeros, no_m_appendInt.
Qed.

Lemma no_m_appendZone (o : Z) : no_m (time.appendZone o).
Proof.
  unfold time.appendZone.
  apply no_m_append; [destruct (_ <? 0); reflexivity|].
  apply no_m_append; apply no_m_appendInt.
Qed.

Lemma no_m_Format (t : time.Time) : no_m (time.zoneName t) -> no_m (time.Format t).
Proof.
  intros Z. unfold time.Format.
  repeat (apply no_m_append;
          [first [apply no_m_appendInt | apply no_m_appendNano
                 | apply no_m_appendZone | reflexivity | idtac] |]);
    try (destruct (String.eqb _ _); [apply no_m_appendZone | exact Z]).
Qed.

Lemma split_loop_first (cur a b : string) :
  no_m a ->
  strings.split_loop "m" 0 cur (a +:+ String "m" b)
  = (cur +:+ a) :: strings.split_loop "m" 0 "" b.
Proof.
  unfold no_m. revert cur. induction a as [|c a IH]; intros cur N.
  - cbn. rewrite append_nil_r. reflexivity.
  - cbn [smem] in N. apply orb_false_elim in N as [N1 N2].
    cbn [append strings.split_loop strings.HasPrefix]. rewrite N1. cbn [andb].
    rewrite (IH _ N2). rewrite append_assoc. reflexivity.
Qed.

Lemma split_loop_none (cur a : string) :
  no_m a -> strings.split_loop "m" 0 cur a = [cur +:+ a].
Proof.
  unfold no_m. revert cur. induction a as [|c a IH]; intros cur N.
  - cbn. rewrite append_nil_r. reflexivity.
  - cbn [smem] in N. apply orb_false_elim in N as [N1 N2].
    cbn [strings.split_loop strings.HasPrefix]. rewrite N1. cbn [andb].
    rewrite (IH _ N2). rewrite append_assoc. reflexivity.
Qed.

(** The text before the first [m] of a time stamp: the wall clock text,
    with a space after it when a monotonic reading follows. *)
Lemma Split_String (t : time.Time) :
  no_m (time.zoneName t) ->
  hd "" (strings.Split (time.String_ t) "m")
  = time.Format t +:+ match time.monotonic t with Some _ => " " | None => "" end.
Proof.
  intros Z. pose proof (no_m_Format t Z) as F.
  unfold strings.Split, time.String_. destruct (time.monotonic t) as [ext|].
  - unfold time.appendMonotonic.
    change (" m=" +:+ ?x) with (" " +:+ String "m" ("=" +:+ x)).
    rewrite <- append_assoc.
    rewrite split_loop_first by (apply no_m_append; [exact F | reflexivity]).
    reflexivity.
  - rewrite !append_nil_r. rewrite split_loop_none by exact F. reflexivity.
Qed.

End Timestamp.

(** ** The envelope *)

Section Envelope.
Context `{Float64} `{!Printf} `{Decls}.

Lemma Format_parts (t : time.Time) :
  time.Format t
  = seconds_text t +:+ time.appendNano (time.nanosecond t) +:+ " " +:+ zone_text t.
Proof. unfold time.Format, seconds_text, zone_text. rewrite !append_assoc. reflexivity. Qed.

(** C7 (amended).  The time field is the text of the current time stamp
    up to its first letter m.  For a zone name without that letter this
    is the wall clock text -- date, time of day, the fraction of the second
    when it is not zero, zone offset and zone name -- followed by a space:
    the monotonic reading is dropped, the fraction of the second is kept. *)
Theorem C7_time_is_text_before_first_m
  (st : state) (level : string) (message : list value) (m : value) (ext : Z) :
  composeMessage st message = Ok m ->
  time.monotonic (now st) = Some ext ->
  smem "m" (time.zoneName (now st)) = false ->
  composeLog st level message = Ok (render st (envelope st level m))
  /\ Time (envelope st level m)
     = seconds_text (now st) +:+ time.appendNano (time.nanosecond (now st))
         +:+ " " +:+ zone_text (now st) +:+ " "
  /\ (time.nanosecond (now st) <> 0 ->
      time.appendNano (time.nanosecond (now st))
      = "." +:+ time.trim_zeros (time.appendInt (time.nanosecond (now st)) 9)).
Proof.
  intros C M Z. split; [|split].
  - rewrite composeLog_render, C. reflexivity.
  - cbn [Time envelope]. rewrite Split_String by exact Z. rewrite M.
    rewrite Format_parts, !append_assoc. reflexivity.
  - intros N. unfold time.appendNano.
    destruct (Z.eqb_spec (time.nanosecond (now st)) 0); [congruence | reflexivity].
Qed.

Lemma value_p_string (fuel depth : nat) (s t r : string) :
  json.value_p fuel depth s = Some (VString t, r) ->
  exists body, s = String dquote body /\ json.string_body 0 body = Some (t, r).
Proof.
  destruct fuel as [|f]; [discriminate|]. cbn [json.value_p].
  destruct s as [|c u]; [discriminate|].
  destruct (Ascii.eqb c "{").
  { destruct depth; [discriminate|]. destruct (fmt.starts_with _ _); [discriminate|].
    destruct (json.members_p _ _ _ _); discriminate. }
  destruct (Ascii.eqb c "[").
  { destruct depth; [discriminate|]. destruct (fmt.starts_with _ _); [discriminate|].
    destruct (json.elems_p _ _ _ _); discriminate. }
  destruct (Ascii.eqb_spec c dquote) as [->|_].
  { destruct (json.string_body 0 u) as [[t' r']|] eqn:B; [|discriminate].
    cbn. intros [= -> ->]. exists u. split; [reflexivity | exact B]. }
  destruct (strings.HasPrefix _ "true"); [discriminate|].
  destruct (strings.HasPrefix _ "false"); [discriminate|].
  destruct (strings.HasPrefix _ "null"); [discriminate|].
  destruct (json.number_len _); [|discriminate]. cbn. unfold json.convertNumber.
  destruct (ParseFloat _); discriminate.
Qed.

(** A document decodes to a string only when it is a string literal, and
    then to the string that the literal denotes. *)
Lemma parse_string (s t : string) :
  json.parse s = Some (VString t) ->
  exists body rest,
    json.skip_space s = String dquote body
    /\ json.string_body 0 body = Some (t, rest).
Proof.
  unfold json.parse.
  destruct (json.value_p _ _ _) as [[v r]|] eqn:V; [|discriminate]. cbn.
  destruct (json.skip_space r); [|discriminate]. intros [= ->].
  apply value_p_string in V as [body [E B]]. exists body, r. split; assumption.
Qed.

Lemma strToObj_valid (s : string) :
  json.Valid s = true -> json.parse s = Some (strToObj s).
Proof.
  unfold strToObj, json.Valid, json.Unmarshal.
  destruct (json.parse s); [reflexivity | discriminate].
Qed.

Lemma composeMessage_string (st : state) (s : string) :
  composeMessage st [VString s] = Ok (strToObj (redacted st s)).
Proof.
  cbn [composeMessage adaptMessage]. unfold redacted, redacting.
  destruct (obscureSensitiveDataEnabled st && _); reflexivity.
Qed.

Lemma render_compact (st : state) (level : string) (v : value) (m : string) :
  json.Marshal v = Some m ->
  JSONPrettyPrint st = false -> colorEnabled st = false ->
  traceCallerEnabled st = false ->
  render st (envelope st level v)
  = compact level m (Time (envelope st level v)).
Proof.
  intros M P C T. unfold render, Marshal_record, envelope, compact.
  cbn [Level Message Time File Function]. rewrite P, C, T, M. cbn.
  rewrite !append_assoc. reflexivity.
Qed.

(** C1.  For a single string argument, the message is what [strToObj]
    makes of the string after redaction, if any: when that text is valid
    JSON, the value it decodes to -- a string only when the text is itself
    a string literal -- which the record carries in its own JSON encoding;
    when it is not valid JSON, the text itself as a string. *)
Theorem C1_single_string_is_parsed_or_literal
  (st : state) (s : string) (level : string) :
  plain_params st = true ->
  composeMessage st [VString s] = Ok (strToObj (redacted st s))
  /\ (json.Valid (redacted st s) = true ->
      json.parse (redacted st s) = Some (strToObj (redacted st s))
      /\ (forall t, strToObj (redacted st s) = VString t ->
            exists body rest,
              json.skip_space (redacted st s) = String dquote body
              /\ json.string_body 0 body = Some (t, rest))
      /\ (forall m, json.Marshal (strToObj (redacted st s)) = Some m ->
            JSONPrettyPrint st = false -> colorEnabled st = false ->
            traceCallerEnabled st = false ->
            composeLog st level [VString s]
            = Ok (compact level m
                    (Time (envelope st level (strToObj (redacted st s)))))))
  /\ (json.Valid (redacted st s) = false ->
      strToObj (redacted st s) = VString (redacted st s)).
Proof.
  intros _. split; [apply composeMessage_string|]. split.
  - intros V. pose proof (strToObj_valid _ V) as P. split; [exact P|]. split.
    + intros t E. rewrite E in P. exact (parse_string _ _ P).
    + intros m M PP C T. rewrite composeLog_render, composeMessage_string.
      cbn [bind]. f_equal. apply render_compact; assumption.
  - intros V. unfold strToObj. rewrite V. reflexivity.
Qed.

End Envelope.

(** ** The redactor *)

Section Regexp_fragment.
Import regexp.

Lemma HasPrefix_append (p x : string) : strings.HasPrefix (p +:+ x) p = true.
Proof.
  induction p as [|c p IH]; [reflexivity|].
  cbn [append strings.HasPrefix]. rewrite Ascii.eqb_refl. exact IH.
Qed.

Lemma sdrop_append (p x : string) : sdrop (String.length p) (p +:+ x) = x.
Proof. induction p as [|c p IH]; [reflexivity | exact IH]. Qed.

Lemma replace_loop_skip (re : Regexp) (repl : string) (k : nat) (s : string) :
  replace_loop re repl k s = replace_loop re repl O (sdrop k s).
Proof.
  revert k. induction s as [|c s IH]; intros k.
  - rewrite sdrop_nil. destruct k; reflexivity.
  - destruct k; [reflexivity|]. cbn [replace_loop sdrop]. apply IH.
Qed.

Lemma match_here_lazy (re : Regexp) (s : string) :
  match_here (LazyAny :: re) s
  = match match_here re s with
    | Some n => Some n
    | None =>
        match s with
        | String c s' =>
            if Ascii.eqb c newline then None
            else option_map S (match_here (LazyAny :: re) s')
        | "" => None
        end
    end.
Proof. destruct s; reflexivity. Qed.

Lemma match_here_lit (l : string) (re : Regexp) (s : string) :
  match_here (Lit l :: re) s
  = if strings.HasPrefix s l
    then option_map (Nat.add (String.length l))
           (match_here re (sdrop (String.length l) s))
    else None.
Proof. reflexivity. Qed.

(** A pattern that starts with a byte the text does not hold matches
    nowhere, and the replacement changes nothing. *)
Lemma replace_absent_byte (b : ascii) (l : string) (re : Regexp)
  (repl s : string) :
  smem b s = false -> replace_loop (Lit (String b l) :: re) repl O s = s.
Proof.
  induction s as [|c s IH]; [reflexivity|].
  cbn [smem]. intros N. apply orb_false_elim in N as [N1 N2].
  cbn [replace_loop]. rewrite match_here_lit. cbn [strings.HasPrefix].
  rewrite N1. cbn [andb]. rewrite IH by exact N2. reflexivity.
Qed.

Lemma Index_nonneg_or_absent (s sub : string) :
  strings.Index s sub = -1 \/ 0 <= strings.Index s sub.
Proof.
  induction s as [|c s IH]; cbn [strings.Index].
  - destruct (strings.HasPrefix "" sub); [right; lia | left; reflexivity].
  - destruct (strings.HasPrefix (String c s) sub); [right; lia|].
    destruct (Z.ltb_spec (strings.Index s sub) 0); [left; reflexivity | right; lia].
Qed.

(** No match starts before the first occurrence of the leading literal. *)
Lemma replace_before_Index (key : string) (re : Regexp) (repl pre rest : string) :
  strings.Index (pre +:+ rest) key = Z.of_nat (String.length pre) ->
  replace_loop (Lit key :: re) repl O (pre +:+ rest)
  = pre +:+ replace_loop (Lit key :: re) repl O rest.
Proof.
  induction pre as [|c pre IH]; [reflexivity|].
  cbn [append strings.Index String.length]. intros I.
  destruct (strings.HasPrefix (String c (pre +:+ rest)) key) eqn:P; [lia|].
  destruct (Z.ltb_spec (strings.Index (pre +:+ rest) key) 0) as [L|L]; [lia|].
  cbn [replace_loop]. rewrite match_here_lit, P. rewrite IH by lia. reflexivity.
Qed.

Lemma replace_absent_Index (key : string) (re : Regexp) (repl s : string) :
  strings.Index s key = -1 -> replace_loop (Lit key :: re) repl O s = s.
Proof.
  induction s as [|c s IH]; [reflexivity|].
  cbn [strings.Index]. intros I.
  destruct (strings.HasPrefix (String c s) key) eqn:P; [lia|].
  destruct (Z.ltb_spec (strings.Index s key) 0) as [L|L].
  - cbn [replace_loop]. rewrite match_here_lit, P. rewrite IH; [reflexivity|].
    destruct (Index_nonneg_or_absent s key); lia.
  - lia.
Qed.

(** The lazy star stops at the first quote after which the rest matches. *)
Lemma match_here_lazy_quote (re : Regexp) (x rest : string) (n : nat) :
  smem dquote x = false -> smem newline x = false ->
  match_here re rest = Some n ->
  match_here (LazyAny :: Lit Q :: re) (x +:+ String dquote rest)
  = Some (String.length x + S n)%nat.
Proof.
  intros D N M. unfold Q. induction x as [|c x IH].
  - rewrite match_here_lazy, match_here_lit.
    cbn [append strings.HasPrefix String.length sdrop].
    rewrite Ascii.eqb_refl. cbn [andb]. rewrite M. reflexivity.
  - cbn [smem] in D, N.
    apply orb_false_elim in D as [D1 D2]. apply orb_false_elim in N as [N1 N2].
    rewrite match_here_lazy, match_here_lit.
    cbn [append strings.HasPrefix String.length sdrop].
    rewrite D1. cbn [andb]. rewrite Ascii.eqb_sym, N1.
    rewrite (IH D2 N2). reflexivity.
Qed.

(** A key, a gap, and a quoted value, neither with a quote or a line feed
    inside: the pattern of [obscureParam] matches them and stops at the
    closing quote. *)
Lemma match_here_key_value (key gap v post : string) :
  smem dquote gap = false -> smem newline gap = false ->
  smem dquote v = false -> smem newline v = false ->
  match_here [Lit key; LazyAny; Lit Q; LazyAny; Lit Q]
    (key +:+ gap +:+ String dquote (v +:+ String dquote post))
  = Some (String.length key + (String.length gap + S (String.length v + 1)))%nat.
Proof.
  intros Dg Ng Dv Nv. rewrite match_here_lit, HasPrefix_append, sdrop_append.
  rewrite (match_here_lazy_quote [LazyAny; Lit Q] gap _ (String.length v + 1) Dg Ng).
  - reflexivity.
  - rewrite (match_here_lazy_quote [] v post 0 Dv Nv); [reflexivity|reflexivity].
Qed.

End Regexp_fragment.

Section Redactor.
Context `{Float64} `{!Printf} `{Decls}.
Import regexp.

Lemma replace_at_match (re : Regexp) (repl : string) (c : ascii) (t : string)
  (n : nat) :
  match_here re (String c t) = Some (S n) ->
  replace_loop re repl O (String c t)
  = repl +:+ replace_loop re repl O (sdrop (S n) (String c t)).
Proof.
  intros M. cbn [replace_loop sdrop]. rewrite M, replace_loop_skip. reflexivity.
Qed.

Lemma sdrop_add_append (x y : string) (b : nat) :
  sdrop (String.length x + b) (x +:+ y) = sdrop b y.
Proof. induction x as [|c x IH]; [reflexivity | exact IH]. Qed.

(** On a text without a backslash the first pattern of [obscureParam]
    matches nowhere, and the second one does the work. *)
Lemma obscureParam_no_backslash (s f : string) :
  smem "\" s = false ->
  obscureParam s f
  = replace_loop [Lit (key_text f); LazyAny; Lit Q; LazyAny; Lit Q]
      (masked f) O s.
Proof.
  intros B. unfold obscureParam, ReplaceAllString. cbn [append].
  rewrite replace_absent_byte by exact B. reflexivity.
Qed.

Lemma obscureParam_absent (s f : string) :
  smem "\" s = false -> strings.Index s (key_text f) = -1 ->
  obscureParam s f = s.
Proof.
  intros B I. rewrite obscureParam_no_backslash by exact B.
  apply replace_absent_Index, I.
Qed.

(** The first occurrence of a key, followed by a gap and a quoted value,
    is rewritten to the key and the mask; the text before it stays and the
    text after it is redacted in turn. *)
Lemma obscureParam_key_value (f pre gap v post : string) :
  let s := pre +:+ key_text f +:+ gap +:+ String dquote (v +:+ String dquote post) in
  smem "\" s = false ->
  strings.Index s (key_text f) = Z.of_nat (String.length pre) ->
  smem dquote gap = false -> smem newline gap = false ->
  smem dquote v = false -> smem newline v = false ->
  obscureParam s f = pre +:+ masked f +:+ obscureParam post f.
Proof.
  intros s B I Dg Ng Dv Nv. subst s.
  assert (Bp : smem "\" post = false).
  { rewrite !smem_append in B. cbn [smem] in B. rewrite smem_append in B.
    cbn [smem] in B. repeat (apply orb_false_elim in B as [? B]). exact B. }
  rewrite obscureParam_no_backslash by exact B.
  rewrite (obscureParam_no_backslash post) by exact Bp.
  rewrite replace_before_Index by exact I. f_equal.
  pose proof (match_here_key_value (key_text f) gap v post Dg Ng Dv Nv) as M.
  remember (key_text f +:+ gap +:+ String dquote (v +:+ String dquote post)) as u eqn:U.
  assert (L : exists n, (String.length (key_text f)
                         + (String.length gap + S (String.length v + 1)))%nat = S n)
    by (eexists; unfold key_text, Q; cbn [append String.length]; reflexivity).
  destruct L as [n L]. rewrite L in M.
  assert (C : exists c t, u = String c t)
    by (subst u; unfold key_text, Q; cbn [append]; eauto).
  destruct C as [c [t C]]. rewrite C in M |- *.
  rewrite (replace_at_match _ _ c t n M). f_equal. f_equal.
  rewrite <- C, <- L, U. rewrite sdrop_add_append.
  rewrite sdrop_add_append. cbn [sdrop].
  rewrite sdrop_add_append. reflexivity.
Qed.

End Redactor.

Section Redaction.
Context `{Float64} `{!Printf} `{Decls}.

Lemma redacted_single (st : state) (f s : string) :
  obscureSensitiveDataEnabled st = true -> sensitiveParams st = [f] ->
  redacted st s = obscureParam s f.
Proof.
  intros E P. unfold redacted, redacting, obscureSensitiveData.
  rewrite E, P. reflexivity.
Qed.

(** With redaction enabled for one field name free of pattern
    metacharacters, in a text without a backslash where the key of the
    field first occurs followed by a gap and a quoted value, gap and value
    holding no quote and no line feed: the key and its value are rewritten
    to the key and the mask, the text before them is unchanged, the text
    after them is redacted in turn and is unchanged when the key does not
    occur in it; the message of a call with that text as its single
    argument is what [strToObj] makes of the redacted text. *)
Theorem first_quoted_value_is_masked
  (st : state) (f pre gap v post : string) :
  obscureSensitiveDataEnabled st = true ->
  sensitiveParams st = [f] ->
  regexp.plain f = true ->
  smem "\" (around f pre gap v post) = false ->
  strings.Index (around f pre gap v post) (key_text f)
    = Z.of_nat (String.length pre) ->
  smem dquote gap = false -> smem newline gap = false ->
  smem dquote v = false -> smem newline v = false ->
  redacted st (around f pre gap v post)
    = pre +:+ masked f +:+ redacted st post
  /\ (strings.Index post (key_text f) = -1 -> redacted st post = post)
  /\ composeMessage st [VString (around f pre gap v post)]
     = Ok (strToObj (pre +:+ masked f +:+ redacted st post)).
Proof.
  intros E P _ B I Dg Ng Dv Nv.
  assert (R : redacted st (around f pre gap v post)
              = pre +:+ masked f +:+ redacted st post).
  { rewrite !(redacted_single st f) by assumption.
    apply (obscureParam_key_value f pre gap v post); assumption. }
  split; [exact R|]. split.
  - intros A. rewrite (redacted_single st f) by assumption.
    apply obscureParam_absent; [|exact A].
    unfold around in B. rewrite !smem_append in B.
    repeat (apply orb_false_elim in B as [? B]). exact B.
  - rewrite composeMessage_string, R. reflexivity.
Qed.

End Redaction.

(** ** Redaction of flat objects *)

Section Flat_text.
Import regexp.
Variable f : string.

Lemma all_bytes_smem (p : ascii -> bool) (c : ascii) (s : string) :
  all_bytes p s = true -> p c = false -> smem c s = false.
Proof.
  intros A P. induction s as [|d s IH]; [reflexivity|].
  cbn [all_bytes] in A. apply andb_prop in A as [A1 A2]. cbn [smem].
  rewrite (IH A2). destruct (Ascii.eqb_spec c d) as [->|]; [congruence | reflexivity].
Qed.

Lemma name_is_value_byte (c : ascii) : name_byte c = true -> value_byte c = true.
Proof.
  unfold name_byte, value_byte, in_range.
  destruct c as [[] [] [] [] [] [] [] []]; vm_compute; congruence.
Qed.

Lemma all_name_value (s : string) :
  all_bytes name_byte s = true -> all_bytes value_byte s = true.
Proof.
  induction s as [|c s IH]; [reflexivity|]. cbn [all_bytes]. intros A.
  apply andb_prop in A as [A1 A2]. rewrite (name_is_value_byte c A1), (IH A2).
  reflexivity.
Qed.

Lemma replace_byte (c : ascii) (t repl : string) :
  Ascii.eqb dquote c = false ->
  replace_loop (re2 f) repl O (String c t) = String c (replace_loop (re2 f) repl O t).
Proof.
  intros N. cbn [replace_loop]. unfold re2 at 1. rewrite match_here_lit.
  unfold key_text, Q. cbn [append strings.HasPrefix]. rewrite N. reflexivity.
Qed.

Lemma replace_run (x t repl : string) :
  smem dquote x = false ->
  replace_loop (re2 f) repl O (x +:+ t) = x +:+ replace_loop (re2 f) repl O t.
Proof.
  induction x as [|c x IH]; [reflexivity|]. cbn [smem]. intros N.
  apply orb_false_elim in N as [N1 N2]. cbn [append].
  rewrite replace_byte by exact N1. rewrite IH by exact N2. reflexivity.
Qed.

Lemma replace_quote (t repl : string) :
  strings.HasPrefix t (f +:+ Q +:+ ":") = false ->
  replace_loop (re2 f) repl O (String dquote t)
  = String dquote (replace_loop (re2 f) repl O t).
Proof.
  intros N. cbn [replace_loop]. unfold re2 at 1. rewrite match_here_lit.
  unfold key_text, Q in *. cbn [append strings.HasPrefix] in *.
  rewrite Ascii.eqb_refl, N. reflexivity.
Qed.

(** Two texts without a quote, each followed by a quote: one is a prefix
    of the other only when they are equal. *)
Lemma HasPrefix_to_quote (x y r r' : string) :
  smem dquote x = false -> smem dquote y = false ->
  strings.HasPrefix (x +:+ String dquote r) (y +:+ String dquote r') = true ->
  x = y /\ strings.HasPrefix r r' = true.
Proof.
  revert y. induction x as [|c x IH]; intros y Dx Dy P.
  - destruct y as [|d y].
    + cbn [append strings.HasPrefix] in P. rewrite Ascii.eqb_refl in P.
      split; [reflexivity | exact P].
    + cbn [append strings.HasPrefix] in P. cbn [smem] in Dy.
      apply orb_false_elim in Dy as [Dy _].
      rewrite Ascii.eqb_sym, Dy in P. discriminate.
  - cbn [smem] in Dx. apply orb_false_elim in Dx as [Dc Dx].
    destruct y as [|d y].
    + cbn [append strings.HasPrefix] in P. rewrite Dc in P. discriminate.
    + cbn [append strings.HasPrefix] in P. cbn [smem] in Dy.
      apply orb_false_elim in Dy as [_ Dy].
      apply andb_prop in P as [E P]. apply Ascii.eqb_eq in E. subst d.
      destruct (IH y Dx Dy P) as [-> R]. split; [reflexivity | exact R].
Qed.

Hypothesis f_name : all_bytes name_byte f = true.

Lemma f_no_quote : smem dquote f = false.
Proof. apply (all_bytes_smem name_byte); [exact f_name | reflexivity]. Qed.

Lemma other_head_no_key (g : string) (c : ascii) (rest : string) :
  all_bytes name_byte g = true -> name_byte c = false ->
  Ascii.eqb dquote c = false ->
  strings.HasPrefix (String c rest) (g +:+ Q +:+ ":") = false.
Proof.
  intros G C D. destruct g as [|d g].
  - unfold Q. cbn [append strings.HasPrefix]. rewrite D. reflexivity.
  - cbn [all_bytes] in G. apply andb_prop in G as [G _].
    cbn [append strings.HasPrefix].
    destruct (Ascii.eqb_spec d c) as [->|]; [congruence | reflexivity].
Qed.


Lemma colon_no_key (rest : string) :
  strings.HasPrefix (String ":" rest) (f +:+ Q +:+ ":") = false.
Proof. apply other_head_no_key; solve [exact f_name | reflexivity]. Qed.

Lemma flat_member_text (k v rest : string) :
  flat_member (k, v) +:+ rest
  = String dquote (k +:+ String dquote
      (String ":" (String dquote (v +:+ String dquote rest)))).
Proof.
  unfold flat_member, Q. cbn [fst snd]. rewrite ?append_assoc. cbn [append].
  rewrite ?append_assoc. reflexivity.
Qed.





End Flat_text.

Section Flat_object.
Context `{Float64} `{!Printf} `{Decls}.
Variable f : string.
Hypothesis f_name : all_bytes name_byte f = true.

Lemma value_byte_facts (c : ascii) :
  value_byte c = true ->
  Ascii.eqb c dquote = false /\ (code c <? 32)%N = false
  /\ Ascii.eqb c json.backslash = false /\ (code c <? 128)%N = true.
Proof.
  unfold value_byte, in_range. intros V.
  apply andb_prop in V as [V B]. apply andb_prop in V as [V D].
  apply andb_prop in V as [L U].
  apply N.leb_le in L. apply N.leb_le in U.
  repeat split.
  - destruct (Ascii.eqb c dquote); [discriminate | reflexivity].
  - apply N.ltb_ge. exact L.
  - destruct (Ascii.eqb c json.backslash); [discriminate | reflexivity].
  - apply N.ltb_lt. lia.
Qed.

(** A string literal of plain bytes denotes its own text. *)
Lemma string_body_plain (x rest : string) :
  all_bytes value_byte x = true ->
  json.string_body 0 (x +:+ String dquote rest) = Some (x, rest).
Proof.
  induction x as [|c x IH]; intros A.
  - cbn [append json.string_body]. rewrite Ascii.eqb_refl. reflexivity.
  - cbn [all_bytes] in A. apply andb_prop in A as [V A].
    destruct (value_byte_facts c V) as [D [L [B U]]].
    cbn [append json.string_body]. rewrite D, L, B, U, (IH A). reflexivity.
Qed.

Lemma value_p_literal (fuel depth : nat) (v rest : string) :
  all_bytes value_byte v = true ->
  json.value_p (S fuel) depth (String dquote (v +:+ String dquote rest))
  = Some (VString v, rest).
Proof.
  intros V. cbn [json.value_p].
  change (Ascii.eqb dquote "{") with false.
  change (Ascii.eqb dquote "[") with false.
  rewrite Ascii.eqb_refl, (string_body_plain v rest V). reflexivity.
Qed.










End Flat_object.

Section Flat_redaction.
Context `{Float64} `{!Printf} `{Decls}.





(** Strings of safe bytes are quoted as they are. *)
Lemma quote_plain (x : string) :
  all_bytes json.htmlSafe x = true -> json.quote x = Q +:+ x +:+ Q.
Proof.
  intros A. unfold json.quote. f_equal.
  assert (E : json.quote_loop 0 x = x); [|rewrite E; reflexivity].
  induction x as [|c x IH]; [reflexivity|].
  cbn [all_bytes] in A. apply andb_prop in A as [S A].
  cbn [json.quote_loop]. rewrite S.
  assert (L : (code c <? 128)%N = true).
  { unfold json.htmlSafe, in_range in S. apply andb_prop in S as [S _].
    apply andb_prop in S as [_ U]. apply N.leb_le in U. apply N.ltb_lt. lia. }
  rewrite L, (IH A). reflexivity.
Qed.

Lemma name_is_safe_byte (c : ascii) : name_byte c = true -> json.htmlSafe c = true.
Proof.
  unfold name_byte, json.htmlSafe, in_range.
  destruct c as [[] [] [] [] [] [] [] []]; vm_compute; congruence.
Qed.

Lemma all_name_safe (s : string) :
  all_bytes name_byte s = true -> all_bytes json.htmlSafe s = true.
Proof.
  induction s as [|c s IH]; [reflexivity|]. cbn [all_bytes]. intros A.
  apply andb_prop in A as [A1 A2]. rewrite (name_is_safe_byte c A1), (IH A2).
  reflexivity.
Qed.

(** A map of flat fields is serialized to the flat object. *)
Lemma Marshal_fields (kvs : list (string * string)) :
  flat kvs = true -> marshal_safe kvs = true ->
  json.Marshal (VMap (fields kvs)) = Some (flat_object kvs).
Proof.
  intros F S. cbn [json.Marshal].
  match goal with
  | |- context [mbind _ (?members (fields kvs))] =>
      assert (E : members (fields kvs) = Some (map flat_member kvs))
  end.
  { induction kvs as [|kv kvs IH]; [reflexivity|].
    cbn [flat forallb] in F. apply andb_prop in F as [Fk F].
    apply andb_prop in Fk as [K _].
    cbn [marshal_safe forallb] in S. apply andb_prop in S as [V S].
    cbn [fields map fst snd json.Marshal]. fold (fields kvs).
    rewrite (IH F S). cbn [mbind option_bind].
    rewrite (quote_plain _ (all_name_safe _ K)), (quote_plain _ V).
    unfold flat_member. rewrite ?append_assoc. reflexivity. }
  rewrite E. reflexivity.
Qed.


End Flat_redaction.

(** ** Further properties of the pipeline *)

Section Further.
Context `{Float64} `{!Printf} `{Decls}.

(** No argument: the message is the empty string. *)
Lemma composeMessage_no_argument (st : state) :
  composeMessage st [] = Ok (VString "").
Proof. reflexivity. Qed.

(** A single argument that is not a string is the message as it is when
    nothing is redacted. *)
Lemma composeMessage_value_as_is (st : state) (m : value) :
  redacting st = false -> (forall s, m <> VString s) ->
  composeMessage st [m] = Ok m.
Proof.
  intros R N. unfold redacting in R.
  destruct m; cbn [composeMessage adaptMessage]; rewrite ?R; try reflexivity.
  exfalso. exact (N s eq_refl).
Qed.

(** With colours on, the record is the record without colours between
    the colour of its level and the reset sequence. *)
Lemma render_colours (st : state) (r : record) (jsn : string) :
  colorEnabled st = false -> render st r = jsn ->
  forall cm,
    render
      {| logLevel := logLevel st; logWriter := logWriter st;
         JSONPrettyPrint := JSONPrettyPrint st;
         obscureSensitiveDataEnabled := obscureSensitiveDataEnabled st;
         sensitiveParams := sensitiveParams st;
         traceCallerEnabled := traceCallerEnabled st;
         colorEnabled := true; colorMap := cm;
         now := now st; traceCaller := traceCaller st |} r
    = index_string cm (Level r) +:+ jsn +:+ colorReset.
Proof.
  intros C <- cm. unfold render. cbn [JSONPrettyPrint colorEnabled colorMap].
  rewrite C. reflexivity.
Qed.

Lemma threshold_at_most_fatal (name : string) (st : state) :
  ranks_increasing ->
  index_int logLevels fatalLabel >= logLevel (LogLevel name st).
Proof.
  intros (R0 & R1 & R2 & R3 & R4 & R5 & R6).
  unfold index_int at 1.
  rewrite (logLevels_known fatalLabel fatalLevel)
    by (cbn; tauto).
  cbn [default]. unfold LogLevel, index_int. cbn [logLevel set_logLevel].
  destruct (logLevels !! name) as [l|] eqn:L; cbn [default].
  - assert (K : l = traceLevel \/ l = debugLevel \/ l = infoLevel
                \/ l = warnLevel \/ l = errorLevel \/ l = panicLevel
                \/ l = fatalLevel).
    { unfold logLevels in L.
      repeat (rewrite lookup_insert in L;
              destruct (decide (_ = name)); [injection L as <-; tauto|]).
      rewrite lookup_empty in L. discriminate. }
    unfold id. destruct (l =? 0); lia.
  - unfold id. cbn. lia.
Qed.

(** Whatever level name the threshold was set from, [Fatal] writes its
    record once and then exits with status 1, when the record composes. *)
Lemma Fatal_writes_then_exits
  (name : string) (st : state) (message : list value) (r : string) :
  ranks_increasing ->
  composeLog st fatalLabel message = Ok r ->
  Fatal message (LogLevel name st) = Exited 1 (Fprintf (LogLevel name st) r).
Proof.
  intros R C. unfold Fatal, printLog.
  pose proof (threshold_at_most_fatal name st R) as T.
  destruct (Z.geb_spec (index_int logLevels fatalLabel)
              (logLevel (LogLevel name st))); [|lia].
  unfold LogLevel at 1. rewrite composeLog_threshold, C. reflexivity.
Qed.

End Further.

(** ** The entry points: panics *)

Section Panics.
Context `{Float64} `{!Printf} `{Decls}.

Lemma non_nil_nils (message : list value) :
  non_nil message = [] <-> forallb is_nil message = true.
Proof.
  unfold non_nil. induction message as [|m message IH]; [tauto|].
  cbn [List.filter forallb]. destruct (is_nil m); cbn [negb andb].
  - exact IH.
  - split; discriminate.
Qed.

(** [composeMessage] returns unless it is given two or more arguments that
    are all nil. *)
Lemma composeMessage_returns (st : state) (message : list value) :
  match composeMessage st message with
  | Ok _ => nils message = false
  | Raise p =>
      p = RuntimeError "slice bounds out of range [:-1]" /\ nils message = true
  end.
Proof.
  unfold nils. destruct message as [|m0 [|m1 rest]]; [reflexivity | reflexivity |].
  assert (S : match stringify (m0 :: m1 :: rest) with
              | Ok _ => forallb is_nil (m0 :: m1 :: rest) = false
              | Raise p =>
                  p = RuntimeError "slice bounds out of range [:-1]"
                  /\ forallb is_nil (m0 :: m1 :: rest) = true
              end).
  { destruct (non_nil (m0 :: m1 :: rest)) as [|x l] eqn:N.
    - rewrite stringify_all_nil by exact N. split; [reflexivity|].
      apply non_nil_nils, N.
    - rewrite stringify_join by (rewrite N; discriminate).
      destruct (forallb is_nil (m0 :: m1 :: rest)) eqn:F; [|reflexivity].
      apply non_nil_nils in F. congruence. }
  cbn [length Nat.leb andb].
  cbn [composeMessage].
  destruct m0; try (destruct (stringify _); cbn [bind]; exact S).
  destruct (strings.Contains s "%"); [reflexivity|].
  destruct (stringify _); cbn [bind]; exact S.
Qed.

Lemma composeLog_returns (st : state) (level : string) (message : list value) :
  match composeLog st level message with
  | Ok _ => nils message = false
  | Raise p =>
      p = RuntimeError "slice bounds out of range [:-1]" /\ nils message = true
  end.
Proof.
  rewrite composeLog_render. pose proof (composeMessage_returns st message) as C.
  destruct (composeMessage st message); exact C.
Qed.

(** With sensitive field names that are plain text, a call of trace,
    debug, info, warn, error or fatal panics exactly when its level reaches
    the threshold and it is given two or more arguments that are all nil,
    and then with the run-time error of [stringify], the state left as it
    was.  [Panic] carries that run-time error on such arguments and the
    text of its record on all others. *)
Theorem panics_exactly_on_nils (e : entry) (message : list value) (st : state) :
  plain_params st = true ->
  ((exists p st', call e message st = Panicked p st')
   <-> rank e >= logLevel st /\ nils message = true)
  /\ (nils message = true ->
      Panic message st
      = Panicked (RuntimeError "slice bounds out of range [:-1]") st)
  /\ (nils message = false ->
      exists r, composeLog st panicLabel message = Ok r
                /\ Panic message st = Panicked (PanicString r) st)
  /\ (forall p st', call e message st = Panicked p st' ->
        p = RuntimeError "slice bounds out of range [:-1]" /\ st' = st).
Proof.
  intros _.
  assert (K : call e message st
              = match printLog (label_of e) message st with
                | Ok st' => match e with EFatal => Exited 1 st' | _ => Returned st' end
                | Raise p => Panicked p st
                end).
  { destruct e; cbn [call label_of]; unfold Trace, Debug, Info, Warn, Error, Fatal, run;
      match goal with |- context [printLog ?l ?m ?s] => destruct (printLog l m s) end;
      reflexivity. }
  assert (P : match printLog (label_of e) message st with
              | Ok _ => ~ (rank e >= logLevel st /\ nils message = true)
              | Raise p => p = RuntimeError "slice bounds out of range [:-1]"
                           /\ rank e >= logLevel st /\ nils message = true
              end).
  { unfold printLog. fold (rank e).
    destruct (Z.geb_spec (rank e) (logLevel st)) as [G|G].
    - pose proof (composeLog_returns st (label_of e) message) as C.
      destruct (composeLog st (label_of e) message); cbn [bind].
      + intros [_ N]. congruence.
      + destruct C as [-> N]. repeat split; [lia | exact N].
    - intros [G' _]. lia. }
  split; [|split; [|split]].
  - rewrite K. destruct (printLog (label_of e) message st) as [st'|p].
    + split; [|intros Q; exfalso; exact (P Q)].
      intros [p [st'' E]]. destruct e; discriminate E.
    + split; [intros _; tauto | intros _; eauto].
  - intros N. unfold Panic.
    pose proof (composeLog_returns st panicLabel message) as C.
    destruct (composeLog st panicLabel message); [congruence|].
    destruct C as [-> _]. reflexivity.
  - intros N. unfold Panic.
    pose proof (composeLog_returns st panicLabel message) as C.
    destruct (composeLog st panicLabel message) as [r|p].
    + exists r. split; reflexivity.
    + destruct C as [_ C]. congruence.
  - intros p st' E. rewrite K in E.
    destruct (printLog (label_of e) message st) as [st''|p'].
    + destruct e; discriminate E.
    + injection E as <- <-. split; [tauto | reflexivity].
Qed.

End Panics.

(** ** [SetConfigs] *)

Section Config_props.
Context `{Float64} `{!Printf} `{Decls} `{Settings}.

Lemma state_ext (a b : state) :
  logLevel a = logLevel b -> logWriter a = logWriter b ->
  JSONPrettyPrint a = JSONPrettyPrint b ->
  obscureSensitiveDataEnabled a = obscureSensitiveDataEnabled b ->
  sensitiveParams a = sensitiveParams b ->
  traceCallerEnabled a = traceCallerEnabled b ->
  colorEnabled a = colorEnabled b -> colorMap a = colorMap b ->
  now a = now b -> traceCaller a = traceCaller b -> a = b.
Proof. destruct a, b. cbn. intros. subst. reflexivity. Qed.

(** The package variables after [SetConfigs]: a field that is given sets
    its variable, the others keep theirs. *)
Lemma SetConfigs_fields (c : Configs.t) (st : state) :
  local_configs c ->
  logLevel (SetConfigs c st)
  = match Configs.LogLevel c with
    | Some l => logLevel (LogLevel l st)
    | None => logLevel st
    end
  /\ logWriter (SetConfigs c st) = logWriter st
  /\ JSONPrettyPrint (SetConfigs c st)
     = default (JSONPrettyPrint st) (Configs.JSONPrettyPrint c)
  /\ obscureSensitiveDataEnabled (SetConfigs c st)
     = default (obscureSensitiveDataEnabled st) (Configs.ObscureSensitiveData c)
  /\ sensitiveParams (SetConfigs c st)
     = default (sensitiveParams st) (Configs.SensitiveParams c)
  /\ traceCallerEnabled (SetConfigs c st)
     = default (traceCallerEnabled st) (Configs.TraceCaller c)
  /\ colorEnabled (SetConfigs c st) = default (colorEnabled st) (Configs.Colors c)
  /\ colorMap (SetConfigs c st) = colorMap st
  /\ now (SetConfigs c st) = now st
  /\ traceCaller (SetConfigs c st) = traceCaller st.
Proof.
  intros [S C]. unfold SetConfigs. rewrite S, C.
  destruct (Configs.LogLevel c), (Configs.JSONPrettyPrint c),
    (Configs.TraceCaller c), (Configs.Colors c),
    (Configs.ObscureSensitiveData c), (Configs.SensitiveParams c);
    repeat split.
Qed.

(** Two configurations given one after the other act as the single
    configuration in which the later one wins where it sets a field; giving
    one twice is giving it once; the configuration that sets nothing
    changes nothing; and setting the redaction flag and the names together
    is [EnableObscureSensitiveData].  The configurations leave the setters
    of the other files alone. *)
Theorem SetConfigs_later_wins (c1 c2 : Configs.t) (st : state) :
  local_configs c1 -> local_configs c2 ->
  SetConfigs c2 (SetConfigs c1 st) = SetConfigs (then_configs c1 c2) st
  /\ SetConfigs c1 (SetConfigs c1 st) = SetConfigs c1 st
  /\ SetConfigs no_configs st = st
  /\ (forall ps,
        SetConfigs
          {| Configs.LogLevel := None; Configs.JSONPrettyPrint := None;
             Configs.TraceCaller := None; Configs.SinglePointTracing := None;
             Configs.Colors := None; Configs.CustomColors := None;
             Configs.ObscureSensitiveData := Some true;
             Configs.SensitiveParams := Some ps |} st
        = EnableObscureSensitiveData ps st).
Proof.
  intros L1 L2.
  assert (M : forall a b, local_configs a -> local_configs b ->
                SetConfigs b (SetConfigs a st) = SetConfigs (then_configs a b) st).
  { intros a b La Lb.
    assert (Lab : local_configs (then_configs a b)).
    { destruct La as [A1 A2], Lb as [B1 B2]. split; cbn; rewrite ?A1, ?A2, ?B1, ?B2;
        reflexivity. }
    destruct (SetConfigs_fields a st La) as (A0 & A1 & A2 & A3 & A4 & A5 & A6 & A7 & A8 & A9).
    destruct (SetConfigs_fields b (SetConfigs a st) Lb)
      as (B0 & B1 & B2 & B3 & B4 & B5 & B6 & B7 & B8 & B9).
    destruct (SetConfigs_fields (then_configs a b) st Lab)
      as (C0 & C1 & C2 & C3 & C4 & C5 & C6 & C7 & C8 & C9).
    apply state_ext; try congruence.
    - rewrite B0, C0, A0. cbn [then_configs Configs.LogLevel].
      destruct (Configs.LogLevel b), (Configs.LogLevel a); reflexivity.
    - rewrite B2, C2, A2. cbn [then_configs Configs.JSONPrettyPrint].
      destruct (Configs.JSONPrettyPrint b), (Configs.JSONPrettyPrint a); reflexivity.
    - rewrite B3, C3, A3. cbn [then_configs Configs.ObscureSensitiveData].
      destruct (Configs.ObscureSensitiveData b), (Configs.ObscureSensitiveData a);
        reflexivity.
    - rewrite B4, C4, A4. cbn [then_configs Configs.SensitiveParams].
      destruct (Configs.SensitiveParams b), (Configs.SensitiveParams a); reflexivity.
    - rewrite B5, C5, A5. cbn [then_configs Configs.TraceCaller].
      destruct (Configs.TraceCaller b), (Configs.TraceCaller a); reflexivity.
    - rewrite B6, C6, A6. cbn [then_configs Configs.Colors].
      destruct (Configs.Colors b), (Configs.Colors a); reflexivity. }
  split; [exact (M c1 c2 L1 L2)|]. split; [|split].
  - rewrite (M c1 c1 L1 L1). f_equal.
    destruct L1 as [S C]. destruct c1 as [o1 o2 o3 o4 o5 o6 o7 o8]. cbn in *. subst.
    unfold then_configs. cbn.
    destruct o1, o2, o3, o5, o7, o8; reflexivity.
  - reflexivity.
  - reflexivity.
Qed.

End Config_props.

(** ** Lost records, untouched texts, level selection *)

Section Lost.
Context `{Float64} `{!Printf} `{Decls}.

Lemma obscureSensitiveData_nil (st : state) : obscureSensitiveData st "" = "".
Proof.
  unfold obscureSensitiveData. induction (sensitiveParams st) as [|f ps IH];
    [reflexivity | exact IH].
Qed.

(** A single argument that [json.Marshal] refuses, the sensitive field
    names being plain text.  Without redaction the error is dropped with
    the whole record: the record text is empty (the colour sequences alone
    when colours are on) and the call writes the empty text.  With
    redaction the message is the empty string. *)
Theorem unmarshalable_argument_is_lost (e : entry) (st : state) (m : value) :
  plain_params st = true ->
  json.Marshal m = None ->
  (redacting st = false ->
   composeLog st (label_of e) [m]
   = Ok (if colorEnabled st
         then index_string (colorMap st) (label_of e) +:+ colorReset
         else "")
   /\ (colorEnabled st = false -> rank e >= logLevel st -> writes e [m] st ""))
  /\ (redacting st = true -> composeMessage st [m] = Ok (VString "")).
Proof.
  intros _ M. split.
  - intros R.
    assert (A : composeMessage st [m] = Ok m).
    { pose proof R as R'. unfold redacting in R'.
      destruct m; cbn [composeMessage adaptMessage]; rewrite ?R'; try reflexivity.
      discriminate M. }
    assert (C : composeLog st (label_of e) [m]
                = Ok (if colorEnabled st
                      then index_string (colorMap st) (label_of e) +:+ colorReset
                      else "")).
    { rewrite composeLog_render, A.
      cbn [bind]. unfold render, Marshal_record, envelope.
      cbn [Message Level]. rewrite M. cbn.
      destruct (JSONPrettyPrint st), (colorEnabled st); reflexivity. }
    split; [exact C|]. intros Col G. rewrite Col in C.
    unfold writes. rewrite (call_logWriter e [m] st "" C).
    destruct (Z.geb_spec (rank e) (logLevel st)); [reflexivity | lia].
  - intros R. unfold redacting in R.
    destruct m; try discriminate M; cbn [composeMessage adaptMessage];
      rewrite R; cbv zeta; rewrite M; cbn [default];
      rewrite obscureSensitiveData_nil; reflexivity.
Qed.

End Lost.

Section Absent.
Context `{Float64} `{!Printf} `{Decls}.

Lemma HasPrefix_Contains (s k : string) :
  strings.HasPrefix s k = true -> strings.Contains s k = true.
Proof. intros P. destruct s; cbn [strings.Contains]; rewrite P; reflexivity. Qed.

Lemma Contains_cons (c : ascii) (s k : string) :
  strings.Contains s k = true -> strings.Contains (String c s) k = true.
Proof. intros C. cbn [strings.Contains]. rewrite C. apply orb_true_r. Qed.

Lemma Contains_tail (x : ascii) (s k : string) :
  strings.Contains s (String x k) = true -> strings.Contains s k = true.
Proof.
  induction s as [|c s IH].
  - cbn. discriminate.
  - cbn [strings.Contains strings.HasPrefix]. intros C.
    apply orb_prop in C as [C|C].
    + apply andb_prop in C as [_ C]. apply Contains_cons, HasPrefix_Contains, C.
    + apply Contains_cons, IH, C.
Qed.

Lemma HasPrefix_front (s a b : string) :
  strings.HasPrefix s (a +:+ b) = true -> strings.HasPrefix s a = true.
Proof.
  revert s. induction a as [|x a IH]; intros s; [reflexivity|].
  cbn [append strings.HasPrefix]. destruct s as [|c s]; [discriminate|].
  intros P. apply andb_prop in P as [E P]. rewrite E, (IH s P). reflexivity.
Qed.

Lemma Contains_front (s a b : string) :
  strings.Contains s (a +:+ b) = true -> strings.Contains s a = true.
Proof.
  induction s as [|c s IH]; cbn [strings.Contains]; intros C.
  - rewrite orb_false_r in C. rewrite (HasPrefix_front _ _ _ C). reflexivity.
  - apply orb_prop in C as [C|C].
    + rewrite (HasPrefix_front _ _ _ C). reflexivity.
    + rewrite (IH C). apply orb_true_r.
Qed.

Lemma Index_absent (s k : string) :
  strings.Contains s k = false -> strings.Index s k = -1.
Proof.
  induction s as [|c s IH]; cbn [strings.Contains strings.Index]; intros C;
    apply orb_false_elim in C as [P C]; rewrite P; [reflexivity|].
  rewrite (IH C). reflexivity.
Qed.

(** A text that does not hold the name of a field is left as it is. *)
Lemma obscureParam_unmentioned (s f : string) :
  strings.Contains s f = false -> obscureParam s f = s.
Proof.
  intros C. unfold obscureParam, regexp.ReplaceAllString.
  assert (A : forall k, strings.Contains s (f +:+ k) = false).
  { intros k. destruct (strings.Contains s (f +:+ k)) eqn:E; [|reflexivity].
    rewrite (Contains_front _ _ _ E) in C. discriminate. }
  assert (I1 : strings.Index s ("\" +:+ Q +:+ f +:+ "\" +:+ Q +:+ ":") = -1).
  { apply Index_absent. unfold Q. cbn [append].
    match goal with
    | |- strings.Contains s ?k = false => destruct (strings.Contains s k) eqn:E
    end; [|reflexivity].
    apply Contains_tail, Contains_tail in E. rewrite A in E. discriminate. }
  assert (I2 : strings.Index s (Q +:+ f +:+ Q +:+ ":") = -1).
  { apply Index_absent. unfold Q. cbn [append].
    match goal with
    | |- strings.Contains s ?k = false => destruct (strings.Contains s k) eqn:E
    end; [|reflexivity].
    apply Contains_tail in E. rewrite A in E. discriminate. }
  rewrite (replace_absent_Index _ _ _ s I1).
  apply replace_absent_Index, I2.
Qed.

(** A text that holds none of the sensitive field names is left as it is
    by the redactor, and the message is what [strToObj] makes of it. *)
Theorem unmentioned_names_change_nothing (st : state) (s : string) :
  plain_params st = true ->
  forallb (fun f => negb (strings.Contains s f)) (sensitiveParams st) = true ->
  obscureSensitiveData st s = s
  /\ composeMessage st [VString s] = Ok (strToObj s).
Proof.
  intros _ A.
  assert (O : obscureSensitiveData st s = s).
  { unfold obscureSensitiveData. induction (sensitiveParams st) as [|f ps IH];
      [reflexivity|].
    cbn [forallb] in A. apply andb_prop in A as [Af A].
    cbn [fold_left]. rewrite obscureParam_unmentioned; [exact (IH A)|].
    destruct (strings.Contains s f); [discriminate | reflexivity]. }
  split; [exact O|].
  rewrite composeMessage_string. unfold redacted. rewrite O.
  destruct (redacting st); reflexivity.
Qed.

End Absent.

Section Selection.
Context `{Float64} `{!Printf} `{Decls}.

(** After [LogLevel(name)] a call whose record composes writes exactly
    when the rank of its level is at least the rank of [name], or the rank
    of info when [name] is no level name; it is silent exactly when it is
    below. *)
Theorem LogLevel_selects_entries
  (name : string) (e : entry) (message : list value) (st : state) (r : string) :
  ranks_nonzero -> plain_params st = true ->
  composeLog st (label_of e) message = Ok r ->
  (forall t, In (name, t) level_table ->
     (writes e message (LogLevel name st) (fmt.Sprintf0 r) <-> t <= rank e)
     /\ (silent e message (LogLevel name st) <-> rank e < t))
  /\ (~ In name (map fst level_table) ->
      (writes e message (LogLevel name st) (fmt.Sprintf0 r)
       <-> infoLevel <= rank e)
      /\ (silent e message (LogLevel name st) <-> rank e < infoLevel)).
Proof.
  intros NZ _ C.
  assert (W : forall t, logLevel (LogLevel name st) = t ->
            (writes e message (LogLevel name st) (fmt.Sprintf0 r) <-> t <= rank e)
            /\ (silent e message (LogLevel name st) <-> rank e < t)).
  { intros t T. unfold writes, silent.
    rewrite (call_logWriter e message (LogLevel name st) r)
      by (unfold LogLevel; rewrite composeLog_threshold; exact C).
    rewrite T. replace (logWriter (LogLevel name st)) with (logWriter st) by reflexivity.
    destruct (Z.geb_spec (rank e) t) as [G|G].
    - split.
      + split; [lia | intros _; reflexivity].
      + split; [|lia]. intros E. exfalso. exact (snoc_neq _ _ E).
    - split.
      + split; [|lia]. intros E. symmetry in E. exfalso. exact (snoc_neq _ _ E).
      + split; [lia | intros _; reflexivity]. }
  split.
  - intros t I. apply W. unfold LogLevel, index_int.
    rewrite (logLevels_known name t I). cbn.
    unfold ranks_nonzero in NZ. rewrite Forall_forall in NZ.
    specialize (NZ (name, t)). cbn in NZ.
    destruct (Z.eqb_spec t 0) as [E|E]; [|reflexivity].
    exfalso. apply NZ; [|exact E]. apply list_elem_of_In. exact I.
  - intros N. apply W. unfold LogLevel, index_int.
    rewrite (logLevels_unknown name N). reflexivity.
Qed.

End Selection.

(** ** Redaction of object texts *)

Section Object_text.
Import regexp.

Lemma srepeat_no (c d : ascii) (n : nat) :
  Ascii.eqb c d = false -> smem c (srepeat d n) = false.
Proof. intros N. induction n as [|n IH]; [reflexivity|]. cbn. rewrite N, IH. reflexivity. Qed.

Lemma space_no_quote (s : string) :
  all_bytes json.is_space s = true -> smem dquote s = false.
Proof. intros A. apply (all_bytes_smem json.is_space); [exact A | reflexivity]. Qed.

Lemma member_text_core (m : member) : member_text m = m_lead m +:+ member_core m.
Proof. reflexivity. Qed.

Lemma member_core_text (m : member) (rest : string) :
  member_core m +:+ rest
  = String dquote (m_key m +:+ String dquote
      (String ":" (srepeat " " (m_gap m) +:+ String dquote
         (m_val m +:+ String dquote rest)))).
Proof.
  unfold member_core, Q. rewrite ?append_assoc. cbn [append].
  rewrite ?append_assoc. cbn [append]. rewrite ?append_assoc. reflexivity.
Qed.

Lemma closes_no_key (g rest : string) :
  all_bytes name_byte g = true -> closes rest = true ->
  strings.HasPrefix rest (g +:+ Q +:+ ":") = false.
Proof.
  intros G C. destruct rest as [|c rest].
  - destruct g; reflexivity.
  - cbn [closes] in C. apply other_head_no_key; [exact G|..].
    + destruct c as [[] [] [] [] [] [] [] []]; vm_compute in C |- *; congruence.
    + destruct c as [[] [] [] [] [] [] [] []]; vm_compute in C |- *; congruence.
Qed.

Lemma closes_no_colon (rest : string) :
  closes rest = true -> strings.HasPrefix rest ":" = false.
Proof.
  destruct rest as [|c rest]; [reflexivity|]. cbn [closes strings.HasPrefix].
  intros C. destruct c as [[] [] [] [] [] [] [] []]; vm_compute in C |- *; congruence.
Qed.

(** The pattern of a field rewrites its key, the gap and the value after
    it to the key and the mask. *)
Lemma replace_key_value (f gap v post : string) :
  smem dquote gap = false -> smem newline gap = false ->
  smem dquote v = false -> smem newline v = false ->
  replace_loop (re2 f) (masked f) O
    (key_text f +:+ gap +:+ String dquote (v +:+ String dquote post))
  = masked f +:+ replace_loop (re2 f) (masked f) O post.
Proof.
  intros Dg Ng Dv Nv.
  pose proof (match_here_key_value (key_text f) gap v post Dg Ng Dv Nv) as M.
  remember (key_text f +:+ gap +:+ String dquote (v +:+ String dquote post)) as u eqn:U.
  assert (L : exists n, (String.length (key_text f)
                         + (String.length gap + S (String.length v + 1)))%nat = S n)
    by (eexists; unfold key_text, Q; cbn [append String.length]; reflexivity).
  destruct L as [n L]. rewrite L in M.
  assert (C : exists c t, u = String c t)
    by (subst u; unfold key_text, Q; cbn [append]; eauto).
  destruct C as [c [t C]]. rewrite C in M |- *.
  unfold re2 at 1. rewrite (replace_at_match _ _ c t n M). f_equal.
  rewrite <- C, <- L, U. rewrite sdrop_add_append.
  rewrite sdrop_add_append. cbn [sdrop].
  rewrite sdrop_add_append. reflexivity.
Qed.

Lemma mask_member_one (g : string) (m : member) :
  mask_member [g] m
  = if String.eqb (m_key m) g
    then {| m_lead := m_lead m; m_key := m_key m; m_gap := 1; m_val := mask |}
    else m.
Proof.
  unfold mask_member, sensitive. cbn [existsb]. rewrite orb_false_r. reflexivity.
Qed.

(** One member under the pattern of the field [g]. *)
Lemma replace_member_text (g : string) (m : member) (rest : string) :
  all_bytes name_byte g = true -> plain_member m = true -> closes rest = true ->
  replace_loop (re2 g) (masked g) O (member_text m +:+ rest)
  = member_text (mask_member [g] m) +:+ replace_loop (re2 g) (masked g) O rest.
Proof.
  intros G P C. unfold plain_member in P.
  apply andb_prop in P as [P V]. apply andb_prop in P as [L K].
  assert (Dl : smem dquote (m_lead m) = false) by (apply space_no_quote, L).
  assert (Dk : smem dquote (m_key m) = false)
    by (apply (all_bytes_smem name_byte); [exact K | reflexivity]).
  assert (Dv : smem dquote (m_val m) = false)
    by (apply (all_bytes_smem value_byte); [exact V | reflexivity]).
  assert (Nv : smem newline (m_val m) = false)
    by (apply (all_bytes_smem value_byte); [exact V | reflexivity]).
  assert (Ds : smem dquote (srepeat " " (m_gap m)) = false)
    by (apply srepeat_no; reflexivity).
  assert (Ns : smem newline (srepeat " " (m_gap m)) = false)
    by (apply srepeat_no; reflexivity).
  rewrite mask_member_one, !member_text_core, !append_assoc.
  rewrite replace_run by exact Dl.
  destruct (String.eqb_spec (m_key m) g) as [E|N].
  - cbn [m_lead]. f_equal.
    assert (T : member_core m +:+ rest
                = key_text g +:+ srepeat " " (m_gap m)
                    +:+ String dquote (m_val m +:+ String dquote rest)).
    { unfold member_core, key_text, Q. rewrite E. rewrite ?append_assoc.
      cbn [append]. rewrite ?append_assoc. cbn [append]. rewrite ?append_assoc.
      reflexivity. }
    rewrite T, replace_key_value by assumption. f_equal.
    unfold member_core, masked, Q. cbn [m_key m_gap m_val srepeat]. rewrite E.
    rewrite ?append_assoc. reflexivity.
  - f_equal. rewrite !member_core_text.
    rewrite replace_quote.
    2:{ destruct (strings.HasPrefix _ _) eqn:H; [|reflexivity].
        apply (HasPrefix_to_quote _ g _ _ Dk (f_no_quote g G)) in H as [E _].
        congruence. }
    rewrite replace_run by exact Dk.
    rewrite replace_quote by (apply colon_no_key; exact G).
    rewrite replace_byte by reflexivity.
    rewrite replace_run by exact Ds.
    rewrite replace_quote.
    2:{ destruct (strings.HasPrefix _ _) eqn:H; [|reflexivity].
        apply (HasPrefix_to_quote _ g _ _ Dv (f_no_quote g G)) in H as [_ H].
        rewrite (closes_no_colon rest C) in H. discriminate H. }
    rewrite replace_run by exact Dv.
    rewrite replace_quote by (apply closes_no_key; assumption).
    reflexivity.
Qed.

Lemma closes_trail (trail rest : string) :
  all_bytes json.is_space trail = true -> closes (trail +:+ String "}" rest) = true.
Proof.
  destruct trail as [|c trail]; [reflexivity|]. cbn [all_bytes append closes].
  intros A. apply andb_prop in A as [A _]. rewrite A. apply orb_true_r.
Qed.

Lemma sjoin_cons (sep x : string) (y : string) (l : list string) :
  sjoin sep (x :: y :: l) = x +:+ sep +:+ sjoin sep (y :: l).
Proof. reflexivity. Qed.

(** The members of an object text under the pattern of the field [g]. *)
Lemma replace_member_texts (g : string) (ms : list member) (trail : string) :
  all_bytes name_byte g = true -> forallb plain_member ms = true ->
  all_bytes json.is_space trail = true ->
  replace_loop (re2 g) (masked g) O
    (sjoin "," (map member_text ms) +:+ trail +:+ "}")
  = sjoin "," (map member_text (map (mask_member [g]) ms)) +:+ trail +:+ "}".
Proof.
  intros G P T.
  assert (E : replace_loop (re2 g) (masked g) O (trail +:+ "}") = trail +:+ "}").
  { rewrite replace_run by (apply space_no_quote, T).
    rewrite replace_byte by reflexivity. reflexivity. }
  induction ms as [|m ms IH]; [exact E|].
  cbn [forallb] in P. apply andb_prop in P as [Pm P].
  destruct ms as [|m' ms].
  - cbn [map sjoin]. rewrite replace_member_text; try assumption.
    + rewrite E. reflexivity.
    + apply closes_trail, T.
  - cbn [map]. rewrite !sjoin_cons. cbn [map] in IH. rewrite !append_assoc.
    rewrite replace_member_text; try assumption; [|reflexivity].
    cbn [append]. rewrite replace_byte by reflexivity.
    rewrite (IH P). rewrite ?append_assoc. reflexivity.
Qed.

Lemma replace_object_text (g : string) (ms : list member) (trail : string) :
  all_bytes name_byte g = true -> forallb plain_member ms = true ->
  all_bytes json.is_space trail = true ->
  replace_loop (re2 g) (masked g) O (object_text ms trail)
  = object_text (map (mask_member [g]) ms) trail.
Proof.
  intros G P T. unfold object_text. cbn [append].
  rewrite replace_byte by reflexivity.
  rewrite replace_member_texts by assumption. reflexivity.
Qed.

(** Object texts hold no backslash. *)
Lemma member_no_backslash (m : member) :
  plain_member m = true -> smem "\" (member_text m) = false.
Proof.
  intros P. unfold plain_member in P.
  apply andb_prop in P as [P V]. apply andb_prop in P as [L K].
  unfold member_text, Q. rewrite !smem_append. cbn [smem].
  rewrite (all_bytes_smem json.is_space "\" _ L eq_refl),
    (all_bytes_smem name_byte "\" _ K eq_refl),
    (all_bytes_smem value_byte "\" _ V eq_refl),
    (srepeat_no "\" " " _ eq_refl). reflexivity.
Qed.

Lemma object_no_backslash (ms : list member) (trail : string) :
  forallb plain_member ms = true -> all_bytes json.is_space trail = true ->
  smem "\" (object_text ms trail) = false.
Proof.
  intros P T. unfold object_text. cbn [append smem].
  change (Ascii.eqb "\" "{") with false. cbn [orb].
  assert (E : smem "\" (trail +:+ "}") = false).
  { rewrite smem_append, (all_bytes_smem json.is_space "\" _ T eq_refl). reflexivity. }
  induction ms as [|m ms IH]; [exact E|].
  cbn [forallb] in P. apply andb_prop in P as [Pm P].
  destruct ms as [|m' ms].
  - cbn [map sjoin]. rewrite smem_append, (member_no_backslash m Pm). exact E.
  - cbn [map]. rewrite sjoin_cons, !append_assoc, smem_append,
      (member_no_backslash m Pm). cbn [append smem orb].
    change (Ascii.eqb "\" ",") with false. cbn [orb].
    exact (IH P).
Qed.

End Object_text.

Section Object_redaction.
Context `{Float64} `{!Printf} `{Decls}.

Lemma plain_mask_member (ps : list string) (m : member) :
  plain_member m = true -> plain_member (mask_member ps m) = true.
Proof.
  intros P. unfold mask_member. destruct (sensitive ps (m_key m)); [|exact P].
  unfold plain_member in *. cbn [m_lead m_key m_val].
  apply andb_prop in P as [P V]. rewrite P. reflexivity.
Qed.

Lemma plain_mask_members (ps : list string) (ms : list member) :
  forallb plain_member ms = true ->
  forallb plain_member (map (mask_member ps) ms) = true.
Proof.
  induction ms as [|m ms IH]; [reflexivity|]. cbn [forallb map]. intros P.
  apply andb_prop in P as [Pm P]. rewrite (plain_mask_member ps m Pm), (IH P).
  reflexivity.
Qed.

Lemma mask_member_cons (g : string) (ps : list string) (m : member) :
  mask_member (g :: ps) m = mask_member ps (mask_member [g] m).
Proof.
  rewrite mask_member_one. unfold mask_member, sensitive. cbn [existsb].
  destruct (String.eqb (m_key m) g); cbn [orb m_key m_lead].
  - destruct (existsb _ ps); reflexivity.
  - reflexivity.
Qed.

Lemma obscureParam_object (g : string) (ms : list member) (trail : string) :
  all_bytes name_byte g = true -> forallb plain_member ms = true ->
  all_bytes json.is_space trail = true ->
  obscureParam (object_text ms trail) g
  = object_text (map (mask_member [g]) ms) trail.
Proof.
  intros G P T. rewrite obscureParam_no_backslash by (apply object_no_backslash; assumption).
  apply replace_object_text; assumption.
Qed.

(** The redactor on an object text: the members of a sensitive name are
    masked. *)
Lemma obscure_object (ps : list string) (ms : list member) (trail : string) :
  names ps = true -> forallb plain_member ms = true ->
  all_bytes json.is_space trail = true ->
  fold_left obscureParam ps (object_text ms trail)
  = object_text (map (mask_member ps) ms) trail.
Proof.
  revert ms. induction ps as [|g ps IH]; intros ms N P T.
  - cbn [fold_left]. f_equal. clear. induction ms as [|m ms IH]; [reflexivity|].
    cbn [map]. rewrite <- IH. reflexivity.
  - cbn [names forallb] in N. apply andb_prop in N as [G N].
    cbn [fold_left]. rewrite obscureParam_object by assumption.
    rewrite IH; [|exact N | apply plain_mask_members, P | exact T].
    f_equal. rewrite map_map. apply map_ext. intros m.
    symmetry. apply mask_member_cons.
Qed.

End Object_redaction.

Section Object_parse.
Context `{Float64} `{!Printf} `{Decls}.

Lemma skip_space_lead (lead rest : string) (c : ascii) :
  all_bytes json.is_space lead = true -> json.is_space c = false ->
  json.skip_space (lead +:+ String c rest) = String c rest.
Proof.
  intros A C. induction lead as [|d lead IH].
  - cbn [append json.skip_space]. rewrite C. reflexivity.
  - cbn [all_bytes] in A. apply andb_prop in A as [D A].
    cbn [append json.skip_space]. rewrite D. exact (IH A).
Qed.

Lemma skip_space_spaces (n : nat) (rest : string) (c : ascii) :
  json.is_space c = false ->
  json.skip_space (srepeat " " n +:+ String c rest) = String c rest.
Proof.
  intros C. induction n as [|n IH].
  - cbn [srepeat append json.skip_space]. rewrite C. reflexivity.
  - cbn [srepeat append json.skip_space]. exact IH.
Qed.

(** One member, read by [members_p]. *)
Lemma members_p_member (fuel depth : nat) (acc : list (string * value))
  (m : member) (tail : string) :
  plain_member m = true ->
  json.members_p (S (S fuel)) depth acc (member_core m +:+ tail)
  = match json.skip_space tail with
    | String c t2 =>
        if Ascii.eqb c ","
        then json.members_p (S fuel) depth (add_field acc (member_field m))
               (json.skip_space t2)
        else if Ascii.eqb c "}"
        then Some (add_field acc (member_field m), t2)
        else None
    | "" => None
    end.
Proof.
  intros P. unfold plain_member in P.
  apply andb_prop in P as [P V]. apply andb_prop in P as [L K].
  rewrite member_core_text.
  cbn [json.members_p]. rewrite Ascii.eqb_refl.
  rewrite (string_body_plain (m_key m) _ (all_name_value _ K)).
  cbn [mbind option_bind fst snd json.skip_space].
  change (json.is_space ":") with false. cbn iota.
  rewrite Ascii.eqb_refl.
  rewrite skip_space_spaces by reflexivity.
  rewrite (value_p_literal fuel depth _ tail V).
  cbn [mbind option_bind fst snd]. unfold add_field, member_field. cbn [fst snd].
  reflexivity.
Qed.

Lemma member_text_tail (m : member) (tail : string) :
  member_text m +:+ tail = m_lead m +:+ String dquote (sdrop 1 (member_core m +:+ tail)).
Proof.
  rewrite member_text_core, append_assoc, member_core_text. reflexivity.
Qed.

Lemma skip_space_member (m : member) (tail : string) :
  plain_member m = true ->
  json.skip_space (member_text m +:+ tail) = member_core m +:+ tail.
Proof.
  intros P. unfold plain_member in P.
  apply andb_prop in P as [P V]. apply andb_prop in P as [L K].
  rewrite member_text_tail, skip_space_lead by (exact L || reflexivity).
  rewrite member_core_text. reflexivity.
Qed.

(** The members of an object text, read by [members_p]. *)
Lemma members_p_members (ms : list member) :
  forall (fuel depth : nat) (acc : list (string * value)) (trail rest : string),
    ms <> [] -> forallb plain_member ms = true ->
    all_bytes json.is_space trail = true -> (length ms < fuel)%nat ->
    json.members_p fuel depth acc
      (json.skip_space (sjoin "," (map member_text ms) +:+ trail +:+ String "}" rest))
    = Some (fold_left add_field (map member_field ms) acc, rest).
Proof.
  induction ms as [|m ms IH]; [congruence|].
  intros fuel depth acc trail rest _ P T L.
  cbn [forallb] in P. apply andb_prop in P as [Pm P].
  destruct fuel as [|[|fuel]]; cbn [length] in L; try lia.
  destruct ms as [|m' ms].
  - cbn [map sjoin fold_left]. rewrite skip_space_member by exact Pm.
    rewrite members_p_member by exact Pm.
    rewrite skip_space_lead by (exact T || reflexivity).
    reflexivity.
  - cbn [map]. rewrite sjoin_cons, !append_assoc.
    rewrite skip_space_member by exact Pm.
    rewrite members_p_member by exact Pm.
    cbn [append json.skip_space]. change (json.is_space ",") with false.
    cbn iota. rewrite Ascii.eqb_refl.
    cbn [map] in IH. rewrite IH; [reflexivity | discriminate | exact P | exact T |].
    cbn [length] in *. lia.
Qed.

Lemma member_text_length (m : member) : (1 <= String.length (member_text m))%nat.
Proof.
  unfold member_text, Q. rewrite !length_append. cbn [String.length]. lia.
Qed.

Lemma member_texts_length (ms : list member) (tail : string) :
  (length ms <= String.length (sjoin "," (map member_text ms) +:+ tail))%nat.
Proof.
  induction ms as [|m ms IH]; [cbn; lia|].
  pose proof (member_text_length m) as M.
  destruct ms as [|m' ms].
  - cbn [map sjoin]. rewrite length_append. cbn [length]. lia.
  - cbn [map]. rewrite sjoin_cons, !append_assoc, length_append.
    cbn [append String.length]. cbn [map length] in *. lia.
Qed.

(** An object text decodes to the object of its fields. *)
Lemma parse_object_text (ms : list member) (trail : string) :
  forallb plain_member ms = true -> all_bytes json.is_space trail = true ->
  json.parse (object_text ms trail) = Some (object_of (map member_field ms)).
Proof.
  intros P T. unfold json.parse, object_text. cbn [append json.skip_space].
  change (json.is_space "{") with false. cbn iota.
  pose proof (member_texts_length ms (trail +:+ "}")) as L.
  remember (sjoin "," (map member_text ms) +:+ trail +:+ "}") as body eqn:B.
  cbn [String.length].
  replace (2 * S (String.length body) + 2)%nat
    with (S (2 * S (String.length body) + 1)) by lia.
  assert (D : exists d, json.maxNestingDepth = S d)
    by (exists (Z.to_nat 9999); reflexivity).
  destruct D as [d ->]. cbn [json.value_p].
  change (Ascii.eqb "{" "{") with true. cbn iota.
  destruct ms as [|m ms].
  - subst body. cbn [map sjoin append].
    rewrite skip_space_lead by (exact T || reflexivity).
    cbn. reflexivity.
  - assert (S1 : fmt.starts_with "}" (json.skip_space body) = false).
    { subst body. cbn [forallb] in P. apply andb_prop in P as [Pm _].
      destruct ms as [|m' ms].
      - cbn [map sjoin]. rewrite skip_space_member by exact Pm.
        rewrite member_core_text. reflexivity.
      - cbn [map]. rewrite sjoin_cons, !append_assoc.
        rewrite skip_space_member by exact Pm.
        rewrite member_core_text. reflexivity. }
    rewrite S1. subst body.
    rewrite (members_p_members (m :: ms) _ d [] trail "");
      [reflexivity | discriminate | exact P | exact T |].
    cbn [length] in *. lia.
Qed.

Lemma strToObj_object_text (ms : list member) (trail : string) :
  forallb plain_member ms = true -> all_bytes json.is_space trail = true ->
  strToObj (object_text ms trail) = object_of (map member_field ms).
Proof.
  intros P T. unfold strToObj, json.Valid, json.Unmarshal.
  rewrite (parse_object_text ms trail P T). reflexivity.
Qed.

(** With redaction enabled for field names, in an object written with
    white space before its members and spaces after its colons, whose keys
    are names and whose values are strings of printable ASCII without a
    quote or a backslash: the redactor masks the value of every member
    that carries one of the names, in the text and in the message, and
    leaves the other members as they are. *)
Theorem object_members_are_masked (st : state) (ms : list member) (trail : string) :
  obscureSensitiveDataEnabled st = true ->
  names (sensitiveParams st) = true ->
  forallb plain_member ms = true ->
  all_bytes json.is_space trail = true ->
  obscureSensitiveData st (object_text ms trail)
  = object_text (map (mask_member (sensitiveParams st)) ms) trail
  /\ composeMessage st [VString (object_text ms trail)]
     = Ok (object_of (map member_field (map (mask_member (sensitiveParams st)) ms))).
Proof.
  intros E N P T.
  assert (O : obscureSensitiveData st (object_text ms trail)
              = object_text (map (mask_member (sensitiveParams st)) ms) trail)
    by (apply obscure_object; assumption).
  split; [exact O|].
  rewrite composeMessage_string. unfold redacted.
  destruct (redacting st) eqn:R.
  - rewrite O. rewrite strToObj_object_text;
      [reflexivity | apply plain_mask_members, P | exact T].
  - unfold redacting in R. rewrite E in R. cbn [andb] in R.
    destruct (sensitiveParams st) as [|g ps]; [|discriminate R].
    rewrite strToObj_object_text by assumption. do 2 f_equal.
    clear. induction ms as [|m ms IH]; [reflexivity|].
    cbn [map]. rewrite <- IH. reflexivity.
Qed.

Lemma mask_member_twice (ps : list string) (ms : list member) :
  map (mask_member ps) (map (mask_member ps) ms) = map (mask_member ps) ms.
Proof.
  rewrite map_map. apply map_ext. intros m. unfold mask_member.
  destruct (sensitive ps (m_key m)) eqn:S; cbn [m_key]; rewrite S; reflexivity.
Qed.

(** On such an object the redactor is idempotent: the redacted text is
    redacted to itself, and logging it gives the message of the text it
    came from. *)
Theorem redaction_is_idempotent_on_objects
  (st : state) (ms : list member) (trail : string) :
  obscureSensitiveDataEnabled st = true ->
  names (sensitiveParams st) = true ->
  forallb plain_member ms = true ->
  all_bytes json.is_space trail = true ->
  obscureSensitiveData st (obscureSensitiveData st (object_text ms trail))
  = obscureSensitiveData st (object_text ms trail)
  /\ composeMessage st [VString (obscureSensitiveData st (object_text ms trail))]
     = composeMessage st [VString (object_text ms trail)].
Proof.
  intros E N P T. unfold obscureSensitiveData.
  rewrite (obscure_object _ ms trail N P T).
  rewrite (obscure_object _ _ trail N (plain_mask_members _ ms P) T).
  rewrite mask_member_twice. split; [reflexivity|].
  rewrite !composeMessage_string. unfold redacted.
  destruct (redacting st) eqn:R.
  - unfold obscureSensitiveData.
    rewrite (obscure_object _ ms trail N P T).
    rewrite (obscure_object _ _ trail N (plain_mask_members _ ms P) T).
    rewrite mask_member_twice. reflexivity.
  - unfold redacting in R. rewrite E in R. cbn [andb] in R.
    destruct (sensitiveParams st) as [|g ps]; [|discriminate R].
    do 3 f_equal. clear. induction ms as [|m ms IH]; [reflexivity|].
    cbn [map]. rewrite IH. reflexivity.
Qed.

End Object_parse.

(** ** Plain records *)

Section Text_bytes.

Lemma all_bytes_append (p : ascii -> bool) (a b : string) :
  all_bytes p (a +:+ b) = all_bytes p a && all_bytes p b.
Proof.
  induction a as [|c a IH]; [reflexivity|]. cbn [append all_bytes].
  rewrite IH. apply andb_assoc.
Qed.

Lemma all_bytes_weaken (p q : ascii -> bool) (s : string) :
  (forall c, p c = true -> q c = true) ->
  all_bytes p s = true -> all_bytes q s = true.
Proof.
  intros W. induction s as [|c s IH]; [reflexivity|]. cbn [all_bytes]. intros A.
  apply andb_prop in A as [A1 A2]. rewrite (W c A1), (IH A2). reflexivity.
Qed.

Lemma text_is_safe (s : string) :
  all_bytes text_byte s = true -> all_bytes safe_byte s = true.
Proof.
  apply all_bytes_weaken. intros c T. unfold text_byte in T.
  apply andb_prop in T as [T _]. exact T.
Qed.

Lemma safe_is_value (s : string) :
  all_bytes safe_byte s = true -> all_bytes value_byte s = true.
Proof.
  apply all_bytes_weaken. intros c T. unfold safe_byte in T.
  apply andb_prop in T as [T _]. exact T.
Qed.

Lemma safe_is_htmlSafe (s : string) :
  all_bytes safe_byte s = true -> all_bytes json.htmlSafe s = true.
Proof.
  apply all_bytes_weaken. intros c T. unfold safe_byte in T.
  apply andb_prop in T as [_ T]. exact T.
Qed.

Lemma text_no_pct (s : string) :
  all_bytes text_byte s = true -> smem "%" s = false.
Proof. intros A. apply (all_bytes_smem text_byte); [exact A | reflexivity]. Qed.

Lemma text_append (a b : string) :
  all_bytes text_byte a = true -> all_bytes text_byte b = true ->
  all_bytes text_byte (a +:+ b) = true.
Proof. intros A B. rewrite all_bytes_append, A, B. reflexivity. Qed.

Lemma text_uint (d : Decimal.uint) :
  all_bytes text_byte (NilEmpty.string_of_uint d) = true.
Proof. induction d; cbn [NilEmpty.string_of_uint all_bytes]; try reflexivity; exact IHd. Qed.

Lemma text_uint0 (d : Decimal.uint) :
  all_bytes text_byte (NilZero.string_of_uint d) = true.
Proof.
  destruct d; [reflexivity|..];
    match goal with
    | |- all_bytes text_byte (NilZero.string_of_uint ?x) = true => exact (text_uint x)
    end.
Qed.

Lemma text_itoa (n : Z) : all_bytes text_byte (fmt.itoa n) = true.
Proof.
  unfold fmt.itoa. destruct n as [|p|p]; cbn [Z.to_int NilZero.string_of_int].
  - reflexivity.
  - apply text_uint0.
  - apply (text_append "-"); [reflexivity | apply text_uint0].
Qed.

Lemma text_srepeat (n : nat) : all_bytes text_byte (srepeat "0" n) = true.
Proof. induction n as [|n IH]; [reflexivity | exact IH]. Qed.

Lemma text_appendInt (x : Z) (w : nat) :
  all_bytes text_byte (time.appendInt x w) = true.
Proof.
  unfold time.appendInt.
  apply text_append; [destruct (x <? 0); reflexivity|].
  apply text_append; [apply text_srepeat | apply text_itoa].
Qed.

Lemma text_trim_zeros (s : string) :
  all_bytes text_byte s = true -> all_bytes text_byte (time.trim_zeros s) = true.
Proof.
  induction s as [|c s IH]; [reflexivity|].
  cbn [all_bytes time.trim_zeros]. intros A. apply andb_prop in A as [A1 A2].
  specialize (IH A2). destruct (time.trim_zeros s) as [|d r].
  - destruct (Ascii.eqb c "0"); [reflexivity|]. cbn [all_bytes]. rewrite A1. reflexivity.
  - cbn [all_bytes] in *. rewrite A1. exact IH.
Qed.

Lemma text_appendNano (n : Z) : all_bytes text_byte (time.appendNano n) = true.
Proof.
  unfold time.appendNano. destruct (n =? 0); [reflexivity|].
  apply (text_append "."); [reflexivity|].
  apply text_trim_zeros, text_appendInt.
Qed.

Lemma text_appendZone (o : Z) : all_bytes text_byte (time.appendZone o) = true.
Proof.
  unfold time.appendZone.
  apply text_append; [destruct (_ <? 0); reflexivity|].
  apply text_append; apply text_appendInt.
Qed.

Lemma text_Format (t : time.Time) :
  all_bytes text_byte (time.zoneName t) = true ->
  all_bytes text_byte (time.Format t) = true.
Proof.
  intros Z. unfold time.Format.
  repeat (apply text_append;
          [first [apply text_appendInt | apply text_appendNano
                 | apply text_appendZone | reflexivity | idtac] |]);
    try (destruct (String.eqb _ _); [apply text_appendZone | exact Z]).
Qed.

Lemma text_String (t : time.Time) :
  all_bytes text_byte (time.zoneName t) = true ->
  all_bytes text_byte (time.String_ t) = true.
Proof.
  intros Z. unfold time.String_. apply text_append; [apply text_Format, Z|].
  destruct (time.monotonic t) as [ext|]; [|reflexivity].
  unfold time.appendMonotonic.
  apply (text_append " m="); [reflexivity|].
  apply text_append; [destruct (ext <? 0); reflexivity|].
  apply text_append.
  - destruct (_ =? 0); [apply text_appendInt|].
    apply text_append; apply text_appendInt.
  - apply (text_append "."); [reflexivity | apply text_appendInt].
Qed.

(** The first piece of a split holds bytes of the text only. *)
Lemma split_head_bytes (p : ascii -> bool) (sep : string) (s : string) :
  forall (k : nat) (cur : string),
    all_bytes p cur = true -> all_bytes p s = true ->
    all_bytes p (hd "" (strings.split_loop sep k cur s)) = true.
Proof.
  induction s as [|c s IH]; intros k cur C A; [exact C|].
  cbn [all_bytes] in A. apply andb_prop in A as [A1 A2].
  cbn [strings.split_loop]. destruct k as [|k].
  - destruct (strings.HasPrefix (String c s) sep); [exact C|].
    apply IH; [|exact A2]. rewrite all_bytes_append, C. cbn [all_bytes].
    rewrite A1. reflexivity.
  - apply IH; assumption.
Qed.

End Text_bytes.

Section Indentation.

Lemma indent_string (indent : string) (need : bool) (d : nat) (x rest : string) :
  all_bytes value_byte x = true ->
  json.indent_loop indent true false need d (x +:+ String dquote rest)
  = x +:+ String dquote (json.indent_loop indent false false need d rest).
Proof.
  induction x as [|c x IH]; intros A.
  - reflexivity.
  - cbn [all_bytes] in A. apply andb_prop in A as [V A].
    destruct (value_byte_facts c V) as [D [_ [B _]]].
    cbn [append json.indent_loop]. rewrite B, D, (IH A). reflexivity.
Qed.

Lemma indent_member (indent : string) (d : nat) (kv : string * string) (rest : string) :
  all_bytes name_byte (fst kv) = true -> all_bytes value_byte (snd kv) = true ->
  json.indent_loop indent false false false d (flat_member kv +:+ rest)
  = member_core (indented indent kv)
      +:+ json.indent_loop indent false false false d rest.
Proof.
  intros K V. destruct kv as [k v]. cbn [fst snd] in *.
  rewrite flat_member_text, member_core_text. cbn [indented m_key m_gap m_val fst snd].
  cbn [json.indent_loop json.is_space Ascii.eqb Bool.eqb orb andb negb append].
  rewrite (indent_string indent false d k _ (all_name_value _ K)).
  f_equal. f_equal. f_equal.
  cbn [json.indent_loop json.is_space Ascii.eqb Bool.eqb orb andb negb append srepeat].
  f_equal. f_equal. f_equal.
  rewrite (indent_string indent false d v _ V). reflexivity.
Qed.

Lemma indent_members (indent : string) (kvs : list (string * string)) :
  kvs <> [] -> flat kvs = true ->
  json.appendNewline indent 1
    +:+ json.indent_loop indent false false false 1
          (sjoin "," (map flat_member kvs) +:+ "}")
  = sjoin "," (map member_text (map (indented indent) kvs)) +:+ String newline "}".
Proof.
  assert (N : json.appendNewline indent 1 = String newline indent).
  { unfold json.appendNewline. cbn. rewrite append_nil_r. reflexivity. }
  induction kvs as [|kv kvs IH]; [congruence|]. intros _ F.
  cbn [flat forallb] in F. apply andb_prop in F as [Fk F].
  apply andb_prop in Fk as [K V].
  destruct kvs as [|kv' kvs].
  - cbn [map sjoin]. rewrite indent_member by assumption.
    rewrite member_text_core. cbn [indented m_lead]. rewrite N, !append_assoc.
    reflexivity.
  - cbn [map]. rewrite !sjoin_cons, !append_assoc. rewrite indent_member by assumption.
    rewrite member_text_core. cbn [m_lead indented]. rewrite N, !append_assoc.
    f_equal. f_equal. cbn [append json.indent_loop json.is_space Ascii.eqb Bool.eqb orb andb negb].
    f_equal. cbn [map] in IH. rewrite <- IH by (discriminate || exact F).
    rewrite N. reflexivity.
Qed.

(** [json.Indent] on a flat object: one member on each line. *)
Lemma Indent_flat_object (indent : string) (kvs : list (string * string)) :
  kvs <> [] -> flat kvs = true ->
  json.Indent indent (flat_object kvs)
  = object_text (map (indented indent) kvs) (String newline "").
Proof.
  intros N F. unfold json.Indent, flat_object, object_text.
  cbn [append json.indent_loop json.is_space Ascii.eqb Bool.eqb orb andb negb].
  f_equal. rewrite <- (indent_members indent kvs N F).
  destruct kvs as [|[k v] kvs]; [congruence|].
  assert (T : exists t, sjoin "," (map flat_member ((k, v) :: kvs)) +:+ "}"
                        = String dquote t).
  { destruct kvs as [|kv' kvs].
    - cbn [map sjoin]. rewrite flat_member_text. eauto.
    - cbn [map]. rewrite sjoin_cons, !append_assoc, flat_member_text. eauto. }
  destruct T as [t ->]. reflexivity.
Qed.

End Indentation.

Section Records.
Context `{Float64} `{!Printf} `{Decls}.

Lemma flat_object_tight (kvs : list (string * string)) :
  flat_object kvs = object_text (map tight kvs) "".
Proof.
  unfold flat_object, object_text. rewrite map_map.
  assert (E : map flat_member kvs = map (fun x => member_text (tight x)) kvs)
    by (apply map_ext; intros [k v]; reflexivity).
  rewrite E. reflexivity.
Qed.

Lemma member_field_tight (kvs : list (string * string)) :
  map member_field (map tight kvs) = kvs.
Proof.
  induction kvs as [|[k v] kvs IH]; [reflexivity|]. cbn [map]. rewrite IH. reflexivity.
Qed.

Lemma member_field_indented (indent : string) (kvs : list (string * string)) :
  map member_field (map (indented indent) kvs) = kvs.
Proof.
  induction kvs as [|[k v] kvs IH]; [reflexivity|]. cbn [map]. rewrite IH. reflexivity.
Qed.

Lemma plain_tight (kvs : list (string * string)) :
  flat kvs = true -> forallb plain_member (map tight kvs) = true.
Proof.
  induction kvs as [|kv kvs IH]; [reflexivity|]. cbn [flat forallb map]. intros F.
  apply andb_prop in F as [Fk F]. rewrite (IH F), andb_true_r. exact Fk.
Qed.

Lemma plain_indented (indent : string) (kvs : list (string * string)) :
  all_bytes json.is_space indent = true -> flat kvs = true ->
  forallb plain_member (map (indented indent) kvs) = true.
Proof.
  intros I. induction kvs as [|kv kvs IH]; [reflexivity|].
  cbn [flat forallb map]. intros F.
  apply andb_prop in F as [Fk F]. rewrite (IH F), andb_true_r.
  unfold plain_member. cbn [indented m_lead m_key m_val all_bytes].
  rewrite I. exact Fk.
Qed.

(** A byte that no member holds is not in the object text. *)
Lemma object_text_without (c : ascii) (ms : list member) (trail : string) :
  smem c ("{},:" +:+ Q +:+ " ") = false ->
  forallb (fun m => negb (smem c (m_lead m)) && negb (smem c (m_key m))
                    && negb (smem c (m_val m))) ms = true ->
  smem c trail = false ->
  smem c (object_text ms trail) = false.
Proof.
  intros C P T. unfold Q in C. cbn [append smem] in C.
  apply orb_false_elim in C as [C1 C]. apply orb_false_elim in C as [C2 C].
  apply orb_false_elim in C as [C3 C]. apply orb_false_elim in C as [C4 C].
  apply orb_false_elim in C as [C5 C]. apply orb_false_elim in C as [C6 _].
  assert (M : forall m, negb (smem c (m_lead m)) && negb (smem c (m_key m))
                        && negb (smem c (m_val m)) = true ->
                        smem c (member_text m) = false).
  { intros m Pm. apply andb_prop in Pm as [Pm V]. apply andb_prop in Pm as [L K].
    apply negb_true_iff in L, K, V.
    unfold member_text, Q. rewrite !smem_append. cbn [smem].
    rewrite L, K, V, srepeat_no by assumption. rewrite C4, C5. reflexivity. }
  unfold object_text. cbn [append smem].
  assert (E : smem c (trail +:+ "}") = false).
  { rewrite smem_append, T. cbn [smem]. rewrite C2. reflexivity. }
  rewrite C1. cbn [orb].
  induction ms as [|m ms IH]; [exact E|].
  cbn [forallb] in P. apply andb_prop in P as [Pm P].
  destruct ms as [|m' ms].
  - cbn [map sjoin]. rewrite smem_append, (M m Pm). exact E.
  - cbn [map]. rewrite sjoin_cons, !append_assoc, smem_append, (M m Pm).
    cbn [append smem orb]. rewrite C3. cbn [orb]. exact (IH P).
Qed.

Lemma text_Time (st : state) (level : string) (m : value) :
  all_bytes text_byte (time.zoneName (now st)) = true ->
  all_bytes text_byte (Time (envelope st level m)) = true.
Proof.
  intros Z. cbn [Time envelope]. unfold strings.Split.
  apply split_head_bytes; [reflexivity | apply text_String, Z].
Qed.

(** The fields of a record around a plain message hold text bytes. *)
Lemma record_fields_text (st : state) (level s : string) :
  plain_envelope st level = true -> all_bytes text_byte s = true ->
  forallb (fun kv => all_bytes name_byte (fst kv) && all_bytes text_byte (snd kv))
    (record_fields st level s) = true.
Proof.
  intros P S. unfold plain_envelope in P.
  apply andb_prop in P as [P T]. apply andb_prop in P as [L Z].
  unfold record_fields. rewrite forallb_app. cbn [forallb fst snd].
  rewrite L, S, (text_Time st level (VString s) Z).
  destruct (traceCallerEnabled st); cbn [negb orb] in T; [|reflexivity].
  apply andb_prop in T as [T1 T2]. cbn [forallb fst snd]. rewrite T1, T2. reflexivity.
Qed.

Lemma fields_flat (kvs : list (string * string)) :
  forallb (fun kv => all_bytes name_byte (fst kv) && all_bytes text_byte (snd kv)) kvs
  = true -> flat kvs = true.
Proof.
  unfold flat. induction kvs as [|kv kvs IH]; [reflexivity|]. cbn [forallb].
  intros F. apply andb_prop in F as [Fk F]. apply andb_prop in Fk as [K V].
  rewrite K, (safe_is_value _ (text_is_safe _ V)), (IH F). reflexivity.
Qed.

Lemma fields_no_pct (g : string * string -> member) (kvs : list (string * string)) :
  (forall kv, smem "%" (m_lead (g kv)) = false /\ m_key (g kv) = fst kv
              /\ m_val (g kv) = snd kv) ->
  forallb (fun kv => all_bytes name_byte (fst kv) && all_bytes text_byte (snd kv)) kvs
  = true ->
  forallb (fun m => negb (smem "%" (m_lead m)) && negb (smem "%" (m_key m))
                    && negb (smem "%" (m_val m)))
    (map g kvs)
  = true.
Proof.
  intros G. induction kvs as [|kv kvs IH]; [reflexivity|]. cbn [forallb map].
  intros F. apply andb_prop in F as [Fk F]. apply andb_prop in Fk as [K V].
  rewrite (IH F). destruct (G kv) as (L & -> & ->). rewrite L, (text_no_pct _ V).
  rewrite (all_bytes_smem name_byte "%" _ K eq_refl). reflexivity.
Qed.

(** The serialized envelope of a plain message is the flat object of its
    fields. *)
Lemma Marshal_record_fields (st : state) (level s : string) :
  plain_envelope st level = true -> all_bytes safe_byte s = true ->
  Marshal_record (envelope st level (VString s))
  = Some (flat_object (record_fields st level s)).
Proof.
  intros P S. unfold plain_envelope in P.
  apply andb_prop in P as [P T]. apply andb_prop in P as [L Z].
  pose proof (text_Time st level (VString s) Z) as Tm.
  unfold record_fields, flat_object, Marshal_record.
  cbn [Time envelope Level Message File Function] in *.
  remember (hd "" (strings.Split (time.String_ (now st)) "m")) as tm eqn:Etm.
  cbn [json.Marshal mbind option_bind].
  rewrite (quote_plain level (safe_is_htmlSafe _ (text_is_safe _ L))).
  rewrite (quote_plain s (safe_is_htmlSafe _ S)).
  rewrite (quote_plain tm (safe_is_htmlSafe _ (text_is_safe _ Tm))).
  rewrite (quote_plain "level"), (quote_plain "message"), (quote_plain "time")
    by reflexivity.
  destruct (traceCallerEnabled st); cbn [negb orb] in T.
  - apply andb_prop in T as [T1 T2].
    rewrite (quote_plain _ (safe_is_htmlSafe _ (text_is_safe _ T1))).
    rewrite (quote_plain _ (safe_is_htmlSafe _ (text_is_safe _ T2))).
    rewrite (quote_plain "file"), (quote_plain "function") by reflexivity.
    f_equal. cbn [app map sjoin]. unfold flat_member, Q. cbn [fst snd].
    do 3 (rewrite ?append_assoc; cbn [append]). reflexivity.
  - f_equal. cbn [app map sjoin]. unfold flat_member, Q. cbn [fst snd].
    do 3 (rewrite ?append_assoc; cbn [append]). reflexivity.
Qed.

End Records.

Section Plain_records.
Context `{Float64} `{!Printf} `{Decls}.

(** The record text around a plain message, without colours. *)
Lemma render_plain (st : state) (level s : string) :
  plain_envelope st level = true -> all_bytes safe_byte s = true ->
  colorEnabled st = false ->
  render st (envelope st level (VString s))
  = if JSONPrettyPrint st
    then object_text (map (indented "   ") (record_fields st level s))
           (String newline "")
    else flat_object (record_fields st level s).
Proof.
  intros P S C. unfold render. rewrite C.
  rewrite (Marshal_record_fields st level s P S). cbn [fmap option_fmap option_map default].
  destruct (JSONPrettyPrint st); [|reflexivity].
  unfold id. apply Indent_flat_object.
  - unfold record_fields. discriminate.
  - unfold plain_envelope in P.
    apply andb_prop in P as [P T]. apply andb_prop in P as [L Z].
    pose proof (text_Time st level (VString s) Z) as Tm.
    unfold record_fields, flat. rewrite forallb_app. cbn [forallb fst snd all_bytes].
    cbn [andb]. rewrite (safe_is_value _ (text_is_safe _ L)), (safe_is_value _ S),
      (safe_is_value _ (text_is_safe _ Tm)).
    destruct (traceCallerEnabled st); cbn [negb orb] in T; [|reflexivity].
    apply andb_prop in T as [T1 T2]. cbn [forallb fst snd].
    rewrite (safe_is_value _ (text_is_safe _ T1)), (safe_is_value _ (text_is_safe _ T2)).
    reflexivity.
Qed.

(** A record text around a plain message holds no percent sign. *)
Lemma render_plain_no_pct (st : state) (level s : string) :
  plain_envelope st level = true -> all_bytes text_byte s = true ->
  colorEnabled st = false ->
  smem "%" (render st (envelope st level (VString s))) = false.
Proof.
  intros P S C.
  pose proof (record_fields_text st level s P S) as F.
  rewrite render_plain by (assumption || apply text_is_safe, S).
  destruct (JSONPrettyPrint st).
  - apply object_text_without; [reflexivity | | reflexivity].
    apply fields_no_pct; [|exact F]. intros kv. repeat split.
  - rewrite flat_object_tight.
    apply object_text_without; [reflexivity | | reflexivity].
    apply fields_no_pct; [|exact F]. intros kv. repeat split.
Qed.

Lemma composeMessage_plain (st : state) (s : string) :
  redacting st = false -> json.Valid s = false ->
  composeMessage st [VString s] = Ok (VString s).
Proof.
  intros R V. rewrite composeMessage_string. unfold redacted, strToObj.
  rewrite R, V. reflexivity.
Qed.

(** The record of a call whose single argument is a text of safe bytes
    that is not JSON, without redaction and colours, the level, the zone
    name and the traced caller being plain: compact, the flat object of the
    fields level, message, time and, when the caller is traced, file and
    function; indented, the same members one on a line, after three spaces
    and with a space after the colon. *)
Theorem record_of_plain_message (st : state) (level s : string) :
  redacting st = false -> colorEnabled st = false ->
  plain_envelope st level = true ->
  all_bytes safe_byte s = true -> json.Valid s = false ->
  composeLog st level [VString s]
  = Ok (if JSONPrettyPrint st
        then object_text (map (indented "   ") (record_fields st level s))
               (String newline "")
        else flat_object (record_fields st level s)).
Proof.
  intros R C P S V. rewrite composeLog_render, composeMessage_plain by assumption.
  cbn [bind]. f_equal. apply render_plain; assumption.
Qed.

Lemma object_of_record_fields (st : state) (level s : string) :
  object_of (record_fields st level s)
  = VMap (if traceCallerEnabled st
          then [("file", VString (fst (traceCaller st)));
                ("function", VString (snd (traceCaller st)));
                ("level", VString level); ("message", VString s);
                ("time", VString (Time (envelope st level (VString s))))]
          else [("level", VString level); ("message", VString s);
                ("time", VString (Time (envelope st level (VString s))))]).
Proof.
  unfold object_of, record_fields. destruct (traceCallerEnabled st); reflexivity.
Qed.

(** What the sink receives for such a message, when it holds no percent
    sign, is the record text itself; it is valid JSON, indented or not, and
    decodes to the object of the fields of the record. *)
Theorem written_record_decodes (e : entry) (st : state) (s : string) :
  redacting st = false -> colorEnabled st = false ->
  plain_envelope st (label_of e) = true ->
  all_bytes text_byte s = true -> json.Valid s = false ->
  rank e >= logLevel st ->
  writes e [VString s] st (render st (envelope st (label_of e) (VString s)))
  /\ json.Valid (render st (envelope st (label_of e) (VString s))) = true
  /\ strToObj (render st (envelope st (label_of e) (VString s)))
     = VMap (if traceCallerEnabled st
             then [("file", VString (fst (traceCaller st)));
                   ("function", VString (snd (traceCaller st)));
                   ("level", VString (label_of e)); ("message", VString s);
                   ("time", VString (Time (envelope st (label_of e) (VString s))))]
             else [("level", VString (label_of e)); ("message", VString s);
                   ("time", VString (Time (envelope st (label_of e) (VString s))))]).
Proof.
  intros R C P S V G.
  pose proof (record_fields_text st (label_of e) s P S) as F.
  pose proof (fields_flat _ F) as Fl.
  set (text := render st (envelope st (label_of e) (VString s))).
  assert (T : exists ms trail,
            text = object_text ms trail
            /\ forallb plain_member ms = true
            /\ all_bytes json.is_space trail = true
            /\ map member_field ms = record_fields st (label_of e) s
            /\ smem "%" text = false).
  { subst text. rewrite render_plain by (assumption || apply text_is_safe, S).
    destruct (JSONPrettyPrint st).
    - exists (map (indented "   ") (record_fields st (label_of e) s)), (String newline "").
      split; [reflexivity|]. split; [apply plain_indented; [reflexivity | exact Fl]|].
      split; [reflexivity|]. split; [apply member_field_indented|].
      apply object_text_without; [reflexivity | | reflexivity].
      apply fields_no_pct; [|exact F]. intros kv. repeat split.
    - exists (map tight (record_fields st (label_of e) s)), "".
      split; [apply flat_object_tight|]. split; [apply plain_tight, Fl|].
      split; [reflexivity|]. split; [apply member_field_tight|].
      rewrite flat_object_tight.
      apply object_text_without; [reflexivity | | reflexivity].
      apply fields_no_pct; [|exact F]. intros kv. repeat split. }
  destruct T as (ms & trail & E & Pm & Tr & Mf & Np).
  assert (CL : composeLog st (label_of e) [VString s] = Ok text).
  { rewrite composeLog_render, composeMessage_plain by assumption. reflexivity. }
  assert (D : json.parse text = Some (object_of (record_fields st (label_of e) s))).
  { rewrite E, parse_object_text by assumption. rewrite Mf. reflexivity. }
  split; [|split].
  - unfold writes. rewrite (call_logWriter e [VString s] st text CL).
    destruct (Z.geb_spec (rank e) (logLevel st)); [|lia].
    rewrite Sprintf0_plain; [reflexivity|]. rewrite Contains_pct. exact Np.
  - unfold json.Valid. rewrite D. reflexivity.
  - unfold strToObj, json.Valid, json.Unmarshal. rewrite D.
    apply object_of_record_fields.
Qed.

End Plain_records.

(** ** Object texts held in a string *)

Section Escaped_text.
Import regexp.

Lemma escape_append (a b : string) : escape (a +:+ b) = escape a +:+ escape b.
Proof.
  induction a as [|c a IH]; [reflexivity|]. cbn [append escape].
  destruct (Ascii.eqb c dquote); cbn [append]; rewrite IH; reflexivity.
Qed.

Lemma escape_plain (x : string) : smem dquote x = false -> escape x = x.
Proof.
  induction x as [|c x IH]; [reflexivity|]. cbn [smem escape]. intros N.
  apply orb_false_elim in N as [N1 N2]. rewrite Ascii.eqb_sym, N1, (IH N2).
  reflexivity.
Qed.

Lemma spaces_is_space (s : string) :
  all_bytes (Ascii.eqb " ") s = true -> all_bytes json.is_space s = true.
Proof.
  apply all_bytes_weaken. intros c E. apply Ascii.eqb_eq in E. subst c. reflexivity.
Qed.

Lemma spaces_no (c : ascii) (s : string) :
  all_bytes (Ascii.eqb " ") s = true -> Ascii.eqb " " c = false -> smem c s = false.
Proof. intros A N. apply (all_bytes_smem (Ascii.eqb " ")); assumption. Qed.

(** The escaped text of a member. *)
Lemma escape_member_core (m : member) (rest : string) :
  smem dquote (m_key m) = false -> smem dquote (m_val m) = false ->
  escape (member_core m) +:+ rest
  = String "\" (String dquote (m_key m +:+ String "\" (String dquote
      (String ":" (srepeat " " (m_gap m) +:+ String "\" (String dquote
         (m_val m +:+ String "\" (String dquote rest)))))))).
Proof.
  intros K V. unfold member_core, Q. rewrite !escape_append.
  rewrite (escape_plain _ K), (escape_plain _ V),
    (escape_plain _ (srepeat_no dquote " " _ eq_refl)).
  cbn [escape Ascii.eqb Bool.eqb]. rewrite ?append_assoc. cbn [append].
  rewrite ?append_assoc. cbn [append]. rewrite ?append_assoc. cbn [append].
  rewrite ?append_assoc. reflexivity.
Qed.

(** *** The first pattern *)

Lemma replace1_byte (f : string) (c : ascii) (t repl : string) :
  Ascii.eqb "\" c = false ->
  replace_loop (re1 f) repl O (String c t) = String c (replace_loop (re1 f) repl O t).
Proof.
  intros N. cbn [replace_loop]. unfold re1 at 1. rewrite match_here_lit.
  unfold ekey_text. cbn [append strings.HasPrefix]. rewrite N. reflexivity.
Qed.

Lemma replace1_run (f x t repl : string) :
  smem "\" x = false ->
  replace_loop (re1 f) repl O (x +:+ t) = x +:+ replace_loop (re1 f) repl O t.
Proof.
  induction x as [|c x IH]; [reflexivity|]. cbn [smem]. intros N.
  apply orb_false_elim in N as [N1 N2]. cbn [append].
  rewrite replace1_byte by exact N1. rewrite IH by exact N2. reflexivity.
Qed.

(** A backslash and a quote that do not open the key. *)
Lemma replace1_backslash (f u repl : string) :
  strings.HasPrefix u (Q +:+ f +:+ "\" +:+ Q +:+ ":") = false ->
  replace_loop (re1 f) repl O (String "\" u)
  = String "\" (replace_loop (re1 f) repl O u).
Proof.
  intros N. cbn [replace_loop]. unfold re1 at 1. rewrite match_here_lit.
  unfold ekey_text. cbn [append strings.HasPrefix] in *.
  rewrite Ascii.eqb_refl. cbn [andb]. rewrite N. reflexivity.
Qed.

Lemma replace1_quote (f t repl : string) :
  strings.HasPrefix t (f +:+ "\" +:+ Q +:+ ":") = false ->
  replace_loop (re1 f) repl O (String "\" (String dquote t))
  = String "\" (String dquote (replace_loop (re1 f) repl O t)).
Proof.
  intros N. rewrite replace1_backslash.
  - rewrite replace1_byte by reflexivity. reflexivity.
  - unfold Q. cbn [append strings.HasPrefix]. rewrite Ascii.eqb_refl. exact N.
Qed.

(** Two texts without a backslash, each followed by one: one is a prefix
    of the other only when they are equal. *)
Lemma HasPrefix_to_backslash (x y r r' : string) :
  smem "\" x = false -> smem "\" y = false ->
  strings.HasPrefix (x +:+ String "\" r) (y +:+ String "\" r') = true ->
  x = y /\ strings.HasPrefix r r' = true.
Proof.
  revert y. induction x as [|c x IH]; intros y Dx Dy P.
  - destruct y as [|d y].
    + cbn [append strings.HasPrefix] in P. rewrite Ascii.eqb_refl in P.
      split; [reflexivity | exact P].
    + cbn [append strings.HasPrefix] in P. cbn [smem] in Dy.
      apply orb_false_elim in Dy as [Dy _].
      rewrite Ascii.eqb_sym, Dy in P. discriminate.
  - cbn [smem] in Dx. apply orb_false_elim in Dx as [Dc Dx].
    destruct y as [|d y].
    + cbn [append strings.HasPrefix] in P. rewrite Dc in P. discriminate.
    + cbn [append strings.HasPrefix] in P. cbn [smem] in Dy.
      apply orb_false_elim in Dy as [_ Dy].
      apply andb_prop in P as [E P]. apply Ascii.eqb_eq in E. subst d.
      destruct (IH y Dx Dy P) as [-> R]. split; [reflexivity | exact R].
Qed.

Lemma name_no_backslash (g : string) :
  all_bytes name_byte g = true -> smem "\" g = false.
Proof. intros G. apply (all_bytes_smem name_byte); [exact G | reflexivity]. Qed.

Lemma other_head_no_ekey (g : string) (c : ascii) (rest : string) :
  all_bytes name_byte g = true -> name_byte c = false ->
  Ascii.eqb "\" c = false ->
  strings.HasPrefix (String c rest) (g +:+ "\" +:+ Q +:+ ":") = false.
Proof.
  intros G C D. destruct g as [|d g].
  - cbn [append strings.HasPrefix]. rewrite D. reflexivity.
  - cbn [all_bytes] in G. apply andb_prop in G as [G _].
    cbn [append strings.HasPrefix].
    destruct (Ascii.eqb_spec d c) as [->|]; [congruence | reflexivity].
Qed.

Lemma closes_no_ekey (g rest : string) :
  all_bytes name_byte g = true -> closes rest = true ->
  strings.HasPrefix rest (g +:+ "\" +:+ Q +:+ ":") = false.
Proof.
  intros G C. destruct rest as [|c rest].
  - destruct g; reflexivity.
  - cbn [closes] in C. apply other_head_no_ekey; [exact G|..].
    + destruct c as [[] [] [] [] [] [] [] []]; vm_compute in C |- *; congruence.
    + destruct c as [[] [] [] [] [] [] [] []]; vm_compute in C |- *; congruence.
Qed.

(** The lazy star stops at the first backslash and quote. *)
Lemma match_here_lazy_escaped (v rest : string) :
  smem "\" v = false -> smem newline v = false ->
  match_here [LazyAny; Lit ("\" +:+ Q)] (v +:+ String "\" (String dquote rest))
  = Some (String.length v + 2)%nat.
Proof.
  intros B N. unfold Q. cbn [append]. induction v as [|c v IH].
  - rewrite match_here_lazy, match_here_lit.
    cbn [append strings.HasPrefix String.length sdrop].
    rewrite !Ascii.eqb_refl. reflexivity.
  - cbn [smem] in B, N.
    apply orb_false_elim in B as [B1 B2]. apply orb_false_elim in N as [N1 N2].
    rewrite match_here_lazy, match_here_lit.
    cbn [append strings.HasPrefix String.length sdrop].
    rewrite B1. cbn [andb]. rewrite Ascii.eqb_sym, N1.
    rewrite (IH B2 N2). reflexivity.
Qed.

(** The first pattern on an escaped key, a gap and an escaped value. *)
Lemma replace1_key_value (f : string) (n : nat) (v post : string) :
  smem dquote v = false -> smem "\" v = false -> smem newline v = false ->
  replace_loop (re1 f) (emasked f) O
    (ekey_text f +:+ srepeat " " n +:+ String "\" (String dquote
       (v +:+ String "\" (String dquote post))))
  = emasked f +:+ replace_loop (re1 f) (emasked f) O post.
Proof.
  intros Dv Bv Nv.
  set (gap := srepeat " " n +:+ "\").
  assert (Dg : smem dquote gap = false).
  { subst gap. rewrite smem_append, srepeat_no by reflexivity. reflexivity. }
  assert (Ng : smem newline gap = false).
  { subst gap. rewrite smem_append, srepeat_no by reflexivity. reflexivity. }
  assert (M : match_here (re1 f)
                (ekey_text f +:+ gap +:+ String dquote
                   (v +:+ String "\" (String dquote post)))
              = Some (String.length (ekey_text f)
                      + (String.length gap + S (String.length v + 2)))%nat).
  { unfold re1. rewrite match_here_lit, HasPrefix_append, sdrop_append.
    rewrite (match_here_lazy_quote [LazyAny; Lit ("\" +:+ Q)] gap _
               (String.length v + 2) Dg Ng); [reflexivity|].
    apply match_here_lazy_escaped; assumption. }
  assert (T : ekey_text f +:+ srepeat " " n +:+ String "\" (String dquote
                (v +:+ String "\" (String dquote post)))
              = ekey_text f +:+ gap +:+ String dquote
                  (v +:+ String "\" (String dquote post))).
  { subst gap. rewrite !append_assoc. reflexivity. }
  rewrite T. clear T.
  remember (ekey_text f +:+ gap +:+ String dquote
              (v +:+ String "\" (String dquote post))) as u eqn:U.
  assert (L : exists k, (String.length (ekey_text f)
                         + (String.length gap + S (String.length v + 2)))%nat = S k)
    by (eexists; unfold ekey_text, Q; cbn [append String.length]; reflexivity).
  destruct L as [k L]. rewrite L in M.
  assert (C : exists c t, u = String c t)
    by (subst u; unfold ekey_text, Q; cbn [append]; eauto).
  destruct C as [c [t C]]. rewrite C in M |- *.
  rewrite (replace_at_match _ _ c t k M). f_equal.
  rewrite <- C, <- L, U. rewrite sdrop_add_append.
  rewrite sdrop_add_append. cbn [sdrop].
  rewrite sdrop_add_append. reflexivity.
Qed.

End Escaped_text.

Section Escaped_members.
Import regexp.

Lemma HasPrefix_other_end (x y r r' : string) :
  smem dquote x = false -> smem "\" y = false ->
  strings.HasPrefix (x +:+ String "\" r) (y +:+ String dquote r') = false.
Proof.
  revert x. induction y as [|d y IH]; intros x Dx By.
  - destruct x as [|c x]; cbn [append strings.HasPrefix]; [reflexivity|].
    cbn [smem] in Dx. apply orb_false_elim in Dx as [Dx _]. rewrite Dx. reflexivity.
  - cbn [smem] in By. apply orb_false_elim in By as [Bd By].
    destruct x as [|c x]; cbn [append strings.HasPrefix].
    + rewrite Ascii.eqb_sym, Bd. reflexivity.
    + cbn [smem] in Dx. apply orb_false_elim in Dx as [_ Dx].
      rewrite (IH x Dx By). apply andb_false_r.
Qed.

Lemma embeddable_parts (m : member) :
  embeddable m = true ->
  all_bytes (Ascii.eqb " ") (m_lead m) = true
  /\ all_bytes name_byte (m_key m) = true
  /\ all_bytes safe_byte (m_val m) = true.
Proof.
  unfold embeddable. intros E. apply andb_prop in E as [E V].
  apply andb_prop in E as [L K]. auto.
Qed.

Lemma safe_no (c : ascii) (s : string) :
  all_bytes safe_byte s = true -> safe_byte c = false -> smem c s = false.
Proof. intros A N. apply (all_bytes_smem safe_byte); assumption. Qed.

Lemma escape_member_text (m : member) (rest : string) :
  embeddable m = true ->
  escape (member_text m) +:+ rest = m_lead m +:+ (escape (member_core m) +:+ rest).
Proof.
  intros E. destruct (embeddable_parts m E) as (L & K & V).
  rewrite member_text_core, escape_append, append_assoc.
  rewrite (escape_plain (m_lead m)) by (apply (spaces_no dquote); [exact L | reflexivity]).
  reflexivity.
Qed.

(** One escaped member under the first pattern of the field [g]. *)
Lemma replace1_member (g : string) (m : member) (rest : string) :
  all_bytes name_byte g = true -> embeddable m = true -> closes rest = true ->
  replace_loop (re1 g) (emasked g) O (escape (member_text m) +:+ rest)
  = escape (member_text (mask_member [g] m))
      +:+ replace_loop (re1 g) (emasked g) O rest.
Proof.
  intros G E C. destruct (embeddable_parts m E) as (L & K & V).
  assert (Dk : smem dquote (m_key m) = false)
    by (apply (all_bytes_smem name_byte); [exact K | reflexivity]).
  assert (Bk : smem "\" (m_key m) = false) by (apply name_no_backslash, K).
  assert (Dv : smem dquote (m_val m) = false) by (apply safe_no; [exact V | reflexivity]).
  assert (Bv : smem "\" (m_val m) = false) by (apply safe_no; [exact V | reflexivity]).
  assert (Nv : smem newline (m_val m) = false) by (apply safe_no; [exact V | reflexivity]).
  assert (Bl : smem "\" (m_lead m) = false)
    by (apply (spaces_no "\"); [exact L | reflexivity]).
  assert (Em : embeddable (mask_member [g] m) = true).
  { rewrite mask_member_one. destruct (String.eqb (m_key m) g); [|exact E].
    unfold embeddable. cbn [m_lead m_key m_val]. rewrite L, K. reflexivity. }
  rewrite (escape_member_text m rest E), (escape_member_text _ _ Em).
  rewrite replace1_run by exact Bl.
  rewrite mask_member_one.
  destruct (String.eqb_spec (m_key m) g) as [Eq|N].
  - cbn [m_lead]. f_equal.
    rewrite !escape_member_core by (assumption || reflexivity).
    cbn [m_key m_gap m_val srepeat append]. rewrite Eq.
    pose proof (replace1_key_value g (m_gap m) (m_val m) rest Dv Bv Nv) as R.
    unfold ekey_text, Q in R. cbn [append] in R. rewrite ?append_assoc in R.
    cbn [append] in R. rewrite R. unfold emasked, Q. cbn [append].
    rewrite ?append_assoc. cbn [append]. reflexivity.
  - f_equal. rewrite !escape_member_core by assumption.
    rewrite replace1_quote.
    2:{ destruct (strings.HasPrefix _ _) eqn:P; [|reflexivity].
        cbn [append] in P.
        apply (HasPrefix_to_backslash _ g _ _ Bk (name_no_backslash g G)) in P as [Eq _].
        congruence. }
    rewrite replace1_run by exact Bk.
    rewrite replace1_quote by (apply other_head_no_ekey; [exact G | reflexivity..]).
    rewrite replace1_byte by reflexivity.
    rewrite replace1_run by (apply srepeat_no; reflexivity).
    rewrite replace1_quote.
    2:{ destruct (strings.HasPrefix _ _) eqn:P; [|reflexivity].
        cbn [append] in P.
        apply (HasPrefix_to_backslash _ g _ _ Bv (name_no_backslash g G)) in P as [_ P].
        pose proof (closes_no_colon rest C) as X.
        unfold Q in P. cbn [append strings.HasPrefix] in P, X.
        rewrite X in P. rewrite ?andb_false_r in P. discriminate P. }
    rewrite replace1_run by exact Bv.
    rewrite replace1_quote by (apply closes_no_ekey; assumption).
    reflexivity.
Qed.

(** An escaped member is left as it is by the second pattern. *)
Lemma replace2_member (g : string) (m : member) (rest repl : string) :
  all_bytes name_byte g = true -> embeddable m = true -> closes rest = true ->
  replace_loop (re2 g) repl O (escape (member_text m) +:+ rest)
  = escape (member_text m) +:+ replace_loop (re2 g) repl O rest.
Proof.
  intros G E C. destruct (embeddable_parts m E) as (L & K & V).
  assert (Dk : smem dquote (m_key m) = false)
    by (apply (all_bytes_smem name_byte); [exact K | reflexivity]).
  assert (Dv : smem dquote (m_val m) = false) by (apply safe_no; [exact V | reflexivity]).
  assert (Dl : smem dquote (m_lead m) = false)
    by (apply (spaces_no dquote); [exact L | reflexivity]).
  pose proof (name_no_backslash g G) as Bg.
  rewrite !(escape_member_text m _ E).
  rewrite replace_run by exact Dl. f_equal.
  rewrite !escape_member_core by assumption.
  rewrite replace_byte by reflexivity.
  rewrite replace_quote by (apply HasPrefix_other_end; assumption).
  rewrite replace_run by exact Dk.
  rewrite replace_byte by reflexivity.
  rewrite replace_quote by (apply colon_no_key; exact G).
  rewrite replace_byte by reflexivity.
  rewrite replace_run by (apply srepeat_no; reflexivity).
  rewrite replace_byte by reflexivity.
  rewrite replace_quote by (apply HasPrefix_other_end; assumption).
  rewrite replace_run by exact Dv.
  rewrite replace_byte by reflexivity.
  rewrite replace_quote by (apply closes_no_key; assumption).
  reflexivity.
Qed.

Lemma escape_sjoin_cons (x y : string) (l : list string) :
  escape (sjoin "," (x :: y :: l)) = escape x +:+ "," +:+ escape (sjoin "," (y :: l)).
Proof. rewrite sjoin_cons, !escape_append. reflexivity. Qed.

Lemma embeddable_mask (ps : list string) (m : member) :
  embeddable m = true -> embeddable (mask_member ps m) = true.
Proof.
  intros E. unfold mask_member. destruct (sensitive ps (m_key m)); [|exact E].
  destruct (embeddable_parts m E) as (L & K & V).
  unfold embeddable. cbn [m_lead m_key m_val]. rewrite L, K. reflexivity.
Qed.

Lemma embeddable_masks (ps : list string) (ms : list member) :
  forallb embeddable ms = true -> forallb embeddable (map (mask_member ps) ms) = true.
Proof.
  induction ms as [|m ms IH]; [reflexivity|]. cbn [forallb map]. intros P.
  apply andb_prop in P as [Pm P]. rewrite (embeddable_mask ps m Pm), (IH P).
  reflexivity.
Qed.

(** The escaped members under the two patterns. *)
Lemma replace1_members (g : string) (ms : list member) (trail tail : string) :
  all_bytes name_byte g = true -> forallb embeddable ms = true ->
  all_bytes (Ascii.eqb " ") trail = true -> smem "\" tail = false ->
  replace_loop (re1 g) (emasked g) O
    (escape (sjoin "," (map member_text ms)) +:+ trail +:+ String "}" tail)
  = escape (sjoin "," (map member_text (map (mask_member [g]) ms)))
      +:+ trail +:+ String "}" tail.
Proof.
  intros G P T B.
  assert (E : replace_loop (re1 g) (emasked g) O (trail +:+ String "}" tail)
              = trail +:+ String "}" tail).
  { rewrite replace1_run by (apply (spaces_no "\"); [exact T | reflexivity]).
    rewrite replace1_byte by reflexivity.
    rewrite <- (append_nil_r tail) at 1. rewrite replace1_run by exact B.
    cbn [replace_loop]. rewrite append_nil_r. reflexivity. }
  induction ms as [|m ms IH]; [exact E|].
  cbn [forallb] in P. apply andb_prop in P as [Pm P].
  destruct ms as [|m' ms].
  - cbn [map sjoin]. rewrite replace1_member; try assumption.
    + rewrite E. reflexivity.
    + apply closes_trail, spaces_is_space, T.
  - cbn [map] in *. rewrite !escape_sjoin_cons, !append_assoc.
    rewrite replace1_member; try assumption; [|reflexivity].
    cbn [append]. rewrite replace1_byte by reflexivity.
    rewrite (IH P). reflexivity.
Qed.

Lemma replace2_members (g : string) (ms : list member) (trail repl : string) :
  all_bytes name_byte g = true -> forallb embeddable ms = true ->
  all_bytes (Ascii.eqb " ") trail = true ->
  replace_loop (re2 g) repl O
    (escape (sjoin "," (map member_text ms)) +:+ trail
       +:+ String "}" (String dquote "}"))
  = escape (sjoin "," (map member_text ms)) +:+ trail
      +:+ String "}" (String dquote "}").
Proof.
  intros G P T.
  assert (E : replace_loop (re2 g) repl O (trail +:+ String "}" (String dquote "}"))
              = trail +:+ String "}" (String dquote "}")).
  { rewrite replace_run by (apply (spaces_no dquote); [exact T | reflexivity]).
    rewrite replace_byte by reflexivity.
    rewrite replace_quote by (apply closes_no_key; [exact G | reflexivity]).
    rewrite replace_byte by reflexivity. reflexivity. }
  induction ms as [|m ms IH]; [exact E|].
  cbn [forallb] in P. apply andb_prop in P as [Pm P].
  destruct ms as [|m' ms].
  - cbn [map sjoin]. rewrite replace2_member; try assumption.
    + rewrite E. reflexivity.
    + apply closes_trail, spaces_is_space, T.
  - cbn [map] in *. rewrite !escape_sjoin_cons, !append_assoc.
    rewrite replace2_member; try assumption; [|reflexivity].
    cbn [append]. rewrite replace_byte by reflexivity.
    rewrite (IH P). reflexivity.
Qed.

Lemma wrapped_text (b : string) (ms : list member) (trail : string) :
  all_bytes (Ascii.eqb " ") trail = true ->
  wrapped b ms trail
  = String "{" (String dquote (b +:+ String dquote (String ":" (String dquote
      (String "{" (escape (sjoin "," (map member_text ms)) +:+ trail
         +:+ String "}" (String dquote "}"))))))).
Proof.
  intros T. unfold wrapped, object_text, Q. rewrite !escape_append.
  rewrite (escape_plain trail) by (apply (spaces_no dquote); [exact T | reflexivity]).
  cbn [escape Ascii.eqb Bool.eqb append]. rewrite ?append_assoc. cbn [append].
  rewrite ?append_assoc. cbn [append]. reflexivity.
Qed.

End Escaped_members.

Section Embedded.
Context `{Float64} `{!Printf} `{Decls}.
Import regexp.

(** [obscureParam] on an object text held in a string field. *)
Lemma obscureParam_wrapped (g b : string) (ms : list member) (trail : string) :
  all_bytes name_byte g = true -> all_bytes name_byte b = true -> b <> g ->
  forallb embeddable ms = true -> all_bytes (Ascii.eqb " ") trail = true ->
  obscureParam (wrapped b ms trail) g = wrapped b (map (mask_member [g]) ms) trail.
Proof.
  intros G B N P T.
  assert (Db : smem dquote b = false)
    by (apply (all_bytes_smem name_byte); [exact B | reflexivity]).
  assert (O : obscureParam (wrapped b ms trail) g
              = replace_loop (re2 g) (masked g) O
                  (replace_loop (re1 g) (emasked g) O (wrapped b ms trail)))
    by reflexivity.
  rewrite O, !wrapped_text by exact T.
  (* the first pattern *)
  rewrite replace1_byte by reflexivity. rewrite replace1_byte by reflexivity.
  rewrite replace1_run by (apply name_no_backslash, B).
  rewrite replace1_byte by reflexivity. rewrite replace1_byte by reflexivity.
  rewrite replace1_byte by reflexivity. rewrite replace1_byte by reflexivity.
  rewrite replace1_members by (assumption || reflexivity).
  (* the second pattern *)
  rewrite replace_byte by reflexivity.
  rewrite replace_quote.
  2:{ destruct (strings.HasPrefix _ _) eqn:H2; [|reflexivity].
      apply (HasPrefix_to_quote b g _ _ Db (f_no_quote g G)) in H2 as [Eq _].
      congruence. }
  rewrite replace_run by exact Db.
  rewrite replace_quote by (apply colon_no_key; exact G).
  rewrite replace_byte by reflexivity.
  rewrite replace_quote by (apply other_head_no_key; [exact G | reflexivity..]).
  rewrite replace_byte by reflexivity.
  rewrite replace2_members; [reflexivity | exact G | apply embeddable_masks, P | exact T].
Qed.

Lemma sensitive_cons (g : string) (ps : list string) (b : string) :
  sensitive (g :: ps) b = false -> b <> g /\ sensitive ps b = false.
Proof.
  unfold sensitive. cbn [existsb]. intros S. apply orb_false_elim in S as [S1 S2].
  split; [|exact S2]. intros ->. rewrite String.eqb_refl in S1. discriminate.
Qed.

Lemma obscure_wrapped (ps : list string) (b : string) (ms : list member)
  (trail : string) :
  names ps = true -> all_bytes name_byte b = true -> sensitive ps b = false ->
  forallb embeddable ms = true -> all_bytes (Ascii.eqb " ") trail = true ->
  fold_left obscureParam ps (wrapped b ms trail)
  = wrapped b (map (mask_member ps) ms) trail.
Proof.
  revert ms. induction ps as [|g ps IH]; intros ms N B S P T.
  - cbn [fold_left]. f_equal. clear. induction ms as [|m ms IH]; [reflexivity|].
    cbn [map]. rewrite <- IH. reflexivity.
  - cbn [names forallb] in N. apply andb_prop in N as [G N].
    apply sensitive_cons in S as [Ne S].
    cbn [fold_left]. rewrite obscureParam_wrapped by assumption.
    rewrite IH; [|exact N | exact B | exact S | apply embeddable_masks, P | exact T].
    f_equal. rewrite map_map. apply map_ext. intros m.
    symmetry. apply mask_member_cons.
Qed.

End Embedded.

Section Embedded_message.
Context `{Float64} `{!Printf} `{Decls}.

Lemma quotable_facts (c : ascii) :
  quotable c = true ->
  (code c <? 128)%N = true /\ (code c <? 32)%N = false
  /\ Ascii.eqb c json.backslash = false
  /\ (Ascii.eqb c dquote = false -> json.htmlSafe c = true).
Proof.
  intros Qc. destruct c as [[] [] [] [] [] [] [] []]; vm_compute in Qc |- *;
    try discriminate Qc; repeat split; congruence.
Qed.

(** [json.Marshal] writes a quotable text with its quotes escaped. *)
Lemma quote_loop_escape (x : string) :
  all_bytes quotable x = true -> json.quote_loop 0 x = escape x.
Proof.
  induction x as [|c x IH]; [reflexivity|]. cbn [all_bytes]. intros A.
  apply andb_prop in A as [Qc A].
  destruct (quotable_facts c Qc) as (L & _ & B & S).
  cbn [json.quote_loop escape]. rewrite L, (IH A).
  destruct (Ascii.eqb c dquote) eqn:D.
  - apply Ascii.eqb_eq in D. subst c. reflexivity.
  - rewrite (S eq_refl). reflexivity.
Qed.

(** A string literal with escaped quotes denotes the text. *)
Lemma string_body_escape (x rest : string) :
  all_bytes quotable x = true ->
  json.string_body 0 (escape x +:+ String dquote rest) = Some (x, rest).
Proof.
  induction x as [|c x IH]; intros A.
  - cbn [escape append json.string_body]. rewrite Ascii.eqb_refl. reflexivity.
  - cbn [all_bytes] in A. apply andb_prop in A as [Qc A].
    destruct (quotable_facts c Qc) as (L & L32 & B & _).
    cbn [escape]. destruct (Ascii.eqb c dquote) eqn:D.
    + apply Ascii.eqb_eq in D. subst c.
      cbn [append json.string_body json.simple_escape Ascii.eqb Bool.eqb andb
           N.ltb N.compare code N_of_ascii N_of_digits].
      change (code "\" <? 32)%N with false. cbn iota.
      change (Ascii.eqb "\" json.backslash) with true. cbn iota.
      change (json.simple_escape dquote) with (Some dquote). cbn iota.
      cbn [json.string_body]. rewrite (IH A). reflexivity.
    + cbn [append json.string_body]. rewrite D, L32, B, L, (IH A). reflexivity.
Qed.

(** The bytes of an object text. *)
Lemma object_text_bytes (p : ascii -> bool) (ms : list member) (trail : string) :
  all_bytes p ("{},:" +:+ Q +:+ " ") = true ->
  forallb (fun m => all_bytes p (m_lead m) && all_bytes p (m_key m)
                    && all_bytes p (m_val m)) ms = true ->
  all_bytes p trail = true ->
  all_bytes p (object_text ms trail) = true.
Proof.
  intros C P T. unfold Q in C. cbn [append all_bytes] in C.
  apply andb_prop in C as [C1 C]. apply andb_prop in C as [C2 C].
  apply andb_prop in C as [C3 C]. apply andb_prop in C as [C4 C].
  apply andb_prop in C as [C5 C]. apply andb_prop in C as [C6 _].
  assert (Sp : forall n, all_bytes p (srepeat " " n) = true).
  { induction n as [|n IH]; [reflexivity|]. cbn [srepeat all_bytes]. rewrite C6, IH.
    reflexivity. }
  assert (M : forall m, all_bytes p (m_lead m) && all_bytes p (m_key m)
                        && all_bytes p (m_val m) = true ->
                        all_bytes p (member_text m) = true).
  { intros m Pm. apply andb_prop in Pm as [Pm V]. apply andb_prop in Pm as [L K].
    unfold member_text, Q. rewrite !all_bytes_append. cbn [all_bytes].
    rewrite L, K, V, Sp, C4, C5. reflexivity. }
  unfold object_text. cbn [append all_bytes]. rewrite C1. cbn [andb].
  assert (E : all_bytes p (trail +:+ "}") = true).
  { rewrite all_bytes_append, T. cbn [all_bytes]. rewrite C2. reflexivity. }
  induction ms as [|m ms IH]; [exact E|].
  cbn [forallb] in P. apply andb_prop in P as [Pm P].
  destruct ms as [|m' ms].
  - cbn [map sjoin]. rewrite all_bytes_append, (M m Pm). exact E.
  - cbn [map]. rewrite sjoin_cons, !append_assoc, all_bytes_append, (M m Pm).
    cbn [append all_bytes andb]. rewrite C3. cbn [andb]. exact (IH P).
Qed.

Lemma quotable_object_text (ms : list member) (trail : string) :
  forallb embeddable ms = true -> all_bytes (Ascii.eqb " ") trail = true ->
  all_bytes quotable (object_text ms trail) = true.
Proof.
  intros P T.
  assert (W : forall s, all_bytes (Ascii.eqb " ") s = true -> all_bytes quotable s = true).
  { intros s. apply all_bytes_weaken. intros c E. apply Ascii.eqb_eq in E. subst c.
    reflexivity. }
  assert (Ws : forall s, all_bytes safe_byte s = true -> all_bytes quotable s = true).
  { intros s. apply all_bytes_weaken. intros c E. unfold quotable. rewrite E. reflexivity. }
  assert (Wn : forall s, all_bytes name_byte s = true -> all_bytes quotable s = true).
  { intros s. apply all_bytes_weaken. intros c E. unfold quotable, safe_byte.
    rewrite (name_is_value_byte c E), (name_is_safe_byte c E). reflexivity. }
  apply object_text_bytes; [reflexivity | | apply W, T].
  induction ms as [|m ms IH]; [reflexivity|]. cbn [forallb] in *.
  apply andb_prop in P as [Pm P]. rewrite (IH P), andb_true_r.
  destruct (embeddable_parts m Pm) as (L & K & V).
  rewrite (W _ L), (Wn _ K), (Ws _ V). reflexivity.
Qed.

(** The serialized form of an object with one string field. *)
Lemma quoted_wrapped (b : string) (ms : list member) (trail : string) :
  all_bytes name_byte b = true ->
  forallb embeddable ms = true -> all_bytes (Ascii.eqb " ") trail = true ->
  "{" +:+ json.quote b +:+ ":" +:+ json.quote (object_text ms trail) +:+ "}"
  = wrapped b ms trail.
Proof.
  intros B P T. unfold json.quote at 2.
  rewrite (quote_loop_escape _ (quotable_object_text ms trail P T)).
  rewrite (quote_plain b (all_name_safe b B)).
  unfold wrapped. rewrite ?append_assoc. reflexivity.
Qed.

Lemma Marshal_wrapped (b : string) (ms : list member) (trail : string) :
  all_bytes name_byte b = true ->
  forallb embeddable ms = true -> all_bytes (Ascii.eqb " ") trail = true ->
  json.Marshal (VMap [(b, VString (object_text ms trail))])
  = Some (wrapped b ms trail).
Proof.
  intros B P T. rewrite <- (quoted_wrapped b ms trail B P T).
  cbn [json.Marshal mbind option_bind fst snd sjoin].
  rewrite ?append_assoc. reflexivity.
Qed.

(** An object with one string field, decoded. *)
Lemma parse_wrapped (b : string) (ms : list member) (trail : string) :
  all_bytes name_byte b = true ->
  forallb embeddable ms = true -> all_bytes (Ascii.eqb " ") trail = true ->
  json.parse (wrapped b ms trail)
  = Some (VMap [(b, VString (object_text ms trail))]).
Proof.
  intros B P T. pose proof (quotable_object_text ms trail P T) as Qx.
  unfold wrapped, json.parse. unfold Q. cbn [append json.skip_space].
  change (json.is_space "{") with false. cbn iota.
  remember (escape (object_text ms trail)) as x eqn:X.
  cbn [String.length].
  match goal with
  | |- context [json.value_p ?n _ _] =>
      replace n with (S (S (S (n - 3)))) by lia
  end.
  assert (D : exists d, json.maxNestingDepth = S d)
    by (exists (Z.to_nat 9999); reflexivity).
  destruct D as [d ->]. cbn [json.value_p].
  change (Ascii.eqb "{" "{") with true. cbn iota.
  cbn [json.skip_space]. change (json.is_space dquote) with false. cbn iota.
  cbn [fmt.starts_with]. change (Ascii.eqb "}" dquote) with false. cbn iota.
  cbn [json.members_p]. change (Ascii.eqb dquote dquote) with true. cbn iota.
  rewrite (string_body_plain b _ (all_name_value _ B)).
  cbn [mbind option_bind fst snd json.skip_space].
  change (json.is_space ":") with false. cbn iota. rewrite Ascii.eqb_refl.
  cbn [json.skip_space]. change (json.is_space dquote) with false. cbn iota.
  cbn [json.value_p].
  change (Ascii.eqb dquote "{") with false.
  change (Ascii.eqb dquote "[") with false. cbn iota.
  change (Ascii.eqb dquote dquote) with true. cbn iota. subst x.
  rewrite (string_body_escape _ _ Qx).
  cbn [mbind option_bind fst snd json.skip_space].
  change (json.is_space "}") with false. cbn iota.
  change (Ascii.eqb "}" ",") with false. cbn iota. rewrite Ascii.eqb_refl.
  cbn [mbind option_bind fst snd json.skip_space map_set]. reflexivity.
Qed.

(** An object text held in a string field of an object, the field not
    being sensitive itself: [json.Marshal] writes its quotes escaped, the
    first pattern of [obscureParam] masks the members that carry a
    sensitive name and the second one finds nothing, and the message is
    the object whose field holds the text with those members masked.  The
    same holds when the serialized text is logged as a string. *)
Theorem embedded_object_is_masked
  (st : state) (b : string) (ms : list member) (trail : string) :
  obscureSensitiveDataEnabled st = true ->
  names (sensitiveParams st) = true ->
  all_bytes name_byte b = true -> sensitive (sensitiveParams st) b = false ->
  forallb embeddable ms = true -> all_bytes (Ascii.eqb " ") trail = true ->
  composeMessage st [VMap [(b, VString (object_text ms trail))]]
  = Ok (VMap [(b, VString (object_text
                             (map (mask_member (sensitiveParams st)) ms) trail))])
  /\ composeMessage st
       [VString ("{" +:+ json.quote b +:+ ":"
                     +:+ json.quote (object_text ms trail) +:+ "}")]
     = Ok (VMap [(b, VString (object_text
                                (map (mask_member (sensitiveParams st)) ms) trail))]).
Proof.
  intros E N B S P T.
  pose proof (quoted_wrapped b ms trail B P T) as W.
  assert (I : map (mask_member []) ms = ms).
  { clear. induction ms as [|m ms IH]; [reflexivity|]. cbn [map]. rewrite IH.
    reflexivity. }
  assert (R : strToObj (obscureSensitiveData st (wrapped b ms trail))
              = VMap [(b, VString (object_text
                                     (map (mask_member (sensitiveParams st)) ms) trail))]).
  { unfold obscureSensitiveData. rewrite obscure_wrapped by assumption.
    unfold strToObj, json.Valid, json.Unmarshal.
    rewrite parse_wrapped; [reflexivity | exact B | apply embeddable_masks, P | exact T]. }
  split.
  - cbn [composeMessage adaptMessage]. fold (redacting st).
    destruct (redacting st) eqn:Rd.
    + cbv zeta. rewrite (Marshal_wrapped b ms trail B P T). cbn [default]. unfold id.
      rewrite R. reflexivity.
    + unfold redacting in Rd. rewrite E in Rd. cbn [andb] in Rd.
      destruct (sensitiveParams st) as [|g ps]; [|discriminate Rd].
      rewrite I. reflexivity.
  - rewrite W, composeMessage_string. unfold redacted.
    destruct (redacting st) eqn:Rd.
    + rewrite R. reflexivity.
    + unfold redacting in Rd. rewrite E in Rd. cbn [andb] in Rd.
      destruct (sensitiveParams st) as [|g ps]; [|discriminate Rd].
      rewrite I. unfold strToObj, json.Valid, json.Unmarshal.
      rewrite parse_wrapped by assumption. reflexivity.
Qed.

End Embedded_message.

(** ** Percent signs *)

Section Verbs.
Import fmt.

(** A letter after a percent sign is a verb whose operand is missing. *)
Lemma verb0_letter (c : ascii) (r : string) :
  letter c = true ->
  verb0 (String c r) = ("%!" +:+ String c "(MISSING)", 1%nat).
Proof.
  intros L. destruct c as [[] [] [] [] [] [] [] []]; vm_compute in L;
    try discriminate L; vm_compute; reflexivity.
Qed.

Lemma doPrintf0_letter (c : ascii) (r : string) :
  letter c = true ->
  doPrintf0 O (String "%" (String c r))
  = "%!" +:+ String c "(MISSING)" +:+ doPrintf0 O r.
Proof.
  intros L. rewrite doPrintf0_pct, (verb0_letter c r L). cbn [fst snd sdrop].
  rewrite ?append_assoc. reflexivity.
Qed.

Lemma doPrintf0_percent (r : string) :
  doPrintf0 O (String "%" (String "%" r)) = String "%" (doPrintf0 O r).
Proof. rewrite doPrintf0_pct. reflexivity. Qed.

Lemma doPrintf0_plain (s : string) : no_pct s -> doPrintf0 O s = s.
Proof.
  intros N. rewrite <- (append_nil_r s) at 1. rewrite doPrintf0_no_pct by exact N.
  cbn. apply append_nil_r.
Qed.

End Verbs.

Section Percent.
Context `{Float64} `{!Printf} `{Decls}.

Lemma letter_safe (c : ascii) : letter c = true -> safe_byte c = true.
Proof.
  intros L. destruct c as [[] [] [] [] [] [] [] []]; vm_compute in L |- *; congruence.
Qed.

Lemma object_text_hole (m1 m2 m3 : member) (ms : list member) (trail : string) :
  object_text (m1 :: m2 :: m3 :: ms) trail
  = ("{" +:+ member_text m1 +:+ "," +:+ m_lead m2 +:+ Q +:+ m_key m2 +:+ Q
         +:+ ":" +:+ srepeat " " (m_gap m2) +:+ Q)
      +:+ m_val m2
      +:+ (Q +:+ "," +:+ sjoin "," (map member_text (m3 :: ms)) +:+ trail +:+ "}").
Proof.
  unfold object_text. cbn [map]. rewrite !sjoin_cons. unfold member_text at 2.
  rewrite ?append_assoc. cbn [append]. rewrite ?append_assoc. reflexivity.
Qed.

(** The record text is a text around the message, with no percent sign
    of its own. *)
Lemma render_hole (st : state) (level : string) :
  plain_envelope st level = true -> colorEnabled st = false ->
  exists pre post,
    no_pct pre /\ no_pct post
    /\ forall s, all_bytes safe_byte s = true ->
         render st (envelope st level (VString s)) = pre +:+ s +:+ post.
Proof.
  intros P C.
  assert (X : exists pre post,
            forall s, all_bytes safe_byte s = true ->
              render st (envelope st level (VString s)) = pre +:+ s +:+ post).
  { destruct (JSONPrettyPrint st) eqn:J.
    - eexists. eexists. intros s S. rewrite render_plain by assumption. rewrite J.
      unfold record_fields. cbn [app map]. rewrite object_text_hole.
      cbn [indented m_lead m_key m_gap m_val fst snd Time envelope].
      reflexivity.
    - eexists. eexists. intros s S. rewrite render_plain by assumption. rewrite J.
      rewrite flat_object_tight.
      unfold record_fields. cbn [app map]. rewrite object_text_hole.
      cbn [tight m_lead m_key m_gap m_val fst snd Time envelope].
      reflexivity. }
  destruct X as (pre & post & X). exists pre, post.
  pose proof (render_plain_no_pct st level "" P eq_refl C) as N.
  rewrite (X "" eq_refl) in N. cbn [append] in N. rewrite smem_append in N.
  apply orb_false_elim in N as [N1 N2]. repeat split; assumption.
Qed.

(** A percent sign in a single plain message.  Followed by a letter it
    reaches the sink as the marker of a missing operand: what is written is
    the record of the message with [%!c(MISSING)] in the place of [%c].
    Doubled, it reaches the sink as one percent sign. *)
Theorem percent_sign_in_a_message
  (e : entry) (st : state) (a b : string) (c : ascii) :
  redacting st = false -> colorEnabled st = false ->
  plain_envelope st (label_of e) = true ->
  all_bytes text_byte a = true -> all_bytes text_byte b = true ->
  letter c = true -> rank e >= logLevel st ->
  (json.Valid (a +:+ String "%" (String c b)) = false ->
   writes e [VString (a +:+ String "%" (String c b))] st
     (render st (envelope st (label_of e)
                   (VString (a +:+ "%!" +:+ String c "(MISSING)" +:+ b)))))
  /\ (json.Valid (a +:+ "%%" +:+ b) = false ->
      writes e [VString (a +:+ "%%" +:+ b)] st
        (render st (envelope st (label_of e) (VString (a +:+ "%" +:+ b))))).
Proof.
  intros R C P A B L G.
  destruct (render_hole st (label_of e) P C) as (pre & post & Npre & Npost & X).
  pose proof (text_is_safe a A) as Sa. pose proof (text_is_safe b B) as Sb.
  pose proof (letter_safe c L) as Sc.
  assert (W : forall s s', all_bytes safe_byte s = true -> all_bytes safe_byte s' = true ->
              json.Valid s = false ->
              fmt.doPrintf0 O (s +:+ post) = s' +:+ post ->
              writes e [VString s] st
                (render st (envelope st (label_of e) (VString s')))).
  { intros s s' S S' V D.
    assert (CL : composeLog st (label_of e) [VString s]
                 = Ok (render st (envelope st (label_of e) (VString s)))).
    { rewrite composeLog_render, composeMessage_plain by assumption. reflexivity. }
    unfold writes. rewrite (call_logWriter e [VString s] st _ CL).
    destruct (Z.geb_spec (rank e) (logLevel st)); [|lia].
    rewrite (X s S), (X s' S'). unfold fmt.Sprintf0.
    rewrite doPrintf0_no_pct by exact Npre. rewrite D. reflexivity. }
  split; intros V.
  - apply W; [| |exact V|].
    + rewrite all_bytes_append, Sa. cbn [all_bytes andb]. rewrite Sc, Sb. reflexivity.
    + rewrite !all_bytes_append, Sa. cbn [all_bytes append andb]. rewrite Sc.
      cbn [andb]. rewrite Sb. reflexivity.
    + rewrite append_assoc. rewrite doPrintf0_no_pct by (apply text_no_pct, A).
      cbn [append]. rewrite doPrintf0_letter by exact L.
      rewrite doPrintf0_no_pct by (apply text_no_pct, B).
      rewrite (doPrintf0_plain post Npost).
      rewrite ?append_assoc. cbn [append]. rewrite ?append_assoc. reflexivity.
  - apply W; [| |exact V|].
    + rewrite !all_bytes_append, Sa, Sb. reflexivity.
    + rewrite !all_bytes_append, Sa, Sb. reflexivity.
    + rewrite !append_assoc. rewrite doPrintf0_no_pct by (apply text_no_pct, A).
      cbn [append]. rewrite doPrintf0_percent.
      rewrite doPrintf0_no_pct by (apply text_no_pct, B).
      rewrite (doPrintf0_plain post Npost). reflexivity.
Qed.

End Percent.

(** ** The time field, the sink, and sensitive numbers *)

Section Time_prefix.
Context `{Float64} `{!Printf} `{Decls}.

Lemma split_loop_head (s : string) :
  forall cur, no_m cur ->
    exists rest,
      cur +:+ s = hd "" (strings.split_loop "m" 0 cur s) +:+ rest
      /\ (rest = "" \/ exists r, rest = String "m" r)
      /\ no_m (hd "" (strings.split_loop "m" 0 cur s)).
Proof.
  induction s as [|c s IH]; intros cur N.
  - exists "". cbn [strings.split_loop hd]. repeat split; [left; reflexivity | exact N].
  - cbn [strings.split_loop strings.HasPrefix].
    destruct (Ascii.eqb_spec "m" c) as [<-|Ne]; cbn [andb].
    + exists (String "m" s). cbn [hd]. repeat split; [right; eauto | exact N].
    + destruct (IH (cur +:+ String c "")) as (rest & E & R & M).
      { apply no_m_append; [exact N|]. unfold no_m. cbn [smem].
        destruct (Ascii.eqb_spec "m" c); [congruence | reflexivity]. }
      exists rest. rewrite <- E, append_assoc. repeat split; assumption.
Qed.

(** Whatever the clock and the zone, the time field is the text of the
    time stamp before its first letter m. *)
Theorem time_field_stops_before_m (st : state) (level : string) (m : value) :
  exists rest,
    time.String_ (now st) = Time (envelope st level m) +:+ rest
    /\ (rest = "" \/ exists r, rest = String "m" r)
    /\ smem "m" (Time (envelope st level m)) = false.
Proof.
  cbn [Time envelope]. unfold strings.Split.
  destruct (split_loop_head (time.String_ (now st)) "" eq_refl) as (rest & E & R & M).
  exists rest. repeat split; assumption.
Qed.

End Time_prefix.

Section Appends.
Context `{Float64} `{!Printf} `{Decls}.

(** A log call leaves the package variables as they are but for the sink,
    to which it adds at most one item; [Panic] leaves the sink as it is
    too. *)
Theorem calls_only_append (e : entry) (message : list value) (st : state) :
  (final (call e message st) = st
   \/ exists text, final (call e message st)
                   = set_logWriter (logWriter st ++ [text])%list st)
  /\ final (Panic message st) = st.
Proof.
  split.
  - rewrite call_printLog. unfold printLog.
    destruct (index_int logLevels (label_of e) >=? logLevel st); [|left; reflexivity].
    destruct (composeLog st (label_of e) message) as [r|p]; cbn [bind].
    + right. exists (fmt.Sprintf0 r). reflexivity.
    + left. reflexivity.
  - unfold Panic. destruct (composeLog st panicLabel message); reflexivity.
Qed.

End Appends.

Section Numbers.
Context `{Float64} `{!Printf} `{Decls}.
Import regexp.

Lemma match_here_lazy_none (re : Regexp) (x : string) :
  smem dquote x = false -> match_here (LazyAny :: Lit Q :: re) x = None.
Proof.
  intros D. unfold Q. induction x as [|c x IH].
  - reflexivity.
  - cbn [smem] in D. apply orb_false_elim in D as [D1 D2].
    rewrite match_here_lazy, match_here_lit. cbn [strings.HasPrefix].
    rewrite D1. cbn [andb]. rewrite (IH D2).
    destruct (Ascii.eqb c newline); reflexivity.
Qed.

(** A key that no quote follows is copied. *)
Lemma replace_key_alone (f x repl : string) :
  all_bytes name_byte f = true -> smem dquote x = false ->
  replace_loop (re2 f) repl O (key_text f +:+ x) = key_text f +:+ x.
Proof.
  intros F D.
  assert (M : match_here (re2 f) (key_text f +:+ x) = None).
  { unfold re2. rewrite match_here_lit, HasPrefix_append, sdrop_append.
    rewrite (match_here_lazy_none _ x D). reflexivity. }
  assert (T : key_text f +:+ x
              = String dquote (f +:+ String dquote (String ":" x))).
  { unfold key_text, Q. rewrite ?append_assoc. cbn [append]. rewrite ?append_assoc.
    reflexivity. }
  rewrite T in *. cbn [replace_loop]. rewrite M.
  rewrite replace_run by (apply f_no_quote, F).
  rewrite replace_quote by (apply colon_no_key, F).
  rewrite replace_byte by reflexivity.
  rewrite <- (append_nil_r x) at 1. rewrite replace_run by exact D.
  cbn [replace_loop]. rewrite append_nil_r. reflexivity.
Qed.

Lemma Index_prefix (key x : string) : strings.Index (key +:+ x) key = 0.
Proof.
  destruct (key +:+ x) eqn:X; cbn [strings.Index]; rewrite <- X, HasPrefix_append;
    reflexivity.
Qed.

Lemma Index_after_brace (f x : string) :
  strings.Index ("{" +:+ key_text f +:+ x) (key_text f) = Z.of_nat (String.length "{").
Proof.
  cbn [append strings.Index String.length].
  rewrite Index_prefix. unfold key_text at 2. unfold Q. cbn [append strings.HasPrefix].
  reflexivity.
Qed.

Lemma itoa_no (c : ascii) (n : Z) : text_byte c = false -> smem c (fmt.itoa n) = false.
Proof. intros N. apply (all_bytes_smem text_byte); [apply text_itoa | exact N]. Qed.

(** A sensitive field whose value is a number.  Alone in its object it is
    left as it is; followed by a field with a string value, the number, the
    comma and the next key are replaced by the mask, and what is left is
    not JSON. *)
Theorem sensitive_number_value (st : state) (f k v : string) (n : Z) :
  obscureSensitiveDataEnabled st = true -> sensitiveParams st = [f] ->
  all_bytes name_byte f = true -> all_bytes name_byte k = true ->
  all_bytes value_byte v = true ->
  composeMessage st [VString ("{" +:+ key_text f +:+ fmt.itoa n +:+ "}")]
  = Ok (strToObj ("{" +:+ key_text f +:+ fmt.itoa n +:+ "}"))
  /\ composeMessage st
       [VString ("{" +:+ key_text f +:+ fmt.itoa n +:+ ","
                     +:+ flat_member (k, v) +:+ "}")]
     = Ok (VString ("{" +:+ masked f +:+ ":" +:+ Q +:+ v +:+ Q +:+ "}")).
Proof.
  intros E P F K V.
  assert (Dk : smem dquote k = false)
    by (apply (all_bytes_smem name_byte); [exact K | reflexivity]).
  assert (Nk : smem newline k = false)
    by (apply (all_bytes_smem name_byte); [exact K | reflexivity]).
  assert (Dv : smem dquote v = false)
    by (apply (all_bytes_smem value_byte); [exact V | reflexivity]).
  assert (Bv : smem "\" v = false)
    by (apply (all_bytes_smem value_byte); [exact V | reflexivity]).
  assert (Bk : smem "\" k = false)
    by (apply (all_bytes_smem name_byte); [exact K | reflexivity]).
  assert (Bf : smem "\" f = false)
    by (apply (all_bytes_smem name_byte); [exact F | reflexivity]).
  split.
  - rewrite composeMessage_string, (redacted_single st f) by assumption.
    do 2 f_equal. rewrite obscureParam_no_backslash.
    + cbn [append]. rewrite (replace_byte f) by reflexivity.
      change (replace_loop [Lit (key_text f); LazyAny; Lit Q; LazyAny; Lit Q])
        with (replace_loop (re2 f)).
      rewrite replace_key_alone; [reflexivity | exact F |].
      rewrite smem_append, itoa_no by reflexivity. reflexivity.
    + unfold key_text, Q. cbn [append smem]. rewrite !smem_append. cbn [smem].
      rewrite Bf, itoa_no by reflexivity. reflexivity.
  - rewrite composeMessage_string, (redacted_single st f) by assumption.
    assert (T : "{" +:+ key_text f +:+ fmt.itoa n +:+ "," +:+ flat_member (k, v) +:+ "}"
                = "{" +:+ key_text f +:+ (fmt.itoa n +:+ ",")
                    +:+ String dquote (k +:+ String dquote (":" +:+ Q +:+ v +:+ Q +:+ "}"))).
    { unfold flat_member, Q. cbn [fst snd]. rewrite ?append_assoc. cbn [append].
      rewrite ?append_assoc. reflexivity. }
    rewrite T.
    rewrite (obscureParam_key_value f "{" (fmt.itoa n +:+ ",") k
               (":" +:+ Q +:+ v +:+ Q +:+ "}")).
    + assert (O : obscureParam (":" +:+ Q +:+ v +:+ Q +:+ "}") f
                  = ":" +:+ Q +:+ v +:+ Q +:+ "}").
      { rewrite obscureParam_no_backslash.
        - change (replace_loop [Lit (key_text f); LazyAny; Lit Q; LazyAny; Lit Q])
            with (replace_loop (re2 f)).
          unfold Q. cbn [append].
          rewrite replace_byte by reflexivity.
          rewrite replace_quote.
          2:{ destruct (strings.HasPrefix _ _) eqn:X; [|reflexivity].
              apply (HasPrefix_to_quote v f _ _ Dv (f_no_quote f F)) in X as [_ X].
              discriminate X. }
          rewrite replace_run by exact Dv.
          rewrite replace_quote by (apply closes_no_key; [exact F | reflexivity]).
          rewrite replace_byte by reflexivity. reflexivity.
        - unfold Q. cbn [append smem]. rewrite smem_append, Bv. reflexivity. }
      rewrite O. f_equal.
      set (m := {| m_lead := ""; m_key := f; m_gap := 1; m_val := mask |}).
      assert (X : "{" +:+ masked f +:+ ":" +:+ Q +:+ v +:+ Q +:+ "}"
                  = String "{" (member_core m +:+ String ":" (Q +:+ v +:+ Q +:+ "}"))).
      { unfold member_core, masked, m, Q. cbn [m_key m_gap m_val srepeat].
        rewrite ?append_assoc. cbn [append]. rewrite ?append_assoc. reflexivity. }
      unfold strToObj, json.Valid, json.parse. rewrite X.
      cbn [json.skip_space]. change (json.is_space "{") with false. cbn iota.
      cbn [String.length].
      match goal with
      | |- context [json.value_p ?fuel _ _] =>
          replace fuel with (S (S (S (fuel - 3)))) by lia
      end.
      assert (D : exists d, json.maxNestingDepth = S d)
        by (exists (Z.to_nat 9999); reflexivity).
      destruct D as [d ->]. cbn [json.value_p].
      change (Ascii.eqb "{" "{") with true. cbn iota.
      rewrite member_core_text. cbn [json.skip_space].
      change (json.is_space dquote) with false. cbn iota.
      cbn [fmt.starts_with]. change (Ascii.eqb "}" dquote) with false. cbn iota.
      rewrite <- member_core_text.
      rewrite members_p_member by (unfold plain_member, m; cbn; rewrite F; reflexivity).
      reflexivity.
    + cbn zeta. unfold key_text, Q.
      do 4 (rewrite ?smem_append; cbn [append smem]).
      rewrite Bf, Bk, Bv, itoa_no by reflexivity. reflexivity.
    + cbn zeta. rewrite !append_assoc. apply Index_after_brace.
    + rewrite smem_append, itoa_no by reflexivity. reflexivity.
    + rewrite smem_append, itoa_no by reflexivity. reflexivity.
    + exact Dk.
    + exact Nk.
Qed.

End Numbers.

(** ** Round trips *)

Section Round_trips.
Context `{Float64} `{!Printf} `{Decls}.


Lemma quote_escape (s : string) :
  all_bytes quotable s = true -> json.quote s = Q +:+ escape s +:+ Q.
Proof. intros A. unfold json.quote. rewrite (quote_loop_escape s A). reflexivity. Qed.

Lemma parse_quoted (s : string) :
  all_bytes quotable s = true -> json.parse (json.quote s) = Some (VString s).
Proof.
  intros A. rewrite (quote_escape s A). unfold json.parse, Q.
  cbn [append json.skip_space]. change (json.is_space dquote) with false. cbn iota.
  cbn [String.length].
  match goal with
  | |- context [json.value_p ?fuel _ _] => replace fuel with (S (fuel - 1)) by lia
  end.
  cbn [json.value_p].
  change (Ascii.eqb dquote "{") with false.
  change (Ascii.eqb dquote "[") with false. cbn iota.
  change (Ascii.eqb dquote dquote) with true. cbn iota.
  rewrite (string_body_escape s "" A). reflexivity.
Qed.

(** A string argument that is the JSON string literal of a text is logged
    as the text: the literal that [json.Marshal] writes for a text of
    printable ASCII without a backslash decodes to that text, and the
    record is the record of the text itself when that is not JSON. *)
Theorem quoted_string_is_unquoted (st : state) (level s : string) :
  redacting st = false -> all_bytes quotable s = true ->
  composeMessage st [VString (json.quote s)] = Ok (VString s)
  /\ (json.Valid s = false ->
      composeLog st level [VString (json.quote s)]
      = composeLog st level [VString s]).
Proof.
  intros R A.
  assert (E : composeMessage st [VString (json.quote s)] = Ok (VString s)).
  { rewrite composeMessage_string. unfold redacted, strToObj, json.Valid, json.Unmarshal.
    rewrite R, (parse_quoted s A). reflexivity. }
  split; [exact E|]. intros V.
  rewrite !composeLog_render, E, (composeMessage_plain st s R V). reflexivity.
Qed.

(** A field whose key comes after all the keys of a map is added at its
    end. *)
Lemma map_set_last (k : string) (v : value) (m : list (string * value)) :
  forallb (fun e => match String.compare (fst e) k with Lt => true | _ => false end) m
  = true ->
  map_set k v m = (m ++ [(k, v)])%list.
Proof.
  induction m as [|[k' v'] m IH]; [reflexivity|]. cbn [forallb fst]. intros A.
  apply andb_prop in A as [A1 A2]. cbn [map_set app].
  rewrite String.compare_antisym. destruct (String.compare k' k); try discriminate A1.
  cbn [CompOpp]. rewrite (IH A2). reflexivity.
Qed.

Lemma fold_add_ascending (kvs : list (string * string)) :
  forall acc : list (string * value),
    ascending kvs = true ->
    forallb (fun kv =>
               forallb (fun e => match String.compare (fst e) (fst kv) with
                                 | Lt => true | _ => false end) acc) kvs = true ->
    fold_left add_field kvs acc = (acc ++ fields kvs)%list.
Proof.
  induction kvs as [|kv kvs IH]; intros acc S B.
  - cbn. symmetry. apply app_nil_r.
  - cbn [ascending] in S. apply andb_prop in S as [S1 S2].
    cbn [forallb] in B. apply andb_prop in B as [B1 B2].
    cbn [fold_left fields map]. unfold add_field at 2.
    rewrite (map_set_last _ _ acc B1). rewrite IH; [|exact S2|].
    + rewrite <- app_assoc. reflexivity.
    + clear IH S2 B1. induction kvs as [|kv' kvs IH]; [reflexivity|].
      cbn [forallb] in *. apply andb_prop in S1 as [S1 S1'].
      apply andb_prop in B2 as [B2 B2']. rewrite (IH S1' B2'), andb_true_r.
      rewrite forallb_app, B2. cbn [forallb fst]. rewrite S1. reflexivity.
Qed.

Lemma object_of_ascending (kvs : list (string * string)) :
  ascending kvs = true -> object_of kvs = VMap (fields kvs).
Proof.
  intros S. unfold object_of.
  change (fold_left (fun m kv => map_set (fst kv) (VString (snd kv)) m) kvs [])
    with (fold_left add_field kvs []).
  rewrite fold_add_ascending; [reflexivity | exact S |].
  clear. induction kvs as [|kv kvs IH]; [reflexivity|]. cbn [forallb]. exact IH.
Qed.

Lemma ascending_mask (ps : list string) (kvs : list (string * string)) :
  ascending kvs = true -> ascending (map (mask_fields ps) kvs) = true.
Proof.
  induction kvs as [|kv kvs IH]; [reflexivity|]. cbn [ascending map]. intros S.
  apply andb_prop in S as [S1 S2]. rewrite (IH S2), andb_true_r.
  clear IH S2. induction kvs as [|kv' kvs IH]; [reflexivity|].
  cbn [forallb map] in *. apply andb_prop in S1 as [S1 S1'].
  rewrite (IH S1'), andb_true_r. exact S1.
Qed.

Lemma mask_tight (ps : list string) (kvs : list (string * string)) :
  map member_field (map (mask_member ps) (map tight kvs)) = map (mask_fields ps) kvs.
Proof.
  induction kvs as [|[k v] kvs IH]; [reflexivity|]. cbn [map]. rewrite IH. f_equal.
  unfold mask_member, mask_fields, tight, member_field. cbn [m_key fst snd].
  destruct (sensitive ps k); reflexivity.
Qed.

(** With redaction in force, a Go map of strings goes through
    [json.Marshal], the redactor and [json.Unmarshal] and comes back as
    the same map with the values of its sensitive fields masked. *)
Theorem map_of_strings_round_trip (st : state) (kvs : list (string * string)) :
  redacting st = true -> names (sensitiveParams st) = true ->
  flat kvs = true -> marshal_safe kvs = true -> ascending kvs = true ->
  composeMessage st [VMap (fields kvs)]
  = Ok (VMap (fields (map (mask_fields (sensitiveParams st)) kvs))).
Proof.
  intros R N F S A. cbn [composeMessage adaptMessage]. fold (redacting st).
  rewrite R. cbv zeta. rewrite (Marshal_fields kvs F S). cbn [default]. unfold id.
  rewrite flat_object_tight. unfold obscureSensitiveData.
  rewrite obscure_object by (exact N || apply plain_tight, F || reflexivity).
  rewrite strToObj_object_text by (apply plain_mask_members, plain_tight, F || reflexivity).
  rewrite mask_tight. rewrite object_of_ascending by (apply ascending_mask, A).
  reflexivity.
Qed.

End Round_trips.

(** ** The model at work *)

Section Examples.
Import Demo.

Example Sprintf0_verb : fmt.Sprintf0 "100%d left" = "100%!d(MISSING) left".
Proof. reflexivity. Qed.

Example Sprintf0_percent : fmt.Sprintf0 "50%% off" = "50% off".
Proof. reflexivity. Qed.

Example Sprintf0_end : fmt.Sprintf0 "100%" = "100%!(NOVERB)".
Proof. reflexivity. Qed.

Example Sprintf0_star : fmt.Sprintf0 "%*d|" = "%!(BADWIDTH)%!d(MISSING)|".
Proof. reflexivity. Qed.

Example Sprintf0_index : fmt.Sprintf0 "%[1]d|" = "%!d(BADINDEX)|".
Proof. reflexivity. Qed.

Example Sprintf0_precision :
  fmt.Sprintf0 "%.*f|%-5%." = "%!(BADPREC)%!f(MISSING)|%.".
Proof. reflexivity. Qed.

Example parse_object :
  json.parse ("{" +:+ Q +:+ "a" +:+ Q +:+ ": [true, null, " +:+ Q +:+ "x\n"
                  +:+ Q +:+ "]} ")
  = Some (VMap [("a", VSlice [VBool true; VNil;
                              VString (String "x" (String newline ""))])]).
Proof. vm_compute. reflexivity. Qed.

Example parse_number :
  json.parse " -12.5e+3" = Some (json.convertNumber "-12.5e+3").
Proof. vm_compute. reflexivity. Qed.

Example invalid_key : json.Valid "{a}" = false.
Proof. vm_compute. reflexivity. Qed.

Example invalid_number : json.Valid "01" = false.
Proof. vm_compute. reflexivity. Qed.

Example invalid_trailing_comma : json.Valid "[1,]" = false.
Proof. vm_compute. reflexivity. Qed.

Example surrogate_pair :
  json.parse (Q +:+ "\ud83d\ude00" +:+ Q)
  = Some (VString (String (byte 240) (String (byte 159)
                    (String (byte 152) (String (byte 128) ""))))).
Proof. vm_compute. reflexivity. Qed.

Example marshal_object :
  json.Marshal (VMap [("a", VSlice [VInt 1; VNil]); ("b<", VString "x%y")])
  = Some ("{" +:+ Q +:+ "a" +:+ Q +:+ ":[1,null]," +:+ Q +:+ "b\u003c" +:+ Q
              +:+ ":" +:+ Q +:+ "x%y" +:+ Q +:+ "}").
Proof. vm_compute. reflexivity. Qed.

Example indent_nested :
  json.Indent "   " "{1:[2,{}],3:[]}"
  = "{" +:+ String newline "   1: [" +:+ String newline "      2,"
        +:+ String newline "      {}" +:+ String newline "   ],"
        +:+ String newline "   3: []" +:+ String newline "}".
Proof. vm_compute. reflexivity. Qed.

Example String_clock :
  time.String_ clock = "2021-02-03 04:05:06.7890123 +0100 CET m=+0.000012345".
Proof. vm_compute. reflexivity. Qed.

(** The payload of the spec is the flat object of its two fields. *)
Example payload_is_flat : payload = flat_object payload_fields.
Proof. reflexivity. Qed.

(** JSON held in a JSON string: the first pattern masks the escaped form. *)
Example escaped_form :
  obscureParam ("{\" +:+ Q +:+ "password\" +:+ Q +:+ ": \" +:+ Q
                  +:+ "secret\" +:+ Q +:+ "}") "password"
  = "{\" +:+ Q +:+ "password\" +:+ Q +:+ ": \" +:+ Q
      +:+ "**********\" +:+ Q +:+ "}".
Proof. vm_compute. reflexivity. Qed.

(** What reaches the sink for a message with a percent sign. *)
Example percent_written :
  fmt.Sprintf0 percent_record
  = compact "info" (json.quote "100%!s(MISSING)ure") clock_text.
Proof. vm_compute. reflexivity. Qed.

(** The record of a traced, indented, coloured call. *)
Example all_options :
  composeLog
    {| logLevel := infoLevel; logWriter := [];
       JSONPrettyPrint := true; obscureSensitiveDataEnabled := false;
       sensitiveParams := []; traceCallerEnabled := true;
       colorEnabled := true; colorMap := {[ "info" := "<green>" ]};
       now := clock; traceCaller := ("main.go", "main.main") |}
    "info" [VString "a"; VInt 1; VString "b"]
  = Ok ("<green>{" +:+ String newline "   " +:+ Q +:+ "level" +:+ Q +:+ ": "
          +:+ Q +:+ "info" +:+ Q +:+ "," +:+ String newline "   "
          +:+ Q +:+ "message" +:+ Q +:+ ": " +:+ Q +:+ "a 1 b" +:+ Q +:+ ","
          +:+ String newline "   " +:+ Q +:+ "time" +:+ Q +:+ ": "
          +:+ Q +:+ clock_text +:+ Q +:+ "," +:+ String newline "   "
          +:+ Q +:+ "file" +:+ Q +:+ ": " +:+ Q +:+ "main.go" +:+ Q +:+ ","
          +:+ String newline "   " +:+ Q +:+ "function" +:+ Q +:+ ": "
          +:+ Q +:+ "main.main" +:+ Q +:+ String newline "}"
          +:+ colorReset).
Proof. vm_compute. reflexivity. Qed.

End Examples.

(** ** The statements at work

    Each property above that has a premise is applied here to a run of the
    model; the inputs on which two statements of the spec fail follow. *)

Section Instances.
Import Demo.

Lemma C1_witness :
  composeMessage redact_password [VString payload]
  = Ok (strToObj (redacted redact_password payload)).
Proof.
  exact (proj1 (C1_single_string_is_parsed_or_literal
                  redact_password payload "info" eq_refl)).
Defined.


Lemma first_quoted_value_witness :
  redacted redact_password (around "password" before_password "" "secret" "}")
  = before_password +:+ masked "password" +:+ redacted redact_password "}".
Proof.
  exact (proj1 (first_quoted_value_is_masked
                  redact_password "password" before_password "" "secret" "}"
                  eq_refl eq_refl eq_refl eq_refl eq_refl
                  eq_refl eq_refl eq_refl eq_refl)).
Defined.


Lemma percent_composes :
  composeLog start (label_of EInfo) [VString "100% sure"] = Ok percent_record.
Proof. vm_compute. reflexivity. Qed.

Lemma info_reaches_start : rank EInfo >= logLevel start.
Proof. vm_compute. discriminate. Qed.


Lemma C4_witness :
  call EInfo [VNil; VNil] start
  = Panicked (RuntimeError "slice bounds out of range [:-1]") start.
Proof.
  exact (proj2 (C4_nil_arguments_panic EInfo start 0 info_reaches_start)).
Defined.

Lemma C5_witness :
  composeMessage start [VString "%d left"; VInt 2] = Ok (VString "2 left").
Proof.
  exact (proj2 (proj2 (C5_format_is_final_text start "%d left" (VInt 2) []
                         eq_refl)) eq_refl).
Defined.

Lemma C6_witness :
  composeMessage start [VNil; VNil]
  = Raise (RuntimeError "slice bounds out of range [:-1]").
Proof.
  refine (proj1 (C6_chaining start VNil VNil [] _)).
  intros msg0 E. discriminate E.
Defined.

Lemma C7_witness :
  Time (envelope start "info" (VString ""))
  = seconds_text clock +:+ time.appendNano 789012300 +:+ " "
      +:+ zone_text clock +:+ " ".
Proof.
  exact (proj1 (proj2 (C7_time_is_text_before_first_m
                         start "info" [] (VString "") 12345
                         eq_refl eq_refl eq_refl))).
Defined.

Lemma demo_ranks_nonzero : ranks_nonzero.
Proof. repeat constructor; discriminate. Qed.

Lemma C9_witness :
  logLevel (LogLevel "warn" start) = 4 /\ logLevel (LogLevel "loud" start) = 3.
Proof.
  split.
  - refine (proj1 (C9_LogLevel_sets_rank_or_info start demo_ranks_nonzero)
              "warn" 4 _).
    cbn. tauto.
  - refine (proj2 (C9_LogLevel_sets_rank_or_info start demo_ranks_nonzero)
              "loud" _).
    cbn. intros [E|[E|[E|[E|[E|[E|[E|[]]]]]]]]; discriminate E.
Defined.

Lemma C10_witness :
  writes EInfo [VString "100% sure"] start (fmt.Sprintf0 percent_record).
Proof.
  exact (proj1 (C10_record_is_used_as_format
                  EInfo [VString "100% sure"] start percent_record
                  percent_composes info_reaches_start)).
Defined.

Lemma stringify_join_witness :
  stringify [VString "a"; VNil; VInt 1] = Ok "a 1".
Proof.
  refine (stringify_join [VString "a"; VNil; VInt 1] _). discriminate.
Defined.

Lemma panic_composes :
  composeLog start panicLabel [VString "hello"]
  = Ok (compact "panic" (json.quote "hello") clock_text).
Proof. vm_compute. reflexivity. Qed.

Lemma Panic_renders_witness :
  Panic [VString "hello"] (set_logLevel 7 start)
  = Panicked (PanicString (compact "panic" (json.quote "hello") clock_text))
      (set_logLevel 7 start).
Proof. exact (Panic_renders 7 start [VString "hello"] _ panic_composes). Defined.

Lemma composeMessage_value_witness :
  composeMessage start [VInt 7] = Ok (VInt 7).
Proof.
  refine (composeMessage_value_as_is start (VInt 7) eq_refl _).
  intros s E. discriminate E.
Defined.

Lemma render_colours_witness :
  render
    {| logLevel := 3; logWriter := [];
       JSONPrettyPrint := false; obscureSensitiveDataEnabled := false;
       sensitiveParams := []; traceCallerEnabled := false;
       colorEnabled := true; colorMap := {[ "info" := "<green>" ]};
       now := clock; traceCaller := ("main.go", "main.main") |}
    (envelope start "info" (VString "hello"))
  = index_string {[ "info" := "<green>" ]} "info" +:+ hello_record
      +:+ colorReset.
Proof.
  refine (render_colours start (envelope start "info" (VString "hello"))
            hello_record eq_refl _ {[ "info" := "<green>" ]}).
  vm_compute. reflexivity.
Defined.

Lemma demo_ranks_increasing : ranks_increasing.
Proof. repeat split; reflexivity. Qed.

Lemma fatal_composes :
  composeLog start fatalLabel [VString "hello"]
  = Ok (compact "fatal" (json.quote "hello") clock_text).
Proof. vm_compute. reflexivity. Qed.

Lemma Fatal_witness :
  Fatal [VString "hello"] (LogLevel "fatal" start)
  = Exited 1 (Fprintf (LogLevel "fatal" start)
                (compact "fatal" (json.quote "hello") clock_text)).
Proof.
  exact (Fatal_writes_then_exits "fatal" start [VString "hello"] _
           demo_ranks_increasing fatal_composes).
Defined.

Lemma panics_witness :
  (exists p st', call EInfo [VNil; VNil] start = Panicked p st')
  <-> rank EInfo >= logLevel start /\ nils [VNil; VNil] = true.
Proof. exact (proj1 (panics_exactly_on_nils EInfo [VNil; VNil] start eq_refl)). Defined.

Lemma unmarshalable_witness :
  composeLog start (label_of EInfo) [channel] = Ok ""
  /\ writes EInfo [channel] start "".
Proof.
  destruct (proj1 (unmarshalable_argument_is_lost EInfo start channel eq_refl
                     eq_refl) eq_refl) as [A W].
  split; [exact A | exact (W eq_refl info_reaches_start)].
Defined.

Lemma unmentioned_witness :
  obscureSensitiveData redact_password "hello world" = "hello world"
  /\ composeMessage redact_password [VString "hello world"]
     = Ok (strToObj "hello world").
Proof.
  exact (unmentioned_names_change_nothing redact_password "hello world"
           eq_refl eq_refl).
Defined.

Lemma error_composes :
  composeLog start (label_of EError) [VString "hello"] = Ok error_record.
Proof. vm_compute. reflexivity. Qed.

Lemma LogLevel_selects_witness :
  (writes EError [VString "hello"] (LogLevel "warn" start)
     (fmt.Sprintf0 error_record) <-> 4 <= rank EError)
  /\ (silent EError [VString "hello"] (LogLevel "warn" start) <-> rank EError < 4).
Proof.
  refine (proj1 (LogLevel_selects_entries "warn" EError [VString "hello"] start
                   error_record demo_ranks_nonzero eq_refl error_composes) 4 _).
  cbn. tauto.
Defined.

Lemma SetConfigs_witness :
  SetConfigs debug_redacting (SetConfigs warn_indented start)
  = SetConfigs (then_configs warn_indented debug_redacting) start.
Proof.
  exact (proj1 (SetConfigs_later_wins warn_indented debug_redacting start
                  (conj eq_refl eq_refl) (conj eq_refl eq_refl))).
Defined.

Lemma object_members_witness :
  composeMessage redact_two [VString (object_text readme_members "")]
  = Ok (VMap [("password", VString mask); ("username", VString "gyozatech")]).
Proof.
  exact (proj2 (object_members_are_masked redact_two readme_members ""
                  eq_refl eq_refl eq_refl eq_refl)).
Defined.

Lemma idempotent_witness :
  obscureSensitiveData redact_two
    (obscureSensitiveData redact_two (object_text readme_members ""))
  = obscureSensitiveData redact_two (object_text readme_members "").
Proof.
  exact (proj1 (redaction_is_idempotent_on_objects redact_two readme_members ""
                  eq_refl eq_refl eq_refl eq_refl)).
Defined.

Lemma embedded_witness :
  composeMessage redact_two [VMap [("body", VString (object_text readme_members ""))]]
  = Ok (VMap [("body",
               VString (object_text
                          (map (mask_member ["password"; "token"]) readme_members)
                          ""))]).
Proof.
  exact (proj1 (embedded_object_is_masked redact_two "body" readme_members ""
                  eq_refl eq_refl eq_refl eq_refl eq_refl eq_refl)).
Defined.

Lemma hello_is_not_json : json.Valid "hello" = false.
Proof. vm_compute. reflexivity. Qed.

Lemma record_witness :
  composeLog start "info" [VString "hello"]
  = Ok (flat_object [("level", "info"); ("message", "hello"); ("time", clock_text)]).
Proof.
  exact (record_of_plain_message start "info" "hello"
           eq_refl eq_refl eq_refl eq_refl hello_is_not_json).
Defined.

Lemma written_record_witness :
  writes EInfo [VString "hello"] start hello_record
  /\ json.Valid hello_record = true
  /\ strToObj hello_record
     = VMap [("level", VString "info"); ("message", VString "hello");
             ("time", VString clock_text)].
Proof.
  exact (written_record_decodes EInfo start "hello"
           eq_refl eq_refl eq_refl eq_refl hello_is_not_json info_reaches_start).
Defined.

Lemma done_is_not_json : json.Valid "100%done" = false.
Proof. vm_compute. reflexivity. Qed.

Lemma percent_sign_witness :
  writes EInfo [VString "100%done"] start
    (compact "info" (json.quote "100%!d(MISSING)one") clock_text).
Proof.
  exact (proj1 (percent_sign_in_a_message EInfo start "100" "one" "d"
                  eq_refl eq_refl eq_refl eq_refl eq_refl eq_refl
                  info_reaches_start)
           done_is_not_json).
Defined.

Lemma sensitive_number_witness :
  composeMessage redact_password
    [VString ("{" +:+ key_text "password" +:+ fmt.itoa 123 +:+ ","
                  +:+ flat_member ("u", "x") +:+ "}")]
  = Ok (VString ("{" +:+ masked "password" +:+ ":" +:+ Q +:+ "x" +:+ Q +:+ "}")).
Proof.
  exact (proj2 (sensitive_number_value redact_password "password" "u" "x" 123
                  eq_refl eq_refl eq_refl eq_refl eq_refl)).
Defined.

Lemma quoted_string_witness :
  composeMessage start [VString (json.quote "hello")] = Ok (VString "hello").
Proof.
  exact (proj1 (quoted_string_is_unquoted start "info" "hello" eq_refl eq_refl)).
Defined.

Lemma map_round_trip_witness :
  composeMessage redact_password
    [VMap [("password", VString "secret"); ("u", VString "x")]]
  = Ok (VMap [("password", VString mask); ("u", VString "x")]).
Proof.
  exact (map_of_strings_round_trip redact_password
           [("password", "secret"); ("u", "x")]
           eq_refl eq_refl eq_refl eq_refl eq_refl).
Defined.


(** C7, as the spec states it, fails: the time field of a record composed
    789012300 ns after the second holds that fraction. *)
Lemma C7_counterexample :
  composeLog start "info" []
  = Ok (compact "info" (json.quote "")
          "2021-02-03 04:05:06.7890123 +0100 CET ")
  /\ strings.Contains clock_text "06.7890123" = true.
Proof. split; vm_compute; reflexivity. Qed.

End Instances.
